(** * Channel download pipeline of the YouTube AI chat assistant

    A shallow embedding of the channel video-discovery and metadata
    pipeline of [server/index.js] (the route [POST /api/youtube/channel],
    lines 371 to 426, and the helpers it calls, lines 229 to 368), followed
    by the properties proved about it.

    Conventions of the embedding.
    - A JavaScript string is a [string]; a character stands for one UTF-16
      code unit, so [String.length] is the [.length] of the source.  Code
      units above 255 have no counterpart here; among them are two line
      terminators and some white space that the patterns and [parseInt]
      would treat specially.
    - Every network call is an input of the model: the record [Upstream]
      says, for each request the code can send, whether the call returns a
      body or throws, and with which message.
    - A function that can throw returns an [outcome]; a function that
      mutates an object takes the object store and returns the new one.
    - [send] appends to the list of events written to the response. *)

From Stdlib Require Import ZArith Ascii String DecimalString DecimalNat.
From stdpp Require Import base list strings gmap sorting.

Local Open Scope string_scope.
Local Open Scope nat_scope.
Local Open Scope list_scope.

(** ** JavaScript values read from JSON *)

(** A parsed JSON document.  A number is kept as the decimal text that
    [String(x)] prints for it: the code only ever applies [ToBoolean] and
    [ToString] (through [parseInt]) to upstream numbers, and both are exact
    on that text.  The fields of an object are listed in the order of
    [Object.values]; an absent key reads as [undefined]. *)
Unset Elimination Schemes.
Inductive json : Type :=
  | JNull
  | JBool (b : bool)
  | JNum (text : string)
  | JStr (s : string)
  | JArr (items : list json)
  | JObj (fields : list (string * json)).
Set Elimination Schemes.

(** [ToBoolean]: [null], [false], [0] and the empty string are falsy. *)
Definition truthy (v : json) : bool :=
  match v with
  | JNull => false
  | JBool b => b
  | JNum text => negb (String.eqb text "0")
  | JStr s => negb (String.eqb s EmptyString)
  | JArr _ | JObj _ => true
  end.

(** [truthyOpt] extends [truthy] to a possibly [undefined] value. *)
Definition truthyOpt (v : option json) : bool :=
  match v with Some x => truthy x | None => false end.

Fixpoint assoc (key : string) (fields : list (string * json)) : option json :=
  match fields with
  | [] => None
  | (k, v) :: rest => if String.eqb k key then Some v else assoc key rest
  end.

(** [obj.key] for the keys this program reads, none of which is an index,
    [length] or a prototype member: only an object can own them.  Reading a
    property of [null] throws and is handled where the source can do it. *)
Definition getProp (obj : json) (key : string) : option json :=
  match obj with
  | JObj fields => assoc key fields
  | _ => None
  end.

(** [obj?.key] on a possibly [undefined] receiver. *)
Definition getPropOpt (obj : option json) (key : string) : option json :=
  match obj with Some o => getProp o key | None => None end.

(** ** Continuation locator (lines 298 to 314) *)

(** A loop that returns the first truthy result of its body. *)
Definition firstFound {A B : Type} (body : A -> option B) : list A -> option B :=
  fix go (l : list A) : option B :=
    match l with
    | [] => None
    | x :: rest =>
        match body x with
        | Some found => Some found
        | None => go rest
        end
    end.

(** The two tests made on the node itself (lines 300 and 301). *)
Definition ownToken (obj : json) : option json :=
  let commandToken := getPropOpt (getProp obj "continuationCommand") "token" in
  if truthyOpt commandToken then commandToken
  else if truthyOpt (getProp obj "token")
          && truthyOpt (getProp obj "continuationEndpoint")
       then getProp obj "token"
       else None.

Fixpoint findContinuationToken (obj : json) : option json :=
  let visit (val : json) : option json :=
    match val with
    | JArr items => firstFound findContinuationToken items
    | JObj _ => findContinuationToken val
    | _ => None
    end in
  match obj with
  | JObj fields =>
      match ownToken obj with
      | Some token => Some token
      | None => firstFound (fun kv => visit (snd kv)) fields
      end
  | JArr items => firstFound visit items
  | _ => None
  end.

(** What [findContinuationToken] does with one child value. *)
Definition visitToken (val : json) : option json :=
  match val with
  | JArr items => firstFound findContinuationToken items
  | JObj _ => findContinuationToken val
  | _ => None
  end.

(** ** Video ID extractor (lines 262 to 272) *)

(** [for (const val of ...) { if (videoIds.length >= maxVideos) return; ... }] *)
Definition forValues {A : Type} (maxVideos : nat)
    (body : A -> list string -> list string) : list A -> list string -> list string :=
  fix go (l : list A) (videoIds : list string) : list string :=
    match l with
    | [] => videoIds
    | x :: rest =>
        if maxVideos <=? length videoIds then videoIds
        else go rest (body x videoIds)
    end.

(** [val.forEach(f)] with the accumulator threaded through. *)
Definition forEach {A : Type}
    (f : A -> list string -> list string) : list A -> list string -> list string :=
  fix go (l : list A) (videoIds : list string) : list string :=
    match l with
    | [] => videoIds
    | x :: rest => go rest (f x videoIds)
    end.

(** [if (!videoIds.includes(id)) videoIds.push(id)] *)
Definition pushNew (id : string) (videoIds : list string) : list string :=
  if decide (id ∈ videoIds) then videoIds else videoIds ++ [id].

(** The identifier a node carries itself: a [videoId] string of length 11. *)
Definition ownVideoId (obj : json) : option string :=
  match getProp obj "videoId" with
  | Some (JStr s) => if String.length s =? 11 then Some s else None
  | _ => None
  end.

Definition pushOwn (obj : json) (videoIds : list string) : list string :=
  match ownVideoId obj with
  | Some id => pushNew id videoIds
  | None => videoIds
  end.

Fixpoint extractVideoIds (maxVideos : nat) (obj : json) (videoIds : list string)
    : list string :=
  let visit (val : json) (ids : list string) : list string :=
    match val with
    | JArr items => forEach (extractVideoIds maxVideos) items ids
    | JObj _ => extractVideoIds maxVideos val ids
    | _ => ids
    end in
  match obj with
  | JObj fields =>
      forValues maxVideos (fun kv => visit (snd kv)) fields (pushOwn obj videoIds)
  | JArr items => forValues maxVideos visit items videoIds
  | _ => videoIds
  end.

(** What [extractVideoIds] does with one child value. *)
Definition visitIds (maxVideos : nat) (val : json) (ids : list string) : list string :=
  match val with
  | JArr items => forEach (extractVideoIds maxVideos) items ids
  | JObj _ => extractVideoIds maxVideos val ids
  | _ => ids
  end.

(** ** Text scanning: the three regular expressions and [parseInt] *)

Definition dquote : ascii := "034"%char.
Definition quoted (s : string) : string := String dquote (s +:+ String dquote EmptyString).

(** The rest of [s] after the literal [p], when [s] starts with [p]. *)
Fixpoint stripPrefix (p s : string) : option string :=
  match p, s with
  | EmptyString, _ => Some s
  | String a p', String b s' => if Ascii.eqb a b then stripPrefix p' s' else None
  | String _ _, EmptyString => None
  end.

(** The longest prefix of [s] made of characters in the class [cls], and
    what follows it: a greedy [cls*]. *)
Fixpoint spanClass (cls : ascii -> bool) (s : string) : string * string :=
  match s with
  | EmptyString => (EmptyString, EmptyString)
  | String c s' =>
      if cls c then let (run, rest) := spanClass cls s' in (String c run, rest)
      else (EmptyString, s)
  end.

(** [str.match(re)] without the [g] flag tries the pattern at each start
    position from the left and keeps the first success. *)
Fixpoint searchFrom {B : Type} (pattern : string -> option B) (s : string) : option B :=
  match pattern s with
  | Some m => Some m
  | None =>
      match s with
      | EmptyString => None
      | String _ s' => searchFrom pattern s'
      end
  end.

(** A lazy [.*?] followed by [tail]: the shortest stretch without a line
    terminator after which [tail] matches. *)
Definition isLineTerminator (c : ascii) : bool :=
  Ascii.eqb c "010"%char || Ascii.eqb c "013"%char.

Fixpoint lazyDots {B : Type} (tail : string -> option B) (s : string) : option B :=
  match tail s with
  | Some m => Some m
  | None =>
      match s with
      | EmptyString => None
      | String c s' => if isLineTerminator c then None else lazyDots tail s'
      end
  end.

Definition isDigit (c : ascii) : bool :=
  (48 <=? nat_of_ascii c) && (nat_of_ascii c <=? 57).

Definition notQuote (c : ascii) : bool := negb (Ascii.eqb c dquote).
Definition isDigitOrComma (c : ascii) : bool := isDigit c || Ascii.eqb c ","%char.

(** A greedy [cls+] captured as group 1 and followed by the literal
    [closing].  The first character of [closing] is never in [cls] here, so
    only the longest run can be followed by it and no shorter run is tried. *)
Definition captureRun (cls : ascii -> bool) (closing : string) (s : string)
    : option string :=
  match spanClass cls s with
  | (String c run, rest) =>
      match stripPrefix closing rest with
      | Some _ => Some (String c run)
      | None => None
      end
  | (EmptyString, _) => None
  end.

(** The pattern [/QkeyQ:Q(UC[^Q]+)Q/], writing Q for the double quote
    character; the result is group 1. *)
Definition channelIdPattern (key : string) (s : string) : option string :=
  match stripPrefix (quoted key +:+ ":" +:+ String dquote "UC") s with
  | Some rest =>
      match captureRun notQuote (String dquote EmptyString) rest with
      | Some run => Some ("UC" +:+ run)
      | None => None
      end
  | None => None
  end.

(** The pattern [/QdefaultIconQ.*?QlabelQ:Q([\d,]+) likesQ/], with Q the
    double quote character; the result is group 1. *)
Definition likesPattern (s : string) : option string :=
  match stripPrefix (quoted "defaultIcon") s with
  | Some rest =>
      lazyDots (fun t =>
        match stripPrefix (quoted "label" +:+ ":" +:+ String dquote EmptyString) t with
        | Some u => captureRun isDigitOrComma (" likes" +:+ String dquote EmptyString) u
        | None => None
        end) rest
  | None => None
  end.

(** The pattern [/QcommentCountQ.*?QsimpleTextQ:Q([\d,]+)Q/], with Q the
    double quote character; the result is group 1. *)
Definition commentsPattern (s : string) : option string :=
  match stripPrefix (quoted "commentCount") s with
  | Some rest =>
      lazyDots (fun t =>
        match stripPrefix (quoted "simpleText" +:+ ":" +:+ String dquote EmptyString) t with
        | Some u => captureRun isDigitOrComma (String dquote EmptyString) u
        | None => None
        end) rest
  | None => None
  end.

(** [s.replace(/,/g, '')] *)
Fixpoint removeCommas (s : string) : string :=
  match s with
  | EmptyString => EmptyString
  | String c s' =>
      if Ascii.eqb c ","%char then removeCommas s' else String c (removeCommas s')
  end.

(** A JavaScript number as [parseInt] can produce it.  Integers are exact
    here; the loss of precision of a double above 2^53 is not modelled. *)
Inductive jsnum : Type :=
  | NaN
  | Num (z : Z).

Definition isWhiteSpace (c : ascii) : bool :=
  let n := nat_of_ascii c in
  ((9 <=? n) && (n <=? 13)) || (n =? 32) || (n =? 160).

Fixpoint skipWhiteSpace (s : string) : string :=
  match s with
  | String c s' => if isWhiteSpace c then skipWhiteSpace s' else s
  | EmptyString => EmptyString
  end.

Definition digitValue (radix : nat) (c : ascii) : option Z :=
  let n := nat_of_ascii c in
  let v :=
    if (48 <=? n) && (n <=? 57) then Some (n - 48)
    else if (97 <=? n) && (n <=? 122) then Some (n - 87)
    else if (65 <=? n) && (n <=? 90) then Some (n - 55)
    else None in
  match v with
  | Some d => if d <? radix then Some (Z.of_nat d) else None
  | None => None
  end.

(** The value of the longest prefix of digits of [s] in [radix], given the
    value [acc] of the digits read so far, or [None] when no digit has been
    read at all. *)
Fixpoint readDigits (radix : nat) (s : string) (acc : option Z) : option Z :=
  match s with
  | EmptyString => acc
  | String c s' =>
      match digitValue radix c with
      | Some d =>
          readDigits radix s' (Some (Z.of_nat radix * default 0%Z acc + d)%Z)
      | None => acc
      end
  end.

(** The digits of [parseInt] once the white space and the sign are gone:
    a [0x] or [0X] prefix selects radix 16, anything else radix 10. *)
Definition parseMagnitude (s : string) : option Z :=
  let (radix, digits) :=
    match s with
    | String "0"%char (String "x"%char r) => (16, r)
    | String "0"%char (String "X"%char r) => (16, r)
    | _ => (10, s)
    end in
  readDigits radix digits None.

(** [parseInt(s)] with no radix argument. *)
Definition parseInt (s : string) : jsnum :=
  let s1 := skipWhiteSpace s in
  let (negative, s2) :=
    match s1 with
    | String "-"%char r => (true, r)
    | String "+"%char r => (false, r)
    | _ => (false, s1)
    end in
  match parseMagnitude s2 with
  | Some v => Num (if negative then - v else v)%Z
  | None => NaN
  end.

(** The result of a call or of an [await]: a value, or an exception of
    which the code only ever reads [err.message]. *)
Inductive outcome (A : Type) : Type :=
  | Returned (value : A)
  | Thrown (message : string).
Arguments Returned {A} value.
Arguments Thrown {A} message.

(** The message of the [TypeError] of a conversion to a primitive value,
    in the wording of V8. *)
Definition primitiveMessage : string := "Cannot convert object to primitive value".

(** [items.join()] given the text of an item: the texts separated by
    commas, or the first exception that an item raises. *)
Definition joinTexts (text : json -> outcome string) : list json -> outcome string :=
  fix join (l : list json) : outcome string :=
    match l with
    | [] => Returned EmptyString
    | x :: rest =>
        match text x with
        | Thrown message => Thrown message
        | Returned first =>
            match rest with
            | [] => Returned first
            | _ =>
                match join rest with
                | Thrown message => Thrown message
                | Returned others => Returned (first +:+ "," +:+ others)
                end
            end
        end
    end.

(** [ToString] of a JSON value, as [parseInt], [new Error] and a template
    apply it.  An object is converted by the [toString] it inherits unless
    it owns a key [toString]: the value of that key, coming from JSON, is
    not callable, [valueOf] gives back the object, and the conversion
    throws.  An array joins the texts of its items, [null] counting as the
    empty text, and throws where an item does. *)
Fixpoint toStr (v : json) : outcome string :=
  match v with
  | JNull => Returned "null"
  | JBool true => Returned "true"
  | JBool false => Returned "false"
  | JNum text => Returned text
  | JStr s => Returned s
  | JArr items =>
      joinTexts (fun x => match x with JNull => Returned EmptyString | _ => toStr x end)
                items
  | JObj fields =>
      match assoc "toString" fields with
      | Some _ => Thrown primitiveMessage
      | None => Returned "[object Object]"
      end
  end.

(** [parseInt(v)] for a JSON value *)
Definition parseIntJson (v : json) : outcome jsnum :=
  match toStr v with
  | Thrown message => Thrown message
  | Returned text => Returned (parseInt text)
  end.

(** [parseInt(v)] on a possibly [undefined] value. *)
Definition parseIntOf (v : option json) : outcome jsnum :=
  match v with
  | Some x => parseIntJson x
  | None => Returned NaN
  end.

(** [n || 0] *)
Definition orZero (n : jsnum) : Z :=
  match n with
  | NaN => 0%Z
  | Num z => z
  end.

(** ** The upstream world *)

(** What the network answers during one run.  A browse continuation is
    keyed by the number of the attempt as well as by the token sent, so that
    upstream may answer the same token differently each time.  The requests
    made for a video are keyed by its identifier: a run makes them once per
    identifier, the enumerated identifiers being pairwise distinct. *)
Record Upstream : Type := {
  (** [fetch(channelUrl)] then [res.text()] *)
  channelPage : string -> outcome string;
  (** the first [browse] request, for a channel id, then [res.json()] *)
  browseChannel : string -> outcome json;
  (** the [browse] request of attempt [k] carrying a continuation token *)
  browseContinuation : nat -> json -> outcome json;
  (** the [player] request for a video id, then [res.json()] *)
  playerResponse : string -> outcome json;
  (** the texts of the segments [YoutubeTranscript.fetchTranscript] yields,
      or [None] when anything in that [try] block throws *)
  transcriptSegments : string -> option (list string);
  (** [fetch] of the watch page of a video id, then [res.text()] *)
  watchPage : string -> outcome string
}.

(** ** Identifier resolver (lines 229 to 243) *)

Definition resolveChannelId (up : Upstream) (channelUrl : string)
    : outcome (option string) :=
  match channelPage up channelUrl with
  | Thrown message => Thrown message
  | Returned html =>
      match searchFrom (channelIdPattern "externalId") html with
      | Some externalId => Returned (Some externalId)
      | None => Returned (searchFrom (channelIdPattern "channelId") html)
      end
  end.

(** ** Video enumerator (lines 245 to 296) *)

(** The variables of [fetchChannelVideoIds] while it paginates, with two
    ghost fields that only record what happened: the continuation requests
    sent, each with its attempt number, and the documents received. *)
Record Pagination : Type := {
  videoIds : list string;
  data : json;
  attempts : nat;
  requestsSent : list (nat * json);
  pagesSeen : list json
}.

(** The [while] loop of lines 278 to 293.  [rounds] is [10 - attempts], the
    number of iterations the test [attempts < 10] still allows.  The second
    component is the message of the exception that left the loop, if any. *)
Fixpoint paginate (up : Upstream) (maxVideos : nat) (rounds : nat) (st : Pagination)
    : Pagination * option string :=
  match rounds with
  | 0 => (st, None)
  | S rounds' =>
      if length (videoIds st) <? maxVideos then
        let attempts' := S (attempts st) in
        match findContinuationToken (data st) with
        | None =>
            ({| videoIds := videoIds st; data := data st; attempts := attempts';
                requestsSent := requestsSent st; pagesSeen := pagesSeen st |}, None)
        | Some contToken =>
            let sent := requestsSent st ++ [(attempts', contToken)] in
            match browseContinuation up attempts' contToken with
            | Thrown message =>
                ({| videoIds := videoIds st; data := data st; attempts := attempts';
                    requestsSent := sent; pagesSeen := pagesSeen st |}, Some message)
            | Returned data' =>
                paginate up maxVideos rounds'
                  {| videoIds := extractVideoIds maxVideos data' (videoIds st);
                     data := data'; attempts := attempts';
                     requestsSent := sent; pagesSeen := pagesSeen st ++ [data'] |}
            end
        end
      else (st, None)
  end.

(** The state in which [fetchChannelVideoIds] leaves its loop, or the
    exception of the first request when that one already throws. *)
Definition enumeration (up : Upstream) (channelId : string) (maxVideos : nat)
    : outcome (Pagination * option string) :=
  match browseChannel up channelId with
  | Thrown message => Thrown message
  | Returned data0 =>
      Returned (paginate up maxVideos 10
                  {| videoIds := extractVideoIds maxVideos data0 [];
                     data := data0; attempts := 0;
                     requestsSent := []; pagesSeen := [data0] |})
  end.

Definition fetchChannelVideoIds (up : Upstream) (channelId : string) (maxVideos : nat)
    : outcome (list string) :=
  match enumeration up channelId maxVideos with
  | Thrown message => Thrown message
  | Returned (_, Some message) => Thrown message
  | Returned (st, None) => Returned (take maxVideos (videoIds st))
  end.

(** ** Video records, the object store and the metadata fetcher (lines 316 to 351) *)

Record VideoRecord : Type := {
  videoId : string;
  title : json;
  description : json;
  duration : Z;
  viewCount : Z;
  likeCount : option jsnum;
  commentCount : option jsnum;
  releaseDate : json;
  videoUrl : string;
  thumbnailUrl : json;
  transcript : option string
}.

(** The record objects live in a store and are handled through their
    address, as the source handles them through a reference. *)
Abbreviation address := nat (only parsing).
Abbreviation store := (gmap nat VideoRecord) (only parsing).

(** An object literal evaluates to a fresh object. *)
Definition allocate (r : VideoRecord) (objects : store) : address * store :=
  let a := fresh (dom objects) in (a, <[a := r]> objects).

(** [v || fallback] on a possibly [undefined] value *)
Definition orElse (v : option json) (fallback : json) : json :=
  match v with
  | Some x => if truthy x then x else fallback
  | None => fallback
  end.

Definition watchUrl (id : string) : string := "https://www.youtube.com/watch?v=" +:+ id.

Definition defaultThumbnail (id : string) : string :=
  "https://i.ytimg.com/vi/" +:+ id +:+ "/hqdefault.jpg".

(** The messages of the two [TypeError]s that [getVideoDetails] can raise
    by itself, in the wording of V8; only their existence matters below. *)
Definition nullBodyMessage : string :=
  "Cannot read properties of null (reading 'videoDetails')".
Definition sliceMessage : string :=
  "vd.thumbnail?.thumbnails?.slice is not a function".

(** [vd.thumbnail?.thumbnails?.slice(-1)?.[0]?.url || fallback] (line 348).
    The optional chain stops at [undefined] and [null]; an array yields its
    last element, a string yields a one-character string, which has no
    [url]; any other value has no [slice] method and the call throws. *)
Definition thumbnailOf (vd : json) (id : string) : outcome json :=
  let fallback := JStr (defaultThumbnail id) in
  match getPropOpt (getProp vd "thumbnail") "thumbnails" with
  | None | Some JNull => Returned fallback
  | Some (JArr thumbnails) =>
      Returned (orElse (getPropOpt (last thumbnails) "url") fallback)
  | Some (JStr _) => Returned fallback
  | Some _ => Thrown sliceMessage
  end.

(** [t.map((s) => s.text).join(' ')] *)
Fixpoint joinSpaces (texts : list string) : string :=
  match texts with
  | [] => EmptyString
  | [text] => text
  | text :: rest => text +:+ " " +:+ joinSpaces rest
  end.

(** Lines 326 to 350 for a response body that is not [null]: the object
    literal, before it is allocated.  Its properties are evaluated in the
    order written, so that of the three that can throw the conversion of
    [lengthSeconds] comes first, that of [viewCount] second and the
    thumbnail last. *)
Definition detailsOf (up : Upstream) (id : string) (response : json)
    : outcome VideoRecord :=
  let vd := orElse (getProp response "videoDetails") (JObj []) in
  let md :=
    orElse (getPropOpt (getProp response "microformat") "playerMicroformatRenderer")
           (JObj []) in
  let script := joinSpaces <$> transcriptSegments up id in
  match parseIntOf (getProp vd "lengthSeconds") with
  | Thrown message => Thrown message
  | Returned seconds =>
      match parseIntOf (getProp vd "viewCount") with
      | Thrown message => Thrown message
      | Returned views =>
          match thumbnailOf vd id with
          | Thrown message => Thrown message
          | Returned thumbnail =>
              Returned
                {| videoId := id;
                   title := orElse (getProp vd "title") (JStr EmptyString);
                   description :=
                     orElse (getProp vd "shortDescription") (JStr EmptyString);
                   duration := orZero seconds;
                   viewCount := orZero views;
                   likeCount := None;
                   commentCount := None;
                   releaseDate :=
                     orElse (getProp md "publishDate")
                            (orElse (getProp md "uploadDate") (JStr EmptyString));
                   videoUrl := watchUrl id;
                   thumbnailUrl := thumbnail;
                   transcript := script |}
          end
      end
  end.

(** [data.videoDetails] throws when the body is [null]. *)
Definition videoDetails (up : Upstream) (id : string) : outcome VideoRecord :=
  match playerResponse up id with
  | Thrown message => Thrown message
  | Returned JNull => Thrown nullBodyMessage
  | Returned response => detailsOf up id response
  end.

Definition getVideoDetails (up : Upstream) (id : string) (objects : store)
    : outcome (address * store) :=
  match videoDetails up id with
  | Thrown message => Thrown message
  | Returned r => Returned (allocate r objects)
  end.

(** ** Engagement enricher (lines 354 to 368) *)

Definition setLikeCount (n : jsnum) (r : VideoRecord) : VideoRecord :=
  {| videoId := videoId r; title := title r; description := description r;
     duration := duration r; viewCount := viewCount r;
     likeCount := Some n; commentCount := commentCount r;
     releaseDate := releaseDate r; videoUrl := videoUrl r;
     thumbnailUrl := thumbnailUrl r; transcript := transcript r |}.

Definition setCommentCount (n : jsnum) (r : VideoRecord) : VideoRecord :=
  {| videoId := videoId r; title := title r; description := description r;
     duration := duration r; viewCount := viewCount r;
     likeCount := likeCount r; commentCount := Some n;
     releaseDate := releaseDate r; videoUrl := videoUrl r;
     thumbnailUrl := thumbnailUrl r; transcript := transcript r |}.

(** [parseInt(m[1].replace(/,/g, ''))] *)
Definition countOf (group : string) : jsnum := parseInt (removeCommas group).

(** The function mutates the object at [videoInfo] and returns [videoInfo].
    Everything that can throw sits inside its [try], whose [catch] is empty. *)
Definition enrichWithEngagementData (up : Upstream) (videoInfo : address)
    (objects : store) : address * store :=
  match objects !! videoInfo with
  | None => (videoInfo, objects)
  | Some r =>
      match watchPage up (videoId r) with
      | Thrown _ => (videoInfo, objects)
      | Returned html =>
          let objects1 :=
            match searchFrom likesPattern html with
            | Some group => alter (setLikeCount (countOf group)) videoInfo objects
            | None => objects
            end in
          let objects2 :=
            match searchFrom commentsPattern html with
            | Some group => alter (setCommentCount (countOf group)) videoInfo objects1
            | None => objects1
            end in
          (videoInfo, objects2)
      end
  end.

(** ** Progress percentage in double precision *)

(** [pct = 10 + Math.round((i / videoIds.length) * 85)] is computed on
    binary64 numbers, and the rounding of the division shows: for instance
    [(7 / 10) * 85] is [59.49999999999999], so that [Math.round] gives 59
    where the exact product 59.5 would give 60.  A finite non-negative double
    is written [mantissa * 2 ^ exponent]; the quotients and products met
    here are far from the subnormal and overflow ranges, which are not
    modelled. *)
Record double : Type := { mantissa : Z; exponent : Z }.

Local Open Scope Z_scope.

(** [n / d] rounded to the nearest integer, ties to even ([0 < d]). *)
Definition roundQuotient (n d : Z) : Z :=
  let q := n / d in
  let r := n mod d in
  if 2 * r <? d then q
  else if d <? 2 * r then q + 1
  else if Z.even q then q else q + 1.

(** The double nearest to the ratio [a / b], for [0 <= a] and [0 < b]: the
    ratio is scaled into [[2^52, 2^53)] and rounded there. *)
Definition nearestDouble (a b : Z) : double :=
  if a =? 0 then {| mantissa := 0; exponent := 0 |}
  else
    let k := Z.log2 a - Z.log2 b in
    let magnitude :=
      if b * 2 ^ Z.max 0 k <=? a * 2 ^ Z.max 0 (- k) then k else k - 1 in
    let e := magnitude - 52 in
    {| mantissa := roundQuotient (a * 2 ^ Z.max 0 (- e)) (b * 2 ^ Z.max 0 e);
       exponent := e |}.

(** [x / y] for two integers that are exact as doubles *)
Definition divide (x y : Z) : double := nearestDouble x y.

(** [x * k] for a double [x] and a small integer [k] *)
Definition times (x : double) (k : Z) : double :=
  nearestDouble (mantissa x * k * 2 ^ Z.max 0 (exponent x))
                (2 ^ Z.max 0 (- exponent x)).

(** [Math.round(x)]: the nearest integer, a tie going up. *)
Definition mathRound (x : double) : Z :=
  let n := mantissa x * 2 ^ Z.max 0 (exponent x) in
  let d := 2 ^ Z.max 0 (- exponent x) in
  (2 * n + d) / (2 * d).

Definition progressOf (i count : nat) : Z :=
  10 + mathRound (times (divide (Z.of_nat i) (Z.of_nat count)) 85).

Local Close Scope Z_scope.

(** ** Progress events and the route (lines 371 to 426) *)

(** An element of the [videos] array: a reference to an enriched record, or
    the object literal of the [catch] branch, which is never mutated. *)
Inductive videoEntry : Type :=
  | RecordAt (a : address)
  | FailedEntry (id : string) (error : string).

(** The same element once [JSON.stringify] has written it out. *)
Inductive videoJson : Type :=
  | Populated (r : VideoRecord)
  | ErrorOnly (id : string) (error : string).

Inductive event : Type :=
  | Status (message : string) (progress : Z)
  | Error (message : string)
  | Result (videos : list videoJson).

Definition decimal (n : nat) : string := NilZero.string_of_uint (Nat.to_uint n).

Definition writeOut (objects : store) (entry : videoEntry) : option videoJson :=
  match entry with
  | RecordAt a => Populated <$> objects !! a
  | FailedEntry id error => Some (ErrorOnly id error)
  end.

(** The variables the per-video loop updates: the store, the [videos] array
    and, as the effect of [send], the events written to the response. *)
Record Run : Type := {
  objects : gmap nat VideoRecord;
  videos : list videoEntry;
  written : list event
}.

(** The [status] event sent at the top of iteration [i] (lines 402, 403). *)
Definition downloading (count i : nat) : event :=
  Status ("Downloading video " +:+ decimal (i + 1) +:+ "/" +:+ decimal count +:+ "...")
         (progressOf i count).

(** The [for] loop of lines 401 to 412, started at index [i] with the
    identifiers [rest] still to process out of [count]. *)
Fixpoint videoLoop (up : Upstream) (count : nat) (i : nat) (rest : list string)
    (run : Run) : Run :=
  match rest with
  | [] => run
  | id :: rest' =>
      let written' := written run ++ [downloading count i] in
      match getVideoDetails up id (objects run) with
      | Returned (info, objects1) =>
          let (info', objects2) := enrichWithEngagementData up info objects1 in
          videoLoop up count (S i) rest'
            {| objects := objects2; videos := videos run ++ [RecordAt info'];
               written := written' |}
      | Thrown message =>
          videoLoop up count (S i) rest'
            {| objects := objects run; videos := videos run ++ [FailedEntry id message];
               written := written' |}
      end
  end.

(** The body of a request: [maxVideos] is whatever JSON value the client
    sent, if any. *)
Record Request : Type := {
  channelUrl : option string;
  maxVideos : option json
}.

(** [Math.min(Math.max(1, n || 10), 100)] for the number [n] that
    [parseInt] made of [maxVideos] *)
Definition limitOf (n : jsnum) : Z :=
  let wanted :=
    match n with
    | NaN => 10%Z
    | Num z => if (z =? 0)%Z then 10%Z else z
    end in
  Z.min (Z.max 1 wanted) 100.

(** [Math.min(Math.max(1, parseInt(maxVideos) || 10), 100)] (line 376), the
    destructuring default [maxVideos = 10] applying to an absent field.
    The conversion of [maxVideos] to a text can throw. *)
Definition effectiveMax (maxVideos : option json) : outcome Z :=
  match maxVideos with
  | None => Returned (limitOf (Num 10))
  | Some v =>
      match parseIntJson v with
      | Thrown message => Thrown message
      | Returned n => Returned (limitOf n)
      end
  end.

(** Everything the route writes to the event stream, from the first
    [send] on; the [catch] of line 417 turns an exception into an [error]
    event. *)
Definition pipeline (up : Upstream) (url : string) (max : nat) : list event :=
  let written0 := [Status "Resolving channel..." 0] in
  match resolveChannelId up url with
  | Thrown message => written0 ++ [Error message]
  | Returned None | Returned (Some EmptyString) =>
      written0 ++ [Error "Could not resolve channel ID from URL"]
  | Returned (Some channelId) =>
      let written1 := written0 ++ [Status "Fetching video list..." 5] in
      match fetchChannelVideoIds up channelId max with
      | Thrown message => written1 ++ [Error message]
      | Returned [] => written1 ++ [Error "No videos found for this channel"]
      | Returned ids =>
          let written2 :=
            written1 ++
            [Status ("Found " +:+ decimal (length ids) +:+ " videos. Downloading metadata...")
                    10] in
          let run :=
            videoLoop up (length ids) 0 ids
              {| objects := ∅; videos := []; written := written2 |} in
          written run ++
          [Status "Done!" 100; Result (omap (writeOut (objects run)) (videos run))]
      end
  end.

Inductive response : Type :=
  | ClientError (status : nat) (error : string)
  | EventStream (events : list event).

(** The route [POST /api/youtube/channel].  An exception of line 376 is
    caught at line 417 like any other: the stream then holds the [error]
    event alone, written before any header was set. *)
Definition channelRoute (up : Upstream) (req : Request) : response :=
  match channelUrl req with
  | None | Some EmptyString => ClientError 400 "channelUrl required"
  | Some url =>
      match effectiveMax (maxVideos req) with
      | Thrown message => EventStream [Error message]
      | Returned max => EventStream (pipeline up url (Z.to_nat max))
      end
  end.

(** ** Reference traversals, used to state what the two searches return *)

(** The nodes of a document in depth-first, left-to-right order: a node
    comes before its children, the children in the order of [Object.values]. *)
Fixpoint preorder (v : json) : list json :=
  v :: match v with
       | JArr items => flat_map preorder items
       | JObj fields => flat_map (fun kv => preorder (snd kv)) fields
       | _ => []
       end.

(** Every identifier a document carries, in that same order. *)
Definition idsOf (v : json) : list string := omap ownVideoId (preorder v).

(** [pushNew] applied to each identifier of a list in turn. *)
Definition pushAll (ids : list string) (videoIds : list string) : list string :=
  foldl (fun acc id => pushNew id acc) videoIds ids.

(** The identifiers of a list of documents in order of first discovery. *)
Definition discovered (pages : list json) : list string :=
  pushAll (flat_map idsOf pages) [].

(** Two accumulators agree when they are equal, or when both already hold
    [maxVideos] identifiers and these are the same. *)
Definition agree (maxVideos : nat) (e f : list string) : Prop :=
  e = f \/
  (maxVideos <= length e /\ maxVideos <= length f /\ take maxVideos e = take maxVideos f).

(** ** Notions used to state the properties *)

(** A well-formed ChannelId in the words of the specification: the two
    characters UC followed by exactly 22 characters. *)
Definition wellFormedChannelId (id : string) : bool :=
  match stripPrefix "UC" id with
  | Some rest => String.length rest =? 22
  | None => false
  end.

Fixpoint allChars (cls : ascii -> bool) (s : string) : bool :=
  match s with
  | EmptyString => true
  | String c s' => cls c && allChars cls s'
  end.


(** [String(z)] for an integer [z]: its decimal digits after an optional
    minus sign.  JavaScript prints a number this way below 10^21 in absolute
    value and switches to exponent notation from there on, which
    [integerText] leaves out. *)
Definition printInt (z : Z) : string :=
  if (z <? 0)%Z then "-" +:+ decimal (Z.to_nat (- z)) else decimal (Z.to_nat z).


(** The resolution of an entry of the upstream thumbnail list, which
    carries a [width] and a [height] next to its [url]. *)
Definition pixels (thumbnail : json) : Z :=
  let side key :=
    match parseIntOf (getProp thumbnail key) with
    | Returned n => orZero n
    | Thrown _ => 0%Z
    end in
  (side "width" * side "height")%Z.

(** The entry of highest resolution in the words of the specification; of
    two entries of the same resolution the earlier one is kept. *)
Fixpoint highestResolution (thumbnails : list json) : option json :=
  match thumbnails with
  | [] => None
  | t :: rest =>
      match highestResolution rest with
      | Some best => if (pixels t <? pixels best)%Z then Some best else Some t
      | None => Some t
      end
  end.

(** The record that [enrichWithEngagementData] leaves at the address of a
    record [r]. *)
Definition engagement (up : Upstream) (r : VideoRecord) : VideoRecord :=
  match watchPage up (videoId r) with
  | Thrown _ => r
  | Returned html =>
      let r1 :=
        match searchFrom likesPattern html with
        | Some group => setLikeCount (countOf group) r
        | None => r
        end in
      match searchFrom commentsPattern html with
      | Some group => setCommentCount (countOf group) r1
      | None => r1
      end
  end.

(** The count the enricher leaves in a field: the parsed capture when the
    page was fetched and the marker matched, the prior value otherwise. *)
Definition countAfter (up : Upstream) (id : string) (marker : string -> option string)
    (prior : option jsnum) : option jsnum :=
  match watchPage up id with
  | Thrown _ => prior
  | Returned html =>
      match searchFrom marker html with
      | Some group => Some (countOf group)
      | None => prior
      end
  end.

(** The entry of the [result] event that one iteration of the per-video
    loop produces for an identifier. *)
Definition entryFor (up : Upstream) (id : string) : videoJson :=
  match videoDetails up id with
  | Thrown message => ErrorOnly id message
  | Returned r => Populated (engagement up r)
  end.

Definition progressValues (events : list event) : list Z :=
  omap (fun e => match e with Status _ p => Some p | _ => None end) events.

Definition isStatus (e : event) : bool :=
  match e with Status _ _ => true | _ => false end.

Definition isError (e : event) : bool :=
  match e with Error _ => true | _ => false end.

Definition isResult (e : event) : bool :=
  match e with Result _ => true | _ => false end.

(** The events of a run, case by case. *)
Inductive runShape (up : Upstream) (url : string) (max : nat) : list event -> Prop :=
  | ResolveThrew message :
      resolveChannelId up url = Thrown message ->
      runShape up url max [Status "Resolving channel..." 0; Error message]
  | ResolveFailed id :
      resolveChannelId up url = Returned id ->
      id = None \/ id = Some EmptyString ->
      runShape up url max
        [Status "Resolving channel..." 0; Error "Could not resolve channel ID from URL"]
  | ListingThrew channelId message :
      resolveChannelId up url = Returned (Some channelId) ->
      fetchChannelVideoIds up channelId max = Thrown message ->
      runShape up url max
        [Status "Resolving channel..." 0; Status "Fetching video list..." 5; Error message]
  | ListingEmpty channelId :
      resolveChannelId up url = Returned (Some channelId) ->
      fetchChannelVideoIds up channelId max = Returned [] ->
      runShape up url max
        [Status "Resolving channel..." 0; Status "Fetching video list..." 5;
         Error "No videos found for this channel"]
  | Completed channelId ids :
      resolveChannelId up url = Returned (Some channelId) ->
      fetchChannelVideoIds up channelId max = Returned ids ->
      ids <> [] ->
      runShape up url max
        ([Status "Resolving channel..." 0; Status "Fetching video list..." 5;
          Status ("Found " +:+ decimal (length ids) +:+ " videos. Downloading metadata...") 10]
         ++ map (downloading (length ids)) (seq 0 (length ids))
         ++ [Status "Done!" 100; Result (map (entryFor up) ids)]).

(** What is checked, by evaluation, of the percentages of a run over
    [count] videos: each lies between 10 and 95, two consecutive ones do not
    decrease, and each is within one half of the exact interpolation
    [10 + 85 * i / count]. *)
Definition progressRow (count : nat) : bool :=
  forallb (fun i =>
    (10 <=? progressOf i count)%Z && (progressOf i count <=? 95)%Z
    && (progressOf i count <=? progressOf (S i) count)%Z
    && (Z.abs (2 * Z.of_nat count * (progressOf i count - 10) - 170 * Z.of_nat i)
        <=? Z.of_nat count)%Z)
    (seq 0 count).

(** ** Example worlds *)

Definition videoNode (id : string) : json :=
  JObj [("richItemRenderer",
         JObj [("content", JObj [("videoRenderer", JObj [("videoId", JStr id)])])])].

(** A first page with two videos and a continuation, and a second page
    that repeats one of them and adds a third. *)
Definition firstPage : json :=
  JObj [("contents", JArr [videoNode "aaaaaaaaaaa"; videoNode "bbbbbbbbbbb"]);
        ("continuationItemRenderer",
         JObj [("continuationEndpoint",
                JObj [("continuationCommand", JObj [("token", JStr "page-2")])])])].

Definition secondPage : json :=
  JObj [("onResponseReceivedActions",
         JArr [videoNode "aaaaaaaaaaa"; videoNode "ccccccccccc"])].

Definition thumbnailEntry (url width height : string) : json :=
  JObj [("url", JStr url); ("width", JNum width); ("height", JNum height)].

Definition playerBody (thumbnails : list json) : json :=
  JObj [("videoDetails",
         JObj [("title", JStr "A talk"); ("shortDescription", JStr "About things");
               ("lengthSeconds", JStr "213"); ("viewCount", JStr "1500");
               ("thumbnail", JObj [("thumbnails", JArr thumbnails)])]);
        ("microformat",
         JObj [("playerMicroformatRenderer", JObj [("publishDate", JStr "2024-01-01")])])].

Definition channelHtml (id : string) : string :=
  "<script>{" +:+ quoted "externalId" +:+ ":" +:+ quoted id +:+ "}</script>".

Definition watchHtml : string :=
  "{" +:+ quoted "defaultIcon" +:+ ":{}," +:+ quoted "label" +:+ ":"
  +:+ quoted "1,234 likes" +:+ "," +:+ quoted "commentCount" +:+ ":{"
  +:+ quoted "simpleText" +:+ ":" +:+ quoted "56" +:+ "}}".

(** A channel of three videos; the player request fails for the second
    one and the watch page cannot be fetched for the third. *)
Definition demo : Upstream := {|
  channelPage := fun _ => Returned (channelHtml "UCabcdefghijklmnopqrstuv");
  browseChannel := fun _ => Returned firstPage;
  browseContinuation := fun _ _ => Returned secondPage;
  playerResponse := fun id =>
    if String.eqb id "bbbbbbbbbbb" then Thrown "player unavailable"
    else Returned (playerBody [thumbnailEntry "https://i.ytimg.com/small.jpg" "120" "90";
                               thumbnailEntry "https://i.ytimg.com/large.jpg" "1280" "720"]);
  transcriptSegments := fun id =>
    if String.eqb id "aaaaaaaaaaa" then Some ["hello"; "world"] else None;
  watchPage := fun id =>
    if String.eqb id "ccccccccccc" then Thrown "timeout" else Returned watchHtml
|}.

(** The same channel when the continuation request fails. *)
Definition stalled : Upstream := {|
  channelPage := channelPage demo;
  browseChannel := browseChannel demo;
  browseContinuation := fun _ _ => Thrown "socket hang up";
  playerResponse := playerResponse demo;
  transcriptSegments := transcriptSegments demo;
  watchPage := watchPage demo
|}.

(** The same channel when upstream lists the larger thumbnail first. *)
Definition largestFirst : Upstream := {|
  channelPage := channelPage demo;
  browseChannel := browseChannel demo;
  browseContinuation := browseContinuation demo;
  playerResponse := fun _ =>
    Returned (playerBody [thumbnailEntry "https://i.ytimg.com/large.jpg" "1280" "720";
                          thumbnailEntry "https://i.ytimg.com/small.jpg" "120" "90"]);
  transcriptSegments := transcriptSegments demo;
  watchPage := watchPage demo
|}.

(** A channel page whose marker holds a short identifier. *)
Definition shortId : Upstream := {|
  channelPage := fun _ => Returned (channelHtml "UCabc");
  browseChannel := browseChannel demo;
  browseContinuation := browseContinuation demo;
  playerResponse := playerResponse demo;
  transcriptSegments := transcriptSegments demo;
  watchPage := watchPage demo
|}.

(** The example channel when every player request is answered by [body]. *)
Definition withPlayer (body : outcome json) : Upstream := {|
  channelPage := channelPage demo;
  browseChannel := browseChannel demo;
  browseContinuation := browseContinuation demo;
  playerResponse := fun _ => body;
  transcriptSegments := transcriptSegments demo;
  watchPage := watchPage demo
|}.

(** An object that cannot be converted to a text: it owns a key
    [toString]. *)
Definition unreadable : json := JObj [("toString", JNum "1")].

(** Two player bodies on which [getVideoDetails] throws by itself. *)
Definition unreadableLength : json :=
  JObj [("videoDetails", JObj [("lengthSeconds", unreadable)])].

Definition numberForThumbnails : json :=
  JObj [("videoDetails", JObj [("thumbnail", JObj [("thumbnails", JNum "5")])])].

Definition demoUrl : string := "https://www.youtube.com/@demo".
Definition demoChannel : string := "UCabcdefghijklmnopqrstuv".
Definition demoIds : list string := ["aaaaaaaaaaa"; "bbbbbbbbbbb"; "ccccccccccc"].

Definition demoRequest (limit : option json) : Request :=
  {| channelUrl := Some demoUrl; maxVideos := limit |}.

(** A record as the metadata fetcher builds it for the first video. *)
Definition demoRecord : VideoRecord := {|
  videoId := "aaaaaaaaaaa";
  title := JStr "A talk";
  description := JStr "About things";
  duration := 213;
  viewCount := 1500;
  likeCount := None;
  commentCount := None;
  releaseDate := JStr "2024-01-01";
  videoUrl := "https://www.youtube.com/watch?v=aaaaaaaaaaa";
  thumbnailUrl := JStr "https://i.ytimg.com/large.jpg";
  transcript := Some "hello world"
|}.

(** ** Notions for the further properties *)

(** A step that only appends, keeps the list free of duplicates and adds
    nothing but identifiers of [source]. *)
Definition collects (source : list string) (step : list string -> list string) : Prop :=
  forall ids,
    ids `prefix_of` step ids
    /\ (NoDup ids -> NoDup (step ids))
    /\ (forall id, id ∈ step ids -> id ∈ ids \/ id ∈ source).

(** The continuation requests [requests] follow from the pages received:
    request number [j] is the attempt [j + 1], it carries the token found in
    page [j], it was sent while the pages received so far held fewer than
    [maxVideos] distinct identifiers, and page [j + 1], if it came, is the
    answer to it. *)
Definition chained (up : Upstream) (maxVideos : nat)
    (requests : list (nat * json)) (pages : list json) : Prop :=
  forall j k token,
    requests !! j = Some (k, token) ->
    k = S j
    /\ exists page,
         pages !! j = Some page
         /\ findContinuationToken page = Some token
         /\ length (discovered (take (S j) pages)) < maxVideos
         /\ forall d, pages !! S j = Some d -> browseContinuation up k token = Returned d.

(** The text of a channel id marker as it stands in a channel page. *)
Definition markerText (key id : string) : string := quoted key +:+ ":" +:+ quoted id.

(** The identifier an entry of the [result] event is about. *)
Definition entryId (entry : videoJson) : string :=
  match entry with
  | Populated r => videoId r
  | ErrorOnly id _ => id
  end.

(** The values on which [.slice(-1)] throws: those that are neither nullish
    nor an array nor a string. *)
Definition withoutSlice (v : json) : bool :=
  match v with
  | JBool _ | JNum _ | JObj _ => true
  | JNull | JStr _ | JArr _ => false
  end.

(** ** The client of the event stream (services/mongoApi.js, lines 71 to 106) *)

(** What the server writes for one event (server/index.js, line 382), given
    the text that [JSON.stringify] made of it. *)
Definition frame (payload : string) : string :=
  "data: " +:+ payload +:+ String "010"%char (String "010"%char EmptyString).

(** [JSON.parse] in the browser: the value, or the message of the
    [SyntaxError]. *)
Record Browser : Type := {
  jsonParse : string -> outcome json
}.

(** [s.split('\n')]: the pieces between the line feeds, of which there is
    always at least one. *)
Fixpoint splitLines (s : string) : list string :=
  match s with
  | EmptyString => [EmptyString]
  | String c s' =>
      if Ascii.eqb c "010"%char then EmptyString :: splitLines s'
      else
        match splitLines s' with
        | piece :: pieces => String c piece :: pieces
        | [] => [String c EmptyString]
        end
  end.

(** [s.includes(needle)] *)
Fixpoint includes (needle s : string) : bool :=
  match stripPrefix needle s with
  | Some _ => true
  | None =>
      match s with
      | EmptyString => false
      | String _ s' => includes needle s'
      end
  end.

(** What the caller has seen so far: the arguments of the calls to
    [onProgress], and the variable [result], which starts as [null]
    and may be set to [undefined], written [None]. *)
Record Client : Type := {
  progressCalls : list json;
  result : option json
}.

Definition typeOfNullMessage : string :=
  "Cannot read properties of null (reading 'type')".

Definition typeIs (data : json) (name : string) : bool :=
  match getProp data "type" with
  | Some (JStr s) => String.eqb s name
  | _ => false
  end.

(** The message of the exception that [throw new Error(data.message)]
    raises: [String(data.message)], the empty message when [data.message]
    is [undefined], or the message of the [TypeError] of a conversion that
    throws. *)
Definition errorMessage (data : json) : string :=
  match getProp data "message" with
  | Some m =>
      match toStr m with
      | Returned text => text
      | Thrown message => message
      end
  | None => EmptyString
  end.

(** The three branches on [data.type] (lines 97 to 99).  Reading [.type]
    of [null] throws; the callback [onProgress] is taken to return. *)
Definition dispatch (data : json) (st : Client) : outcome Client :=
  match data with
  | JNull => Thrown typeOfNullMessage
  | _ =>
      if typeIs data "status" then
        Returned {| progressCalls := progressCalls st ++ [data]; result := result st |}
      else if typeIs data "error" then
        Thrown (errorMessage data)
      else if typeIs data "result" then
        Returned {| progressCalls := progressCalls st; result := getProp data "videos" |}
      else Returned st
  end.

(** [e.message && !e.message.includes('JSON')]: the exceptions that the
    [catch] of lines 100 to 102 throws again. *)
Definition rethrown (message : string) : bool :=
  negb (String.eqb message EmptyString) && negb (includes "JSON" message).

(** One turn of the [for] loop over the lines: the state after it, and the
    message of the exception that leaves the loop, if any. *)
Definition handleLine (browser : Browser) (line : string) (st : Client)
    : Client * option string :=
  match stripPrefix "data: " line with
  | None => (st, None)
  | Some payload =>
      let attempt :=
        match jsonParse browser payload with
        | Thrown message => Thrown message
        | Returned data => dispatch data st
        end in
      match attempt with
      | Returned st' => (st', None)
      | Thrown message => if rethrown message then (st, Some message) else (st, None)
      end
  end.

Fixpoint handleLines (browser : Browser) (lines : list string) (st : Client)
    : Client * option string :=
  match lines with
  | [] => (st, None)
  | line :: rest =>
      match handleLine browser line st with
      | (st', None) => handleLines browser rest st'
      | (st', Some message) => (st', Some message)
      end
  end.

(** The [while] loop over the chunks that [reader.read()] delivers, each
    already decoded to text.  After the last chunk [read] either reports
    [done] or throws, with the message [ending]. *)
Fixpoint readLoop (browser : Browser) (ending : option string) (chunks : list string)
    (buffer : string) (st : Client) : Client * option string :=
  match chunks with
  | [] => (st, ending)
  | value :: rest =>
      let pieces := splitLines (buffer +:+ value) in
      match handleLines browser (removelast pieces) st with
      | (st', None) => readLoop browser ending rest (List.last pieces EmptyString) st'
      | (st', Some message) => (st', Some message)
      end
  end.

(** The answer to the request: its [ok] flag, the chunks of its body, and
    the message of the exception that ends the reading, if one does. *)
Record StreamResponse : Type := {
  ok : bool;
  chunks : list string;
  failure : option string
}.

(** [downloadChannelData]: the calls made to [onProgress], and the value
    returned or the exception thrown. *)
Definition downloadChannelData (browser : Browser) (fetched : outcome StreamResponse)
    : list json * outcome (option json) :=
  match fetched with
  | Thrown message => ([], Thrown message)
  | Returned res =>
      if ok res then
        match readLoop browser (failure res) (chunks res) EmptyString
                {| progressCalls := []; result := Some JNull |} with
        | (st, None) => (progressCalls st, Returned (result st))
        | (st, Some message) => (progressCalls st, Thrown message)
        end
      else ([], Thrown "Failed to start download")
  end.

(** The text of a stream: its chunks put end to end. *)
Definition streamText (chunks : list string) : string :=
  foldr String.append EmptyString chunks.

Definition noLineFeed (c : ascii) : bool := negb (Ascii.eqb c "010"%char).

(** ** The events as the client reads them *)

(** What [JSON.parse] makes of what [JSON.stringify] wrote for a number:
    [NaN] is written [null].  An integer is given by its decimal text (see
    [printInt]). *)
Definition countJson (n : option jsnum) : json :=
  match n with
  | Some (Num z) => JNum (printInt z)
  | Some NaN | None => JNull
  end.

(** The record literal of lines 338 to 350, key by key. *)
Definition recordJson (r : VideoRecord) : json :=
  JObj [("videoId", JStr (videoId r));
        ("title", title r);
        ("description", description r);
        ("duration", JNum (printInt (duration r)));
        ("viewCount", JNum (printInt (viewCount r)));
        ("likeCount", countJson (likeCount r));
        ("commentCount", countJson (commentCount r));
        ("releaseDate", releaseDate r);
        ("videoUrl", JStr (videoUrl r));
        ("thumbnailUrl", thumbnailUrl r);
        ("transcript", from_option JStr JNull (transcript r))].

Definition entryJson (entry : videoJson) : json :=
  match entry with
  | Populated r => recordJson r
  | ErrorOnly id error => JObj [("videoId", JStr id); ("error", JStr error)]
  end.

(** The argument of [send] for each kind of event (lines 384 to 420). *)
Definition eventJson (e : event) : json :=
  match e with
  | Status message progress =>
      JObj [("type", JStr "status"); ("message", JStr message);
            ("progress", JNum (printInt progress))]
  | Error message => JObj [("type", JStr "error"); ("message", JStr message)]
  | Result entries =>
      JObj [("type", JStr "result"); ("videos", JArr (map entryJson entries))]
  end.

(** What the client makes of the last event of a stream. *)
Definition delivered (terminal : event) : outcome (option json) :=
  match terminal with
  | Result entries => Returned (Some (JArr (map entryJson entries)))
  | Error message =>
      if rethrown message then Thrown message else Returned (Some JNull)
  | Status _ _ => Returned (Some JNull)
  end.

(** ** The limit chosen in the form (components/YouTubeDownload.js, line 101) *)

(** [Math.min(100, Math.max(1, parseInt(e.target.value) || 1))].  The
    integers of [parseInt] are exact here; a double that large is above 100
    as well, so the clamped value is the same. *)
Definition formLimit (value : string) : Z :=
  let wanted :=
    match parseInt value with
    | NaN => 1%Z
    | Num z => if (z =? 0)%Z then 1%Z else z
    end in
  Z.min 100 (Z.max 1 wanted).

(** The body that [downloadChannelData] posts (services/mongoApi.js, line
    75), as [express.json] hands it to the route: the number [limit] arrives
    as a number. *)
Definition downloadRequest (url : string) (limit : Z) : Request :=
  {| channelUrl := Some url; maxVideos := Some (JNum (printInt limit)) |}.

(** ** What the form shows after a download
       (components/YouTubeDownload.js, lines 14 to 34) *)

Module YouTubeDownload.

(** The state of the component that [handleDownload] sets, but for the
    flag [downloading], which is false again at the end; a value that may be
    [undefined] is an [option]. *)
Record Form : Type := {
  progress : option json;
  statusMsg : option json;
  result : option json;
  error : string
}.

(** The state after the five setters of lines 16 to 20. *)
Definition started : Form :=
  {| progress := Some (JNum "0"); statusMsg := Some (JStr "Starting...");
     result := Some JNull; error := EmptyString |}.

(** The callback passed as [onProgress] (lines 23 to 26) *)
Definition onProgress (form : Form) (data : json) : Form :=
  {| progress := getProp data "progress"; statusMsg := getProp data "message";
     result := result form; error := error form |}.

Definition nullLengthMessage : string :=
  "Cannot read properties of null (reading 'length')".

Definition undefinedLengthMessage : string :=
  "Cannot read properties of undefined (reading 'length')".

(** The text of [videos.length] in the template of line 28 *)
Definition lengthText (videos : option json) : outcome string :=
  match videos with
  | None => Thrown undefinedLengthMessage
  | Some JNull => Thrown nullLengthMessage
  | Some (JArr items) => Returned (decimal (length items))
  | Some (JStr s) => Returned (decimal (String.length s))
  | Some (JObj fields) =>
      match assoc "length" fields with
      | Some x => toStr x
      | None => Returned "undefined"
      end
  | Some (JBool _) | Some (JNum _) => Returned "undefined"
  end.

(** [err.message || 'Download failed'] *)
Definition shownError (message : string) : string :=
  if String.eqb message EmptyString then "Download failed" else message.

(** The state in which [handleDownload] leaves the form once the guard of
    line 15 has let it start, given what [downloadChannelData] did: the
    calls it made to [onProgress], and the value it returned or the
    exception it threw. *)
Definition handleDownload (ran : list json * outcome (option json)) : Form :=
  let form := fold_left onProgress ran.1 started in
  match ran.2 with
  | Thrown message =>
      {| progress := progress form; statusMsg := statusMsg form;
         result := result form; error := shownError message |}
  | Returned videos =>
      match lengthText videos with
      | Returned n =>
          {| progress := progress form;
             statusMsg := Some (JStr ("Downloaded " +:+ n +:+ " videos!"));
             result := videos; error := error form |}
      | Thrown message =>
          {| progress := progress form; statusMsg := statusMsg form;
             result := videos; error := shownError message |}
      end
  end.

End YouTubeDownload.

(** ** Messages of a session (server/index.js, lines 159 to 214) *)

(** The fields of the body of [POST /api/messages] that the route reads,
    each of them possibly [undefined]. *)
Record MessageBody : Type := {
  session_id : option json;
  role : option json;
  content : option json;
  imageData : option json;
  charts : option json;
  toolCalls : option json
}.

(** [Array.isArray(x) ? x : [x]] *)
Definition imageArray (x : json) : list json :=
  match x with
  | JArr items => items
  | _ => [x]
  end.

(** Whether [v?.length] is truthy: an array or a string that is not empty,
    or an object with a truthy [length] of its own. *)
Definition hasLength (v : option json) : bool :=
  match v with
  | Some (JArr items) => negb (Nat.eqb (length items) 0)
  | Some (JStr s) => negb (String.eqb s EmptyString)
  | Some (JObj fields) => truthyOpt (assoc "length" fields)
  | _ => false
  end.

(** A property of an object literal as it is stored or serialised: a
    property whose value is [undefined] leaves no trace. *)
Definition field (key : string) (v : option json) : list (string * json) :=
  match v with
  | Some x => [(key, x)]
  | None => []
  end.

(** The document [msg] that [POST /api/messages] pushes onto the
    [messages] of the session (lines 164 to 173), or [None] when the request
    is refused with status 400.  [now] stands for [new Date().toISOString()]. *)
Definition messageOf (now : string) (body : MessageBody) : option json :=
  if negb (truthyOpt (session_id body)) || negb (truthyOpt (role body))
     || negb (bool_decide (is_Some (content body)))
  then None
  else
    Some (JObj (field "role" (role body)
                ++ field "content" (content body)
                ++ [("timestamp", JStr now)]
                ++ (if truthyOpt (imageData body)
                    then [("imageData",
                           JArr (from_option imageArray [] (imageData body)))]
                    else [])
                ++ (if hasLength (charts body) then field "charts" (charts body) else [])
                ++ (if hasLength (toolCalls body)
                    then field "toolCalls" (toolCalls body) else []))).

Definition nullImageMessage : string :=
  "Cannot read properties of null (reading 'data')".

Definition nullMessageMessage : string :=
  "Cannot read properties of null (reading 'imageData')".

Definition notAnArrayMessage : string := "raw.map is not a function".

Definition isNull (v : json) : bool :=
  match v with JNull => true | _ => false end.

(** [{ data: img.data, mimeType: img.mimeType }] as [res.json] writes it *)
Definition imageFields (img : json) : json :=
  JObj (field "data" (getProp img "data") ++ field "mimeType" (getProp img "mimeType")).

Definition pickImage (img : json) : outcome json :=
  match img with
  | JNull => Thrown nullImageMessage
  | _ => Returned (imageFields img)
  end.

(** [arr.map(f)] for a callback that can throw *)
Fixpoint mapOutcome {A B : Type} (f : A -> outcome B) (l : list A) : outcome (list B) :=
  match l with
  | [] => Returned []
  | x :: rest =>
      match f x with
      | Thrown message => Thrown message
      | Returned y =>
          match mapOutcome f rest with
          | Thrown message => Thrown message
          | Returned ys => Returned (y :: ys)
          end
      end
  end.

(** The images of a stored message (lines 193 to 197) *)
Definition storedImages (m : json) : list json :=
  match getProp m "imageData" with
  | Some x => if truthy x then imageArray x else []
  | None => []
  end.

(** The callback of [raw.map] (lines 192 to 209) for the message [m] at
    index [i] of the session [docId], as [res.json] writes its result. *)
Definition messageView (docId : string) (i : nat) (m : json) : outcome json :=
  match m with
  | JNull => Thrown nullMessageMessage
  | _ =>
      let arr := storedImages m in
      match mapOutcome pickImage arr with
      | Thrown message => Thrown message
      | Returned images =>
          Returned
            (JObj ([("id", JStr (docId +:+ "-" +:+ decimal i))]
                   ++ field "role" (getProp m "role")
                   ++ field "content" (getProp m "content")
                   ++ field "timestamp" (getProp m "timestamp")
                   ++ (match arr with [] => [] | _ => [("images", JArr images)] end)
                   ++ (if hasLength (getProp m "charts")
                       then field "charts" (getProp m "charts") else [])
                   ++ (if hasLength (getProp m "toolCalls")
                       then field "toolCalls" (getProp m "toolCalls") else [])))
      end
  end.

Fixpoint viewFrom (docId : string) (i : nat) (items : list json) : outcome (list json) :=
  match items with
  | [] => Returned []
  | m :: rest =>
      match messageView docId i m with
      | Thrown message => Thrown message
      | Returned view =>
          match viewFrom docId (S i) rest with
          | Thrown message => Thrown message
          | Returned views => Returned (view :: views)
          end
      end
  end.

(** A document of the collection [sessions], as far as the route reads it. *)
Record SessionDoc : Type := {
  docId : string;
  messages : option json
}.

(** What [GET /api/messages] makes of the document that [findOne] returned
    (lines 191 to 210): the array sent, or the message of the exception,
    which the route answers with status 500. *)
Definition messagesOf (doc : option SessionDoc) : outcome (list json) :=
  match doc with
  | None => Returned []
  | Some d =>
      match messages d with
      | None => Returned []
      | Some raw =>
          if truthy raw then
            match raw with
            | JArr items => viewFrom (docId d) 0 items
            | _ => Thrown notAnArrayMessage
            end
          else Returned []
      end
  end.

(** The images that a request carries: none when [imageData] is falsy, the
    items of an array, or the single value given. *)
Definition postedImages (body : MessageBody) : list json :=
  match imageData body with
  | Some x => if truthy x then imageArray x else []
  | None => []
  end.

(** The entry that the route is to send for the message posted with [body]
    at the instant [now], when it is the message number [i] of the session
    [id]. *)
Definition postedView (id : string) (i : nat) (now : string) (body : MessageBody) : json :=
  JObj ([("id", JStr (id +:+ "-" +:+ decimal i))]
        ++ field "role" (role body)
        ++ field "content" (content body)
        ++ [("timestamp", JStr now)]
        ++ (match postedImages body with
            | [] => []
            | images => [("images", JArr (map imageFields images))]
            end)
        ++ field "charts" (if hasLength (charts body) then charts body else None)
        ++ field "toolCalls" (if hasLength (toolCalls body) then toolCalls body else None)).

(** ** Field names of the loaded data (services/jsonTools.js, lines 83 to 90) *)

(** [resolveField(videos, name)] for an array of objects, each given by its
    properties in the order of [Object.keys].  [norm] is the function of
    line 87, which puts a name in lower case and drops its underscores,
    hyphens and white space; nothing is assumed about it. *)
Definition resolveField (norm : string -> string)
    (videos : list (list (string * json))) (name : string) : string :=
  match videos with
  | [] => name
  | first :: _ =>
      if String.eqb name EmptyString then name
      else
        let keys := map fst first in
        if existsb (String.eqb name) keys then name
        else
          let target := norm name in
          match List.find (fun k => String.eqb (norm k) target) keys with
          | Some k => if String.eqb k EmptyString then name else k
          | None => name
          end
  end.

(** ** The duration shown for a video (components/VideoCard.js, lines 4 to 6;
       components/YouTubeDownload.js, line 154) *)

(** [Math.floor(x)] for a double [x] that is not negative, and
    [Math.floor(-x)] when [negative] is set. *)
Definition floorOf (negative : bool) (x : double) : Z :=
  let n := (mantissa x * 2 ^ Z.max 0 (exponent x))%Z in
  let d := (2 ^ Z.max 0 (- exponent x))%Z in
  if negative then (- n / d)%Z else (n / d)%Z.

(** [Math.floor(duration / 60)] for an integer [duration] *)
Definition minutesOf (duration : Z) : Z :=
  floorOf (duration <? 0)%Z (divide (Z.abs duration) 60).

(** [duration % 60]: the remainder has the sign of [duration]. *)
Definition secondsOf (duration : Z) : Z := Z.rem duration 60.

(** [s.padStart(2, '0')] *)
Definition padStart2 (s : string) : string :=
  match String.length s with
  | 0 => "00"
  | 1 => "0" +:+ s
  | _ => s
  end.

(** The label of the card: empty for a duration of 0, which is falsy. *)
Definition durationLabel (duration : Z) : string :=
  if (duration =? 0)%Z then EmptyString
  else printInt (minutesOf duration) +:+ ":" +:+ padStart2 (printInt (secondsOf duration)).

(** The duration in the list of downloaded videos, where an absent duration
    counts as 0. *)
Definition listedDuration (duration : option Z) : string :=
  let d := default 0%Z duration in
  printInt (minutesOf d) +:+ "m " +:+ printInt (secondsOf d) +:+ "s".

(** ** Example streams, messages and field names *)

(** A browser that reads back the texts of a table and takes any other
    text for malformed. *)
Definition tableBrowser (table : list (string * json)) : Browser :=
  {| jsonParse := fun text =>
       match assoc text table with
       | Some data => Returned data
       | None => Thrown "Unexpected token in JSON"
       end |}.

(** The text of a [status] or [error] event whose message needs no
    escaping; the videos of a [result] event are left out. *)
Definition demoStringify (e : event) : string :=
  match e with
  | Status message progress =>
      "{" +:+ quoted "type" +:+ ":" +:+ quoted "status" +:+ ","
      +:+ quoted "message" +:+ ":" +:+ quoted message +:+ ","
      +:+ quoted "progress" +:+ ":" +:+ printInt progress +:+ "}"
  | Error message =>
      "{" +:+ quoted "type" +:+ ":" +:+ quoted "error" +:+ ","
      +:+ quoted "message" +:+ ":" +:+ quoted message +:+ "}"
  | Result _ =>
      "{" +:+ quoted "type" +:+ ":" +:+ quoted "result" +:+ ","
      +:+ quoted "videos" +:+ ":[]}"
  end.

(** The events of the run on the stalled channel, and their stream cut in
    the middle of the first frame. *)
Definition stalledEvents : list event :=
  [Status "Resolving channel..." 0; Status "Fetching video list..." 5;
   Error "socket hang up"].

Definition stalledBrowser : Browser :=
  tableBrowser (map (fun e => (demoStringify e, eventJson e)) stalledEvents).

Definition stalledText : string :=
  streamText (map (fun e => frame (demoStringify e)) stalledEvents).

Definition stalledChunks : list string :=
  [substring 0 30 stalledText;
   substring 30 (String.length stalledText - 30) stalledText].

Definition demoNow : string := "2024-01-01T00:00:00.000Z".

(** A message with one image, given as an object, and no chart. *)
Definition demoBody : MessageBody := {|
  session_id := Some (JStr "65f0c0ffee0123456789abcd");
  role := Some (JStr "user");
  content := Some (JStr "What is on this picture?");
  imageData := Some (JObj [("data", JStr "iVBORw0KGgo="); ("mimeType", JStr "image/png");
                           ("name", JStr "picture.png")]);
  charts := Some (JArr []);
  toolCalls := None
|}.

(** The same message with [null] in the place of the image. *)
Definition nullImageBody : MessageBody := {|
  session_id := session_id demoBody;
  role := role demoBody;
  content := content demoBody;
  imageData := Some (JArr [JNull]);
  charts := charts demoBody;
  toolCalls := toolCalls demoBody
|}.

(** Lower case and removal of underscores, hyphens and blanks, for names
    written in ASCII. *)
Fixpoint asciiNorm (s : string) : string :=
  match s with
  | EmptyString => EmptyString
  | String c s' =>
      let n := nat_of_ascii c in
      if (n =? 95) || (n =? 45) || isWhiteSpace c then asciiNorm s'
      else if (65 <=? n) && (n <=? 90) then String (ascii_of_nat (n + 32)) (asciiNorm s')
      else String c (asciiNorm s')
  end.

Definition demoVideo : list (string * json) :=
  [("videoId", JStr "aaaaaaaaaaa"); ("title", JStr "A talk"); ("viewCount", JNum "1500")].

(** ** Induction on documents *)

Section JsonInduction.
Variable P : json -> Prop.
Hypothesis Hnull : P JNull.
Hypothesis Hbool : forall b, P (JBool b).
Hypothesis Hnum : forall text, P (JNum text).
Hypothesis Hstr : forall s, P (JStr s).
Hypothesis Harr : forall items, Forall P items -> P (JArr items).
Hypothesis Hobj : forall fields, Forall (fun kv => P (snd kv)) fields -> P (JObj fields).

Fixpoint json_induction (v : json) : P v :=
  match v with
  | JNull => Hnull
  | JBool b => Hbool b
  | JNum text => Hnum text
  | JStr s => Hstr s
  | JArr items =>
      Harr items
        ((fix all (l : list json) : Forall P l :=
            match l with
            | [] => @List.Forall_nil _ P
            | x :: l' => @List.Forall_cons _ P x l' (json_induction x) (all l')
            end) items)
  | JObj fields =>
      Hobj fields
        ((fix all (l : list (string * json)) : Forall (fun kv => P (snd kv)) l :=
            match l with
            | [] => @List.Forall_nil _ _
            | kv :: l' => @List.Forall_cons _ _ kv l' (json_induction (snd kv)) (all l')
            end) fields)
  end.
End JsonInduction.

(** * Properties *)

(** ** The continuation locator *)

Lemma findContinuationToken_obj fields :
  findContinuationToken (JObj fields) =
  match ownToken (JObj fields) with
  | Some token => Some token
  | None => firstFound (fun kv => visitToken (snd kv)) fields
  end.
Proof. reflexivity. Qed.

Lemma findContinuationToken_arr items :
  findContinuationToken (JArr items) = firstFound visitToken items.
Proof. reflexivity. Qed.

Lemma firstFound_ext {A B} (f g : A -> option B) l :
  Forall (fun x => f x = g x) l -> firstFound f l = firstFound g l.
Proof.
  induction 1 as [|x l Hx _ IH]; simpl; [done|].
  rewrite Hx, IH. done.
Qed.

(** The first match in a concatenation of sub-traversals is found by trying
    the sub-traversals in turn. *)
Lemma head_omap_flat_map {A B C} (f : B -> option C) (g : A -> list B) l :
  head (omap f (flat_map g l)) = firstFound (fun x => head (omap f (g x))) l.
Proof.
  induction l as [|x l IH]; simpl; [done|].
  rewrite omap_app.
  destruct (omap f (g x)) as [|y ys]; simpl; [apply IH | done].
Qed.

Lemma ownToken_not_object v :
  (forall fields, v <> JObj fields) -> ownToken v = None.
Proof. destruct v; intros H; try reflexivity. by destruct (H fields). Qed.

(** A node matches when its [continuationCommand] holds a truthy [token],
    or else when it holds a truthy [token] next to a truthy
    [continuationEndpoint]; the token returned is the one of the test that
    succeeded. *)
Lemma ownToken_Some obj token :
  ownToken obj = Some token <->
  (getPropOpt (getProp obj "continuationCommand") "token" = Some token
   /\ truthy token = true)
  \/ (truthyOpt (getPropOpt (getProp obj "continuationCommand") "token") = false
      /\ getProp obj "token" = Some token /\ truthy token = true
      /\ truthyOpt (getProp obj "continuationEndpoint") = true).
Proof.
  unfold ownToken.
  destruct (getPropOpt (getProp obj "continuationCommand") "token") as [c|] eqn:Hc;
    simpl.
  - destruct (truthy c) eqn:Htc.
    + split; [intros [= <-]; by left | intros [[[= <-] _]|[? _]]; done].
    + destruct (getProp obj "token") as [t|]; simpl;
        [destruct (truthy t) eqn:Ht; simpl|].
      * destruct (truthyOpt (getProp obj "continuationEndpoint")).
        -- split; [intros [= <-]; right; done|].
           intros [[[= <-] ?]|(_ & [= <-] & _)]; [congruence | done].
        -- split; [done | intros [[[= <-] ?]|(_ & _ & _ & ?)]; congruence].
      * split; [done | intros [[[= <-] ?]|(_ & [= <-] & ? & _)]; congruence].
      * split; [done | intros [[[= <-] ?]|(_ & ? & _)]; congruence].
  - destruct (getProp obj "token") as [t|]; simpl;
      [destruct (truthy t) eqn:Ht; simpl|].
    + destruct (truthyOpt (getProp obj "continuationEndpoint")).
      * split; [intros [= <-]; right; done|].
        intros [[? _]|(_ & [= <-] & _)]; done.
      * split; [done | intros [[? _]|(_ & _ & _ & ?)]; done].
    + split; [done | intros [[? _]|(_ & [= <-] & ? & _)]; congruence].
    + split; [done | intros [[? _]|(_ & ? & _)]; done].
Qed.

Lemma locator_first_match_both v :
  findContinuationToken v = head (omap ownToken (preorder v))
  /\ visitToken v = head (omap ownToken (preorder v)).
Proof.
  induction v as [| | | |items IH|fields IH] using json_induction.
  1-4: by split.
  - assert (Hfind : firstFound findContinuationToken items
                    = head (omap ownToken (flat_map preorder items))).
    { rewrite head_omap_flat_map. apply firstFound_ext.
      eapply Forall_impl; [exact IH|]. by intros x [-> _]. }
    assert (Hvisit : firstFound visitToken items
                     = head (omap ownToken (flat_map preorder items))).
    { rewrite head_omap_flat_map. apply firstFound_ext.
      eapply Forall_impl; [exact IH|]. by intros x [_ ->]. }
    split; simpl preorder; cbn [omap list_omap]; simpl ownToken.
    + by rewrite findContinuationToken_arr.
    + exact Hfind.
  - assert (Hgo : findContinuationToken (JObj fields)
                  = head (omap ownToken (preorder (JObj fields)))).
    { rewrite findContinuationToken_obj. simpl preorder. cbn [omap list_omap].
      destruct (ownToken (JObj fields)) as [token|]; [done|].
      rewrite head_omap_flat_map. apply firstFound_ext.
      eapply Forall_impl; [exact IH|]. by intros x [_ ->]. }
    split; [exact Hgo | exact Hgo].
Qed.

Lemma head_omap_None {A B} (f : A -> option B) l :
  head (omap f l) = None <-> forall x, x ∈ l -> f x = None.
Proof.
  induction l as [|x l IH]; cbn [omap list_omap].
  - split; [|done]. by intros _ x Hx%elem_of_nil.
  - destruct (f x) as [y|] eqn:Hfx; simpl.
    + split; [done|]. intros Hall. specialize (Hall x). rewrite Hfx in Hall.
      apply Hall. by left.
    + rewrite IH. split.
      * intros Hall z [->|Hz]%elem_of_cons; [done | by apply Hall].
      * intros Hall z Hz. apply Hall. by right.
Qed.

Lemma head_omap_Some {A B} (f : A -> option B) l y :
  head (omap f l) = Some y <->
  exists before x after,
    l = before ++ x :: after /\ (forall z, z ∈ before -> f z = None) /\ f x = Some y.
Proof.
  induction l as [|x l IH]; cbn [omap list_omap].
  - split; [done|]. intros (before & z & after & Heq & _). by destruct before.
  - destruct (f x) as [w|] eqn:Hfx; simpl.
    + split.
      * intros [= ->]. exists [], x, l. split_and!; [done | | done].
        by intros z Hz%elem_of_nil.
      * intros ([|b before] & z & after & Heq & Hnone & Hz); simplify_eq/=.
        -- congruence.
        -- specialize (Hnone b). rewrite Hfx in Hnone. discriminate Hnone. by left.
    + rewrite IH. split.
      * intros (before & z & after & -> & Hnone & Hz).
        exists (x :: before), z, after. split_and!; [done | | done].
        intros u [->|Hu]%elem_of_cons; [done | by apply Hnone].
      * intros ([|b before] & z & after & Heq & Hnone & Hz); simplify_eq/=.
        exists before, z, after. split_and!; [done | | done].
        intros u Hu. apply Hnone. by right.
Qed.

(** C6.  For every document, the continuation locator returns the token of
    the first node, in depth-first left-to-right order, that matches (its
    [continuationCommand] carries a truthy token, or else it carries a
    truthy token next to a truthy [continuationEndpoint]; see
    [ownToken_Some]).  So it returns [null] exactly when no node of the
    document matches, and it returns a token exactly when some node matches
    with that token and no node before it in the traversal matches. *)
Theorem findContinuationToken_first_match (doc : json) :
  findContinuationToken doc = head (omap ownToken (preorder doc))
  /\ (findContinuationToken doc = None <->
      forall node, node ∈ preorder doc -> ownToken node = None)
  /\ (forall token,
        findContinuationToken doc = Some token <->
        exists before node after,
          preorder doc = before ++ node :: after
          /\ (forall earlier, earlier ∈ before -> ownToken earlier = None)
          /\ ownToken node = Some token).
Proof.
  assert (Hfirst : findContinuationToken doc = head (omap ownToken (preorder doc))).
  { apply locator_first_match_both. }
  split; [exact Hfirst|]. rewrite Hfirst. split.
  - apply head_omap_None.
  - intros token. apply head_omap_Some.
Qed.

(** With a token under each of two branches, the branch listed first wins,
    whichever of the two forms of match it holds. *)
Example locator_two_branches :
  let header := JObj [("continuationCommand", JObj [("token", JStr "H")])] in
  let body := JArr [JObj [("token", JStr "B"); ("continuationEndpoint", JObj [])]] in
  findContinuationToken (JObj [("header", header); ("body", body)]) = Some (JStr "H")
  /\ findContinuationToken (JObj [("body", body); ("header", header)]) = Some (JStr "B").
Proof. split; reflexivity. Qed.

(** ** The video ID extractor *)

Lemma extractVideoIds_obj maxVideos fields ids :
  extractVideoIds maxVideos (JObj fields) ids =
  forValues maxVideos (fun kv => visitIds maxVideos (snd kv)) fields
            (pushOwn (JObj fields) ids).
Proof. reflexivity. Qed.

Lemma extractVideoIds_arr maxVideos items ids :
  extractVideoIds maxVideos (JArr items) ids =
  forValues maxVideos (visitIds maxVideos) items ids.
Proof. reflexivity. Qed.

Lemma omap_flat_map {A B C} (f : B -> option C) (g : A -> list B) l :
  omap f (flat_map g l) = flat_map (fun x => omap f (g x)) l.
Proof.
  induction l as [|x l IH]; simpl; [done|]. by rewrite omap_app, IH.
Qed.

Lemma idsOf_arr items : idsOf (JArr items) = flat_map idsOf items.
Proof. unfold idsOf. simpl. apply omap_flat_map. Qed.

Lemma idsOf_obj fields :
  idsOf (JObj fields) =
  option_list (ownVideoId (JObj fields)) ++ flat_map (fun kv => idsOf (snd kv)) fields.
Proof.
  unfold idsOf. simpl preorder. cbn [omap list_omap].
  rewrite omap_flat_map. by destruct (ownVideoId (JObj fields)).
Qed.

Lemma idsOf_scalar v :
  (forall items, v <> JArr items) -> (forall fields, v <> JObj fields) -> idsOf v = [].
Proof. destruct v; intros Ha Ho; try reflexivity; [by destruct (Ha items) | by destruct (Ho fields)]. Qed.

(** *** Pushing only ever appends *)

Lemma pushNew_prefix id ids : ids `prefix_of` pushNew id ids.
Proof. unfold pushNew. case_decide; [done | by apply prefix_app_r]. Qed.

Lemma pushAll_app a b ids : pushAll (a ++ b) ids = pushAll b (pushAll a ids).
Proof. apply foldl_app. Qed.

Lemma pushAll_prefix l ids : ids `prefix_of` pushAll l ids.
Proof.
  revert ids. induction l as [|x l IH]; intros ids; simpl; [done|].
  etrans; [apply (pushNew_prefix x) | apply IH].
Qed.

Lemma pushOwn_pushAll v ids :
  pushOwn v ids = pushAll (option_list (ownVideoId v)) ids.
Proof. unfold pushOwn. by destruct (ownVideoId v). Qed.

Lemma forValues_prefix {A} maxVideos (body : A -> list string -> list string) l :
  Forall (fun x => forall ids, ids `prefix_of` body x ids) l ->
  forall ids, ids `prefix_of` forValues maxVideos body l ids.
Proof.
  induction 1 as [|x l Hx _ IH]; intros ids; simpl; [done|].
  destruct (maxVideos <=? length ids); [done|]. etrans; [apply Hx | apply IH].
Qed.

Lemma forEach_prefix {A} (body : A -> list string -> list string) l :
  Forall (fun x => forall ids, ids `prefix_of` body x ids) l ->
  forall ids, ids `prefix_of` forEach body l ids.
Proof.
  induction 1 as [|x l Hx _ IH]; intros ids; simpl; [done|].
  etrans; [apply Hx | apply IH].
Qed.

Lemma extract_prefix_both maxVideos v :
  (forall ids, ids `prefix_of` extractVideoIds maxVideos v ids)
  /\ (forall ids, ids `prefix_of` visitIds maxVideos v ids).
Proof.
  induction v as [| | | |items IH|fields IH] using json_induction.
  1-4: by split.
  - split; intros ids.
    + rewrite extractVideoIds_arr. apply forValues_prefix.
      eapply Forall_impl; [exact IH|]. by intros x [_ ?].
    + simpl. apply forEach_prefix.
      eapply Forall_impl; [exact IH|]. by intros x [? _].
  - assert (forall ids, ids `prefix_of` extractVideoIds maxVideos (JObj fields) ids).
    { intros ids. rewrite extractVideoIds_obj.
      etrans; [|apply forValues_prefix].
      - rewrite pushOwn_pushAll. apply pushAll_prefix.
      - eapply Forall_impl; [exact IH|]. by intros x [_ ?]. }
    by split.
Qed.

Lemma extractVideoIds_prefix maxVideos v ids :
  ids `prefix_of` extractVideoIds maxVideos v ids.
Proof. apply extract_prefix_both. Qed.

(** *** The early exit does not change the first [maxVideos] identifiers *)

Lemma agree_refl maxVideos e : agree maxVideos e e.
Proof. by left. Qed.

Lemma agree_take maxVideos e f :
  agree maxVideos e f -> take maxVideos e = take maxVideos f.
Proof. intros [->|(_ & _ & ?)]; done. Qed.

Lemma agree_short maxVideos e f :
  agree maxVideos e f -> length e < maxVideos -> e = f.
Proof. intros [->|(? & _)] ?; [done | lia]. Qed.

Lemma take_prefix_full (n : nat) (a b : list string) :
  a `prefix_of` b -> n <= length a -> take n b = take n a.
Proof. intros [k ->] ?. by rewrite take_app_le. Qed.

Lemma agree_extend maxVideos e f e' f' :
  agree maxVideos e f -> maxVideos <= length e ->
  e `prefix_of` e' -> f `prefix_of` f' -> agree maxVideos e' f'.
Proof.
  intros Hag Hlen He Hf. right.
  assert (maxVideos <= length f).
  { destruct Hag as [<-|(_ & ? & _)]; done. }
  pose proof (prefix_length _ _ He). pose proof (prefix_length _ _ Hf).
  repeat split; [lia | lia |].
  rewrite (take_prefix_full _ _ _ He), (take_prefix_full _ _ _ Hf) by done.
  by apply agree_take.
Qed.

Lemma agree_step maxVideos (stepE stepF : list string -> list string) e f :
  agree maxVideos e f ->
  (forall ids, agree maxVideos (stepE ids) (stepF ids)) ->
  (forall ids, ids `prefix_of` stepE ids) ->
  (forall ids, ids `prefix_of` stepF ids) ->
  agree maxVideos (stepE e) (stepF f).
Proof.
  intros Hag Hstep HE HF.
  destruct (decide (maxVideos <= length e)) as [Hlen|Hlen].
  - eapply agree_extend; eauto.
  - rewrite <- (agree_short _ _ _ Hag) by lia. apply Hstep.
Qed.

Lemma forValues_agree {A} maxVideos (body : A -> list string -> list string)
    (g : A -> list string) l :
  Forall (fun x => (forall ids, agree maxVideos (body x ids) (pushAll (g x) ids))
                   /\ (forall ids, ids `prefix_of` body x ids)) l ->
  forall e f, agree maxVideos e f ->
    agree maxVideos (forValues maxVideos body l e) (pushAll (flat_map g l) f).
Proof.
  induction 1 as [|x l [Hx Hpre] _ IH]; intros e f Hag; simpl; [done|].
  destruct (maxVideos <=? length e) eqn:Hlen.
  - apply Nat.leb_le in Hlen.
    eapply agree_extend; [exact Hag | done | done | apply pushAll_prefix].
  - rewrite pushAll_app. apply IH.
    apply agree_step; [done | done | done | intros; apply pushAll_prefix].
Qed.

Lemma forEach_agree {A} maxVideos (body : A -> list string -> list string)
    (g : A -> list string) l :
  Forall (fun x => (forall ids, agree maxVideos (body x ids) (pushAll (g x) ids))
                   /\ (forall ids, ids `prefix_of` body x ids)) l ->
  forall e f, agree maxVideos e f ->
    agree maxVideos (forEach body l e) (pushAll (flat_map g l) f).
Proof.
  induction 1 as [|x l [Hx Hpre] _ IH]; intros e f Hag; simpl; [done|].
  rewrite pushAll_app. apply IH.
  apply agree_step; [done | done | done | intros; apply pushAll_prefix].
Qed.

Lemma extract_agree_both maxVideos v :
  (forall ids, agree maxVideos (extractVideoIds maxVideos v ids) (pushAll (idsOf v) ids))
  /\ (forall ids, agree maxVideos (visitIds maxVideos v ids) (pushAll (idsOf v) ids)).
Proof.
  induction v as [| | | |items IH|fields IH] using json_induction.
  1-4: split; intros ids; apply agree_refl.
  - split; intros ids; rewrite idsOf_arr.
    + rewrite extractVideoIds_arr. apply forValues_agree; [|apply agree_refl].
      eapply Forall_impl; [exact IH|]. intros x [_ ?]. split; [done|].
      apply extract_prefix_both.
    + simpl. apply forEach_agree; [|apply agree_refl].
      eapply Forall_impl; [exact IH|]. intros x [? _]. split; [done|].
      apply extract_prefix_both.
  - assert (forall ids, agree maxVideos (extractVideoIds maxVideos (JObj fields) ids)
                          (pushAll (idsOf (JObj fields)) ids)).
    { intros ids. rewrite extractVideoIds_obj, idsOf_obj, pushAll_app, pushOwn_pushAll.
      apply forValues_agree; [|apply agree_refl].
      eapply Forall_impl; [exact IH|]. intros x [_ ?]. split; [done|].
      apply extract_prefix_both. }
    by split.
Qed.

Lemma extractVideoIds_agree maxVideos v e f :
  agree maxVideos e f ->
  agree maxVideos (extractVideoIds maxVideos v e) (pushAll (idsOf v) f).
Proof.
  intros Hag. apply (agree_step _ (extractVideoIds maxVideos v) (pushAll (idsOf v)));
    [done | apply extract_agree_both | apply extractVideoIds_prefix
    | intros; apply pushAll_prefix].
Qed.

(** *** What the accumulator holds *)

Lemma pushNew_NoDup id ids : NoDup ids -> NoDup (pushNew id ids).
Proof.
  intros Hnd. unfold pushNew. case_decide; [done|].
  apply NoDup_app. split_and!; [done | | apply NoDup_singleton].
  intros x Hx ->%list_elem_of_singleton. done.
Qed.

Lemma pushAll_NoDup l ids : NoDup ids -> NoDup (pushAll l ids).
Proof.
  revert ids. induction l as [|x l IH]; intros ids Hnd; simpl; [done|].
  apply IH, pushNew_NoDup, Hnd.
Qed.

Lemma pushAll_elem l ids x : x ∈ pushAll l ids <-> x ∈ ids \/ x ∈ l.
Proof.
  revert ids. induction l as [|y l IH]; intros ids; simpl.
  - rewrite elem_of_nil. tauto.
  - rewrite IH, elem_of_cons. unfold pushNew. case_decide.
    + split; [tauto|]. intros [?|[->|?]]; tauto.
    + rewrite elem_of_app, list_elem_of_singleton. tauto.
Qed.

(** [pushAll] from the empty list keeps the first occurrence of each
    identifier: reading one more identifier appends it unless it was met. *)
Lemma pushAll_snoc l id :
  pushAll (l ++ [id]) [] = if decide (id ∈ l) then pushAll l [] else pushAll l [] ++ [id].
Proof.
  rewrite pushAll_app. simpl. unfold pushNew.
  destruct (decide (id ∈ pushAll l [])) as [Hin|Hout];
    rewrite pushAll_elem, elem_of_nil in *.
  - rewrite decide_True; [done | tauto].
  - rewrite decide_False; [done | tauto].
Qed.

Lemma ownVideoId_length v id : ownVideoId v = Some id -> String.length id = 11.
Proof.
  unfold ownVideoId. destruct (getProp v "videoId") as [[]|]; try done.
  destruct (String.length s =? 11) eqn:H; [|done].
  intros [= <-]. by apply Nat.eqb_eq.
Qed.

Lemma idsOf_length v id : id ∈ idsOf v -> String.length id = 11.
Proof.
  unfold idsOf. intros (node & _ & Hid)%list_elem_of_omap.
  eapply ownVideoId_length, Hid.
Qed.

(** ** The video enumerator *)

Lemma discovered_snoc pages page :
  discovered (pages ++ [page]) = pushAll (idsOf page) (discovered pages).
Proof.
  unfold discovered. rewrite flat_map_app, pushAll_app. simpl.
  by rewrite app_nil_r.
Qed.

(** What holds of the state in which the pagination loop stops. *)
Lemma paginate_spec up maxVideos rounds st st' err :
  paginate up maxVideos rounds st = (st', err) ->
  agree maxVideos (videoIds st) (discovered (pagesSeen st)) ->
  length (pagesSeen st) = S (length (requestsSent st)) ->
  Forall (fun r => exists d, browseContinuation up r.1 r.2 = Returned d) (requestsSent st) ->
  agree maxVideos (videoIds st') (discovered (pagesSeen st'))
  /\ attempts st' <= attempts st + rounds
  /\ length (requestsSent st') + attempts st <= length (requestsSent st) + attempts st'
  /\ (err = None ->
      length (pagesSeen st') = S (length (requestsSent st'))
      /\ Forall (fun r => exists d, browseContinuation up r.1 r.2 = Returned d)
                (requestsSent st')
      /\ (maxVideos <= length (videoIds st')
          \/ findContinuationToken (data st') = None
          \/ attempts st' = attempts st + rounds))
  /\ (forall message, err = Some message ->
      exists earlier k token,
        requestsSent st' = earlier ++ [(k, token)]
        /\ Forall (fun r => exists d, browseContinuation up r.1 r.2 = Returned d) earlier
        /\ browseContinuation up k token = Thrown message).
Proof.
  revert st. induction rounds as [|rounds IH]; intros st Hrun Hag Hpages Hsent.
  - simpl in Hrun. injection Hrun as <- <-.
    split_and!; [done | lia | lia | | done].
    intros _. split_and!; [done | done | right; right; lia].
  - simpl in Hrun.
    destruct (length (videoIds st) <? maxVideos) eqn:Hlt.
    + destruct (findContinuationToken (data st)) as [token|] eqn:Htoken.
      * destruct (browseContinuation up (S (attempts st)) token) as [page|message] eqn:Hreq.
        -- apply IH in Hrun; simpl.
           ++ simpl in Hrun. rewrite length_app in Hrun. simpl in Hrun.
              destruct Hrun as (H1 & H2 & H3 & H4 & H5).
              split_and!; [done | lia | lia | | done].
              intros Herr. destruct (H4 Herr) as (? & ? & Hstop).
              split_and!; [done | done |].
              destruct Hstop as [?|[?|?]]; [by left | by right; left | right; right; lia].
           ++ simpl. rewrite discovered_snoc. by apply extractVideoIds_agree.
           ++ simpl. rewrite !length_app. simpl. lia.
           ++ simpl. apply Forall_app. split; [done|].
              apply Forall_singleton. by exists page.
        -- injection Hrun as <- <-. simpl.
           split_and!; [done | lia | rewrite length_app; simpl; lia | done |].
           intros m [= <-]. by exists (requestsSent st), (S (attempts st)), token.
      * injection Hrun as <- <-. simpl.
        split_and!; [done | lia | lia | | done].
        intros _. split_and!; [done | done | by right; left].
    + injection Hrun as <- <-.
      split_and!; [done | lia | lia | | done].
      intros _. split_and!; [done | done |].
      left. apply Nat.ltb_ge in Hlt. lia.
Qed.

Lemma discovered_NoDup pages : NoDup (discovered pages).
Proof. apply pushAll_NoDup, NoDup_nil_2. Qed.

Lemma discovered_length pages id : id ∈ discovered pages -> String.length id = 11.
Proof.
  unfold discovered. rewrite pushAll_elem, elem_of_nil.
  intros [[]|Hin]. apply list_elem_of_In, in_flat_map in Hin.
  destruct Hin as (page & _ & Hid). eapply idsOf_length, list_elem_of_In, Hid.
Qed.

(** The loop always stops: [paginate] is total, and when no request throws
    it ends without an exception. *)
Lemma paginate_returns up maxVideos rounds st :
  (forall k token, exists d, browseContinuation up k token = Returned d) ->
  (paginate up maxVideos rounds st).2 = None.
Proof.
  intros Hok. revert st. induction rounds as [|rounds IH]; intros st; simpl; [done|].
  destruct (length (videoIds st) <? maxVideos); [|done].
  destruct (findContinuationToken (data st)) as [token|]; [|done].
  destruct (Hok (S (attempts st)) token) as [d ->]. apply IH.
Qed.

(** Without a continuation token the loop stops at once. *)
Lemma paginate_no_token up maxVideos rounds st :
  findContinuationToken (data st) = None ->
  exists st', paginate up maxVideos rounds st = (st', None)
              /\ videoIds st' = videoIds st.
Proof.
  intros Htoken. destruct rounds as [|rounds]; simpl; [by eauto|].
  destruct (length (videoIds st) <? maxVideos); [|by eauto].
  rewrite Htoken. by eauto.
Qed.

Lemma enumeration_Returned up channelId maxVideos st err :
  enumeration up channelId maxVideos = Returned (st, err) ->
  exists d, browseChannel up channelId = Returned d
    /\ paginate up maxVideos 10
         {| videoIds := extractVideoIds maxVideos d []; data := d; attempts := 0;
            requestsSent := []; pagesSeen := [d] |} = (st, err).
Proof.
  unfold enumeration. destruct (browseChannel up channelId) as [d|]; [|done].
  intros Henum. exists d. split; [done|].
  remember (paginate _ _ _ _) as final. by injection Henum as ->.
Qed.

(** C5.  Enumeration, for any channel and any limit, [maxVideos] in [1,100]
    included.  When it returns, the identifiers are the first [maxVideos]
    distinct identifiers in order of discovery over the documents received,
    so at most [maxVideos] of them, without duplicates, each of length 11,
    cut from the longer list the last page may have produced.  At most 10
    continuation requests follow the first request, and the loop stopped
    because [maxVideos] was reached, or no continuation token was found, or
    10 attempts were made.  If no request throws, enumeration does return;
    and a first response holding neither an identifier nor a token gives the
    empty sequence, not an exception. *)
Theorem fetchChannelVideoIds_spec (up : Upstream) (channelId : string) (maxVideos : nat) :
  (forall ids, fetchChannelVideoIds up channelId maxVideos = Returned ids ->
     exists st,
       enumeration up channelId maxVideos = Returned (st, None)
       /\ ids = take maxVideos (videoIds st)
       /\ ids = take maxVideos (discovered (pagesSeen st))
       /\ length ids <= maxVideos
       /\ NoDup ids
       /\ Forall (fun id => String.length id = 11) ids
       /\ length (requestsSent st) <= 10
       /\ length (pagesSeen st) = S (length (requestsSent st))
       /\ (maxVideos <= length (videoIds st)
           \/ findContinuationToken (data st) = None
           \/ attempts st = 10))
  /\ ((exists d, browseChannel up channelId = Returned d) ->
      (forall k token, exists d, browseContinuation up k token = Returned d) ->
      exists ids, fetchChannelVideoIds up channelId maxVideos = Returned ids)
  /\ (forall d, browseChannel up channelId = Returned d ->
      idsOf d = [] -> findContinuationToken d = None ->
      fetchChannelVideoIds up channelId maxVideos = Returned []).
Proof.
  split_and!.
  - intros ids Hfetch. unfold fetchChannelVideoIds in Hfetch.
    destruct (enumeration up channelId maxVideos) as [[st [m|]]|m] eqn:Henum;
      [done | | done].
    injection Hfetch as <-. exists st. split; [done|].
    apply enumeration_Returned in Henum as (d & _ & Hrun).
    apply paginate_spec in Hrun; simpl.
    + simpl in Hrun. destruct Hrun as (Hag & Hatt & Hreq & Hnone & _).
      destruct (Hnone eq_refl) as (Hpages & _ & Hstop).
      assert (Heq : take maxVideos (videoIds st)
                    = take maxVideos (discovered (pagesSeen st))).
      { by apply agree_take. }
      split_and!; [done | done | | | | lia | done |].
      * rewrite length_take. lia.
      * rewrite Heq. eapply sublist_NoDup; [apply discovered_NoDup | apply sublist_take].
      * rewrite Heq. apply Forall_forall. intros id Hid.
        eapply discovered_length, elem_of_sublist; [exact Hid | apply sublist_take].
      * destruct Hstop as [?|[?|?]]; [by left | by right; left | right; right; lia].
    + simpl. replace (discovered [d]) with (pushAll (idsOf d) []).
      * apply extractVideoIds_agree, agree_refl.
      * unfold discovered. simpl. by rewrite app_nil_r.
    + done.
    + done.
  - intros [d Hd] Hok. unfold fetchChannelVideoIds, enumeration. rewrite Hd.
    pose proof (paginate_returns up maxVideos 10
      {| videoIds := extractVideoIds maxVideos d []; data := d; attempts := 0;
         requestsSent := []; pagesSeen := [d] |} Hok) as Hnone.
    destruct (paginate _ _ _ _) as [st err]. simpl in Hnone. subst err. eauto.
  - intros d Hd Hids Htoken. unfold fetchChannelVideoIds, enumeration. rewrite Hd.
    assert (Hnil : extractVideoIds maxVideos d [] = []).
    { pose proof (extractVideoIds_agree maxVideos d [] [] (agree_refl _ _)) as Hag.
      rewrite Hids in Hag. simpl in Hag.
      destruct Hag as [?|(_ & Hlen & Htake)]; [done|].
      simpl in Hlen. assert (maxVideos = 0) as -> by lia.
      destruct (extractVideoIds 0 d []) eqn:He; [done|].
      destruct d as [| | | |items|fields]; try done.
      - rewrite extractVideoIds_arr in He. by destruct items.
      - rewrite extractVideoIds_obj in He. rewrite idsOf_obj in Hids.
        apply app_eq_nil in Hids as [Hown _]. unfold pushOwn in He.
        destruct (ownVideoId (JObj fields)); [done|]. by destruct fields. }
    rewrite Hnil.
    destruct (paginate_no_token up maxVideos 10
      {| videoIds := []; data := d; attempts := 0; requestsSent := [];
         pagesSeen := [d] |} Htoken) as (st' & -> & ->).
    simpl. by rewrite take_nil.
Qed.

(** ** The identifier resolver *)

Lemma searchFrom_Some {B} (pattern : string -> option B) s m :
  searchFrom pattern s = Some m ->
  exists before after, s = before +:+ after /\ pattern after = Some m.
Proof.
  induction s as [|c s IH]; simpl.
  - destruct (pattern EmptyString) eqn:Hp; [|done].
    intros [= <-]. by exists EmptyString, EmptyString.
  - destruct (pattern (String c s)) eqn:Hp.
    + intros [= <-]. by exists EmptyString, (String c s).
    + intros (before & after & -> & Hm)%IH. by exists (String c before), after.
Qed.

Lemma spanClass_all cls s : allChars cls (spanClass cls s).1 = true.
Proof.
  induction s as [|c s IH]; simpl; [done|].
  destruct (cls c) eqn:Hc; [|done].
  destruct (spanClass cls s) as [run rest]. simpl in *. by rewrite Hc, IH.
Qed.

Lemma captureRun_Some cls closing s run :
  captureRun cls closing s = Some run ->
  run <> EmptyString /\ allChars cls run = true.
Proof.
  unfold captureRun. pose proof (spanClass_all cls s) as Hall.
  destruct (spanClass cls s) as [[|c r] rest]; [done|].
  destruct (stripPrefix closing rest); [|done].
  intros [= <-]. done.
Qed.

Lemma channelIdPattern_Some key s id :
  channelIdPattern key s = Some id ->
  exists run, id = "UC" +:+ run /\ run <> EmptyString /\ allChars notQuote run = true.
Proof.
  unfold channelIdPattern.
  destruct (stripPrefix _ s) as [rest|]; [|done].
  destruct (captureRun notQuote _ rest) as [run|] eqn:Hrun; [|done].
  intros [= <-]. exists run. split; [done|]. eapply captureRun_Some, Hrun.
Qed.

Lemma resolveChannelId_captured up channelUrl id :
  resolveChannelId up channelUrl = Returned (Some id) ->
  exists run, id = "UC" +:+ run /\ run <> EmptyString /\ allChars notQuote run = true.
Proof.
  unfold resolveChannelId.
  destruct (channelPage up channelUrl) as [html|]; [|done].
  intros Hid.
  assert (exists key s, channelIdPattern key s = Some id) as (key & s & Hpat).
  { destruct (searchFrom (channelIdPattern "externalId") html) as [ext|] eqn:Hext.
    - injection Hid as ->. apply searchFrom_Some in Hext as (_ & s & _ & ?). eauto.
    - injection Hid as Hid. apply searchFrom_Some in Hid as (_ & s & _ & ?). eauto. }
  by apply channelIdPattern_Some in Hpat.
Qed.

(** C9, as the code has it.  Whenever the resolver returns an identifier,
    it is the two characters UC followed by one or more characters, none of
    which is a double quote, exactly as group 1 of the marker pattern
    captured them; its length is not checked, so it has at least 3
    characters and not necessarily 24. *)
Theorem resolveChannelId_shape (up : Upstream) (channelUrl : string) (id : string) :
  resolveChannelId up channelUrl = Returned (Some id) ->
  exists run,
    id = "UC" +:+ run
    /\ run <> EmptyString
    /\ allChars notQuote run = true
    /\ 3 <= String.length id.
Proof.
  intros (run & -> & Hne & Hall)%resolveChannelId_captured.
  exists run. split_and!; [done | done | done |].
  destruct run; [done|]. simpl. lia.
Qed.

(** ** Input handling: the effective limit *)

Lemma readDigits_uint (d : Decimal.uint) (a : nat) :
  readDigits 10 (NilEmpty.string_of_uint d) (Some (Z.of_nat a))
  = Some (Z.of_nat (Nat.of_uint_acc d a)).
Proof.
  revert a. induction d; intros a; simpl; [done|..];
    rewrite Nat.tail_mul_spec;
    match goal with
    | |- readDigits 10 _ (Some ?z) = Some (Z.of_nat (Nat.of_uint_acc _ ?n)) =>
        replace z with (Z.of_nat n) by lia
    end; apply IHd.
Qed.

Lemma parseMagnitude_uint (d : Decimal.uint) :
  d <> Decimal.Nil ->
  parseMagnitude (NilEmpty.string_of_uint d)
  = readDigits 10 (NilEmpty.string_of_uint d) (Some 0%Z).
Proof.
  destruct d as [|d|d|d|d|d|d|d|d|d|d]; intros Hd; try reflexivity; [done|].
  destruct d; reflexivity.
Qed.

Lemma parseMagnitude_decimal (n : nat) :
  parseMagnitude (decimal n) = Some (Z.of_nat n).
Proof.
  unfold decimal, NilZero.string_of_uint.
  rewrite <- (DecimalNat.Unsigned.of_to n) at 2. unfold Nat.of_uint.
  destruct (Nat.to_uint n) as [|d|d|d|d|d|d|d|d|d|d] eqn:Hn; [done|..];
    rewrite parseMagnitude_uint by done; apply (readDigits_uint _ 0).
Qed.

Lemma decimal_first (n : nat) :
  exists c rest, decimal n = String c rest /\ isDigit c = true.
Proof.
  unfold decimal, NilZero.string_of_uint.
  destruct (Nat.to_uint n); simpl; eauto.
Qed.

Lemma parseInt_decimal (n : nat) : parseInt (decimal n) = Num (Z.of_nat n).
Proof.
  pose proof (parseMagnitude_decimal n) as Hmag.
  destruct (decimal_first n) as (c & rest & Heq & Hc). rewrite Heq in *.
  unfold parseInt. simpl skipWhiteSpace.
  assert (isWhiteSpace c = false) as ->.
  { revert Hc. unfold isDigit, isWhiteSpace.
    generalize (nat_of_ascii c). intros k Hk.
    apply andb_true_iff in Hk as [H1%Nat.leb_le H2%Nat.leb_le].
    repeat (apply orb_false_intro || apply andb_false_intro2);
      first [apply Nat.leb_gt | apply Nat.eqb_neq]; lia. }
  assert (c <> "-"%char /\ c <> "+"%char) as [Hminus Hplus].
  { split; intros ->; done. }
  destruct c as [[] [] [] [] [] [] [] []]; try done; by rewrite Hmag.
Qed.

Lemma parseInt_minus_decimal (n : nat) :
  parseInt ("-" +:+ decimal n) = Num (- Z.of_nat n).
Proof.
  pose proof (parseMagnitude_decimal n) as Hmag.
  remember (decimal n) as digits.
  change (parseInt ("-" +:+ digits))
    with (match parseMagnitude digits with Some v => Num (- v)%Z | None => NaN end).
  by rewrite Hmag.
Qed.

(** Reading back the text of an integer gives the integer. *)
Lemma parseInt_printInt (z : Z) : parseInt (printInt z) = Num z.
Proof.
  unfold printInt. destruct (z <? 0)%Z eqn:Hz.
  - rewrite parseInt_minus_decimal. f_equal. lia.
  - rewrite parseInt_decimal. f_equal. lia.
Qed.

Lemma limitOf_range (n : jsnum) : (1 <= limitOf n <= 100)%Z.
Proof. unfold limitOf. lia. Qed.

Lemma effectiveMax_range (v : option json) (max : Z) :
  effectiveMax v = Returned max -> (1 <= max <= 100)%Z.
Proof.
  unfold effectiveMax. destruct v as [v|]; [destruct (parseIntJson v)|];
    intros [= <-]; apply limitOf_range.
Qed.

(** A conversion to a text throws one exception only, and never for a
    number, a text, a boolean or [null]. *)
Lemma joinTexts_Thrown (text : json -> outcome string) (l : list json)
    (message : string) :
  joinTexts text l = Thrown message -> exists x, x ∈ l /\ text x = Thrown message.
Proof.
  induction l as [|x l IH]; [done|]. simpl.
  destruct (text x) as [first|m] eqn:Hx.
  - destruct l as [|y l]; [done|].
    destruct (joinTexts text (y :: l)) as [others|m] eqn:Hrest; [done|].
    intros [= <-]. destruct (IH eq_refl) as (z & Hz & Hthrown).
    exists z. split; [by apply list_elem_of_further|done].
  - intros [= <-]. exists x. split; [apply list_elem_of_here|done].
Qed.

Lemma toStr_Thrown (v : json) (message : string) :
  toStr v = Thrown message ->
  message = primitiveMessage
  /\ match v with JArr _ | JObj _ => True | _ => False end.
Proof.
  induction v as [| b | text | s | items IH | fields IH] using json_induction;
    try done; [by destruct b| |].
  - intros (x & Hin & Hthrown)%joinTexts_Thrown. split; [|done].
    rewrite Forall_forall in IH. destruct x; try done; by apply (IH _ Hin).
  - simpl. destruct (assoc "toString" fields); [|done]. by intros [= <-].
Qed.



(** ** The metadata fetcher: thumbnail selection *)

Lemma getVideoDetails_Returned up id objects a objects' :
  getVideoDetails up id objects = Returned (a, objects') ->
  exists r, videoDetails up id = Returned r
    /\ a = fresh (dom objects) /\ objects' = <[a := r]> objects.
Proof.
  unfold getVideoDetails, allocate.
  destruct (videoDetails up id) as [r|]; [|done].
  intros [= <- <-]. by exists r.
Qed.

Lemma thumbnailOf_Returned vd id thumbnail :
  thumbnailOf vd id = Returned thumbnail ->
  thumbnail =
    match getPropOpt (getProp vd "thumbnail") "thumbnails" with
    | Some (JArr thumbnails) =>
        orElse (getPropOpt (last thumbnails) "url") (JStr (defaultThumbnail id))
    | _ => JStr (defaultThumbnail id)
    end.
Proof.
  unfold thumbnailOf.
  destruct (getPropOpt (getProp vd "thumbnail") "thumbnails") as [[]|];
    by intros [= <-].
Qed.

Lemma detailsOf_Returned up id response r :
  detailsOf up id response = Returned r ->
  let vd := orElse (getProp response "videoDetails") (JObj []) in
  exists seconds views,
    parseIntOf (getProp vd "lengthSeconds") = Returned seconds
    /\ parseIntOf (getProp vd "viewCount") = Returned views
    /\ thumbnailOf vd id = Returned (thumbnailUrl r)
    /\ videoId r = id
    /\ duration r = orZero seconds
    /\ viewCount r = orZero views
    /\ likeCount r = None
    /\ commentCount r = None.
Proof.
  unfold detailsOf. cbv zeta.
  destruct (parseIntOf (getProp _ "lengthSeconds")) as [seconds|]; [|done].
  destruct (parseIntOf (getProp _ "viewCount")) as [views|]; [|done].
  destruct (thumbnailOf _ id) as [thumbnail|]; [|done].
  intros [= <-]. by exists seconds, views.
Qed.

(** C8, as the code has it.  The record returned by the metadata fetcher
    has as [thumbnailUrl] the [url] of the last entry of the upstream
    thumbnail list when that list is an array whose last entry has a truthy
    [url], and otherwise the fallback URL built from the videoId. *)
Theorem getVideoDetails_thumbnail (up : Upstream) (id : string)
    (objects : gmap nat VideoRecord) (a : nat) (objects' : gmap nat VideoRecord) :
  getVideoDetails up id objects = Returned (a, objects') ->
  exists r response,
    objects' !! a = Some r
    /\ playerResponse up id = Returned response
    /\ thumbnailUrl r =
         match getPropOpt
                 (getProp (orElse (getProp response "videoDetails") (JObj [])) "thumbnail")
                 "thumbnails" with
         | Some (JArr thumbnails) =>
             orElse (getPropOpt (last thumbnails) "url") (JStr (defaultThumbnail id))
         | _ => JStr (defaultThumbnail id)
         end.
Proof.
  intros (r & Hr & -> & ->)%getVideoDetails_Returned.
  exists r. unfold videoDetails in Hr.
  destruct (playerResponse up id) as [response|]; [|done].
  exists response. split; [apply lookup_insert_eq|]. split; [done|].
  assert (Hgo : detailsOf up id response = Returned r).
  { by destruct response. }
  apply detailsOf_Returned in Hgo as (_ & _ & _ & _ & Hthumbnail & _).
  by apply thumbnailOf_Returned.
Qed.

(** When upstream lists its thumbnails by strictly increasing resolution,
    the last entry is the one of highest resolution. *)
Lemma last_highestResolution thumbnails :
  StronglySorted (fun t u => (pixels t < pixels u)%Z) thumbnails ->
  highestResolution thumbnails = last thumbnails.
Proof.
  induction 1 as [|t rest Hsorted IH Hlt]; [done|].
  simpl highestResolution. rewrite IH.
  destruct rest as [|u rest'] using rev_ind; [done|].
  rewrite last_snoc, last_cons, last_snoc.
  rewrite Forall_app, Forall_singleton in Hlt. destruct Hlt as [_ Hlt].
  apply Z.ltb_lt in Hlt. by rewrite Hlt.
Qed.

(** ** The engagement enricher *)

(** The enricher replaces the record at its argument by [engagement] of it
    and touches nothing else. *)
Lemma enrichWithEngagementData_insert up videoInfo (objects : gmap nat VideoRecord) r :
  objects !! videoInfo = Some r ->
  enrichWithEngagementData up videoInfo objects
  = (videoInfo, <[videoInfo := engagement up r]> objects).
Proof.
  intros Hr. unfold enrichWithEngagementData, engagement. rewrite Hr.
  destruct (watchPage up (videoId r)) as [html|]; [|by rewrite insert_id].
  f_equal.
  destruct (searchFrom likesPattern html) as [likes|],
           (searchFrom commentsPattern html) as [comments|].
  - apply map_eq. intros b.
    rewrite !lookup_alter, lookup_insert.
    repeat case_decide; subst; try done; by rewrite ?Hr.
  - apply map_eq. intros b.
    rewrite lookup_alter, lookup_insert.
    repeat case_decide; subst; try done; by rewrite ?Hr.
  - apply map_eq. intros b.
    rewrite lookup_alter, lookup_insert.
    repeat case_decide; subst; try done; by rewrite ?Hr.
  - by rewrite insert_id.
Qed.

Lemma enrichWithEngagementData_absent up videoInfo (objects : gmap nat VideoRecord) :
  objects !! videoInfo = None ->
  enrichWithEngagementData up videoInfo objects = (videoInfo, objects).
Proof. intros Hr. unfold enrichWithEngagementData. by rewrite Hr. Qed.

(** C10.  The enricher cannot throw (it has no exceptional outcome), it
    returns the address it was given, it leaves every other object of the
    store alone, and in the record at that address it changes nothing but
    [likeCount] and [commentCount]; each of the two is overwritten exactly
    when the page was fetched and its marker matched, and keeps its prior
    value otherwise. *)
Theorem enrichWithEngagementData_frame (up : Upstream) (videoInfo : nat)
    (objects : gmap nat VideoRecord) (r : VideoRecord) :
  objects !! videoInfo = Some r ->
  exists r',
    enrichWithEngagementData up videoInfo objects
    = (videoInfo, <[videoInfo := r']> objects)
    /\ (forall other, other <> videoInfo ->
          (enrichWithEngagementData up videoInfo objects).2 !! other = objects !! other)
    /\ videoId r' = videoId r
    /\ title r' = title r
    /\ description r' = description r
    /\ duration r' = duration r
    /\ viewCount r' = viewCount r
    /\ releaseDate r' = releaseDate r
    /\ videoUrl r' = videoUrl r
    /\ thumbnailUrl r' = thumbnailUrl r
    /\ transcript r' = transcript r
    /\ likeCount r' = countAfter up (videoId r) likesPattern (likeCount r)
    /\ commentCount r' = countAfter up (videoId r) commentsPattern (commentCount r).
Proof.
  intros Hr. exists (engagement up r).
  rewrite (enrichWithEngagementData_insert _ _ _ _ Hr).
  split; [done|]. split.
  { intros other Hother. simpl. by rewrite lookup_insert_ne. }
  unfold engagement, countAfter.
  destruct (watchPage up (videoId r)) as [html|]; [|done].
  destruct (searchFrom likesPattern html), (searchFrom commentsPattern html); done.
Qed.

(** ** The per-video loop *)

(** Entries already written out stay as they are when the store grows at
    an address none of them uses. *)
Lemma writeOut_insert_fresh (objects : gmap nat VideoRecord) a r entries :
  objects !! a = None ->
  Forall (fun e => is_Some (writeOut objects e)) entries ->
  omap (writeOut (<[a := r]> objects)) entries = omap (writeOut objects) entries.
Proof.
  intros Ha. induction 1 as [|e entries [w Hw] _ IH]; [done|].
  cbn [omap list_omap]. rewrite IH. f_equal.
  destruct e as [b|]; [|done]. simpl in *.
  destruct (decide (a = b)) as [->|Hne]; [by rewrite Ha in Hw|].
  by rewrite lookup_insert_ne.
Qed.

Lemma fresh_absent (objects : gmap nat VideoRecord) :
  objects !! fresh (dom objects) = None.
Proof. apply not_elem_of_dom, is_fresh. Qed.

(** One iteration: what it appends to [videos], as the [result] event will
    show it, is [entryFor] of the identifier. *)
Lemma videoLoop_spec up count rest :
  forall i run,
    Forall (fun e => is_Some (writeOut (objects run) e)) (videos run) ->
    let run' := videoLoop up count i rest run in
    omap (writeOut (objects run')) (videos run')
    = omap (writeOut (objects run)) (videos run) ++ map (entryFor up) rest
    /\ written run' = written run ++ map (downloading count) (seq i (length rest)).
Proof.
  induction rest as [|id rest IH]; intros i run Hok; simpl.
  - by rewrite !app_nil_r.
  - unfold getVideoDetails, entryFor at 1, allocate.
    destruct (videoDetails up id) as [r|message].
    + set (a := fresh (dom (objects run))).
      assert (Ha : objects run !! a = None) by apply fresh_absent.
      rewrite (enrichWithEngagementData_insert up a _ r) by apply lookup_insert_eq.
      rewrite insert_insert_eq.
      match goal with |- context [videoLoop up count (S i) rest ?next] =>
        destruct (IH (S i) next) as [Hvideos Hwritten]
      end.
      * simpl. apply Forall_app. split.
        -- eapply Forall_impl; [exact Hok|]. intros [b|] [w Hw]; [|by eexists].
           simpl in *. destruct (decide (a = b)) as [->|Hne]; [by rewrite Ha in Hw|].
           rewrite lookup_insert_ne by done. by eexists.
        -- apply Forall_singleton. simpl. rewrite lookup_insert_eq. by eexists.
      * simpl in Hvideos, Hwritten. rewrite Hvideos, Hwritten.
        rewrite omap_app, writeOut_insert_fresh by done.
        cbn [omap list_omap writeOut]. rewrite lookup_insert_eq. simpl.
        by rewrite <- !app_assoc.
    + match goal with |- context [videoLoop up count (S i) rest ?next] =>
        destruct (IH (S i) next) as [Hvideos Hwritten]
      end.
      * simpl. apply Forall_app. split; [done|].
        apply Forall_singleton. by eexists.
      * simpl in Hvideos, Hwritten. rewrite Hvideos, Hwritten.
        rewrite omap_app. simpl. by rewrite <- !app_assoc.
Qed.

(** ** The shape of a run *)

Lemma pipeline_shape up url max : runShape up url max (pipeline up url max).
Proof.
  unfold pipeline.
  destruct (resolveChannelId up url) as [[channelId|]|message] eqn:Hres.
  - destruct channelId as [|c rest] eqn:Hid.
    { eapply ResolveFailed; [done | by right]. }
    rewrite <- Hid in *. clear Hid.
    assert (Hgo : runShape up url max
      match fetchChannelVideoIds up channelId max with
      | Returned [] =>
          [Status "Resolving channel..." 0; Status "Fetching video list..." 5;
           Error "No videos found for this channel"]
      | Returned ids =>
          let run :=
            videoLoop up (length ids) 0 ids
              {| objects := ∅; videos := [];
                 written :=
                   [Status "Resolving channel..." 0; Status "Fetching video list..." 5;
                    Status ("Found " +:+ decimal (length ids)
                            +:+ " videos. Downloading metadata...") 10] |} in
          written run
          ++ [Status "Done!" 100; Result (omap (writeOut (objects run)) (videos run))]
      | Thrown message =>
          [Status "Resolving channel..." 0; Status "Fetching video list..." 5;
           Error message]
      end).
    { destruct (fetchChannelVideoIds up channelId max) as [ids|message] eqn:Hfetch.
      - destruct ids as [|id ids'] eqn:Hids.
        { by eapply ListingEmpty. }
        rewrite <- Hids in *.
        match goal with |- context [videoLoop up ?n 0 ids ?start] =>
          destruct (videoLoop_spec up n ids 0 start) as [Hvideos Hwritten]
        end; [done|].
        cbv zeta in *. cbn [objects videos written omap list_omap] in Hvideos, Hwritten.
        rewrite Hvideos, Hwritten. rewrite <- !app_assoc.
        eapply (Completed up url max channelId ids); [done | done | by rewrite Hids].
      - by eapply ListingThrew. }
    destruct channelId; [done | exact Hgo].
  - eapply ResolveFailed; [done | by left].
  - by eapply ResolveThrew.
Qed.

(** ** Progress percentages *)

Lemma progress_table : forallb progressRow (seq 0 101) = true.
Proof. vm_compute. reflexivity. Qed.

Lemma progressRow_at count i :
  count <= 100 -> i < count ->
  (10 <= progressOf i count <= 95)%Z
  /\ (progressOf i count <= progressOf (S i) count)%Z
  /\ (Z.abs (2 * Z.of_nat count * (progressOf i count - 10) - 170 * Z.of_nat i)
      <= Z.of_nat count)%Z.
Proof.
  intros Hcount Hi.
  pose proof progress_table as Htable.
  rewrite forallb_forall in Htable.
  specialize (Htable count). unfold progressRow in Htable.
  rewrite forallb_forall in Htable.
  assert (Hrow : In count (seq 0 101)) by (apply in_seq; lia).
  assert (Hcol : In i (seq 0 count)) by (apply in_seq; lia).
  specialize (Htable Hrow i Hcol).
  rewrite !andb_true_iff, !Z.leb_le in Htable. lia.
Qed.

Lemma progressOf_monotone count i j :
  count <= 100 -> i <= j -> j < count ->
  (progressOf i count <= progressOf j count)%Z.
Proof.
  intros Hcount Hij Hj. induction Hij as [|j Hij IH]; [lia|].
  etrans; [apply IH; lia|]. apply progressRow_at; lia.
Qed.

Lemma progressValues_app a b :
  progressValues (a ++ b) = progressValues a ++ progressValues b.
Proof. apply omap_app. Qed.

Lemma progressValues_downloading count l :
  progressValues (map (downloading count) l) = map (fun i => progressOf i count) l.
Proof.
  induction l as [|i l IH]; [done|].
  change (progressValues (map (downloading count) (i :: l)))
    with (progressOf i count :: progressValues (map (downloading count) l)).
  by rewrite IH.
Qed.

Lemma progress_sorted count i n :
  count <= 100 -> i + n <= count ->
  StronglySorted Z.le (map (fun k => progressOf k count) (seq i n)).
Proof.
  intros Hcount. revert i. induction n as [|n IH]; intros i Hin; simpl.
  - constructor.
  - constructor; [apply IH; lia|].
    apply Forall_forall. intros p Hp%list_elem_of_In.
    apply in_map_iff in Hp as (k & <- & Hk%in_seq).
    apply progressOf_monotone; lia.
Qed.

Lemma progress_bounds count n :
  count <= 100 -> n <= count ->
  Forall (fun p => (10 <= p <= 95)%Z) (map (fun k => progressOf k count) (seq 0 n)).
Proof.
  intros Hcount Hn. apply Forall_forall.
  intros p Hp%list_elem_of_In. apply in_map_iff in Hp as (k & <- & Hk%in_seq).
  apply progressRow_at; lia.
Qed.

(** ** Properties of a whole run *)

(** A stream is opened for a request with a [channelUrl]: it holds one
    [error] event when the conversion of [maxVideos] throws, and the events
    of the pipeline otherwise. *)
Lemma channelRoute_stream up req events :
  channelRoute up req = EventStream events ->
  exists url, channelUrl req = Some url /\ url <> EmptyString
    /\ ((exists message,
           effectiveMax (maxVideos req) = Thrown message /\ events = [Error message])
        \/ (exists max,
              effectiveMax (maxVideos req) = Returned max
              /\ events = pipeline up url (Z.to_nat max)
              /\ Z.to_nat max <= 100)).
Proof.
  unfold channelRoute. destruct (channelUrl req) as [[|c url]|]; try done.
  destruct (effectiveMax (maxVideos req)) as [max|message] eqn:Hmax; intros [= <-];
    exists (String c url); split_and!; try done.
  - right. exists max. split_and!; try done.
    pose proof (effectiveMax_range _ _ Hmax). lia.
  - left. by exists message.
Qed.

Lemma resolved_not_empty up url channelId :
  resolveChannelId up url = Returned (Some channelId) -> channelId <> EmptyString.
Proof. intros (run & -> & _)%resolveChannelId_captured. done. Qed.

(** The events of a run that reaches the per-video stage. *)
Lemma pipeline_completed up url max channelId ids :
  resolveChannelId up url = Returned (Some channelId) ->
  fetchChannelVideoIds up channelId max = Returned ids ->
  ids <> [] ->
  pipeline up url max =
    [Status "Resolving channel..." 0; Status "Fetching video list..." 5;
     Status ("Found " +:+ decimal (length ids) +:+ " videos. Downloading metadata...") 10]
    ++ map (downloading (length ids)) (seq 0 (length ids))
    ++ [Status "Done!" 100; Result (map (entryFor up) ids)].
Proof.
  intros Hres Hfetch Hids.
  pose proof (resolved_not_empty _ _ _ Hres) as Hne.
  destruct (pipeline_shape up url max)
    as [m H1|id H1 H2|c m H1 H2|c H1 H2|c ids' H1 H2 H3];
    rewrite Hres in H1; try done.
  - injection H1 as <-. by destruct H2 as [?|[= ->]].
  - injection H1 as <-. by rewrite Hfetch in H2.
  - injection H1 as <-. rewrite Hfetch in H2. by injection H2 as ->.
  - injection H1 as <-. rewrite Hfetch in H2. by injection H2 as <-.
Qed.

(** C1.  In a run that reaches the per-video stage with a non-empty list
    of identifiers, the run ends with the [Done!] status and a [result]
    event holding one entry per identifier, in order.  The entry of a video
    for which [getVideoDetails] throws holds the videoId and the message of
    the exception and nothing else; the entry of any other video is the
    complete record that [getVideoDetails] returned, enriched, under the
    same videoId. *)
Theorem per_video_failure_isolated (up : Upstream) (url : string) (max : nat)
    (channelId : string) (ids : list string) :
  resolveChannelId up url = Returned (Some channelId) ->
  fetchChannelVideoIds up channelId max = Returned ids ->
  ids <> [] ->
  exists statuses entries,
    pipeline up url max = statuses ++ [Status "Done!" 100; Result entries]
    /\ forallb isStatus statuses = true
    /\ length entries = length ids
    /\ forall i id, ids !! i = Some id ->
         (forall objects message,
            getVideoDetails up id objects = Thrown message ->
            entries !! i = Some (ErrorOnly id message))
         /\ (forall objects a objects',
               getVideoDetails up id objects = Returned (a, objects') ->
               exists r, objects' !! a = Some r
                 /\ entries !! i = Some (Populated (engagement up r))
                 /\ videoId (engagement up r) = id).
Proof.
  intros Hres Hfetch Hids.
  exists ([Status "Resolving channel..." 0; Status "Fetching video list..." 5;
           Status ("Found " +:+ decimal (length ids)
                   +:+ " videos. Downloading metadata...") 10]
          ++ map (downloading (length ids)) (seq 0 (length ids))),
         (map (entryFor up) ids).
  split_and!.
  - rewrite (pipeline_completed _ _ _ _ _ Hres Hfetch Hids). by rewrite <- app_assoc.
  - rewrite forallb_app. apply andb_true_iff. split; [done|].
    apply forallb_forall. by intros e (k & <- & _)%in_map_iff.
  - apply length_map.
  - intros i id Hid.
    assert (Hentry : map (entryFor up) ids !! i = Some (entryFor up id)).
    { change (map (entryFor up) ids) with (entryFor up <$> ids).
      by rewrite list_lookup_fmap, Hid. }
    rewrite Hentry. unfold entryFor. split.
    + intros objects message. unfold getVideoDetails.
      destruct (videoDetails up id); [done|]. by intros [= ->].
    + intros objects a objects' (r & Hr & -> & ->)%getVideoDetails_Returned.
      exists r. rewrite Hr, lookup_insert_eq. split_and!; [done | done |].
      assert (Hsame : videoId (engagement up r) = videoId r).
      { unfold engagement. destruct (watchPage up (videoId r)) as [html|]; [|done].
        by destruct (searchFrom likesPattern html), (searchFrom commentsPattern html). }
      rewrite Hsame. unfold videoDetails in Hr.
      destruct (playerResponse up id) as [response|]; [|done].
      assert (Hgo : detailsOf up id response = Returned r) by by destruct response.
      by apply detailsOf_Returned in Hgo as (_ & _ & _ & _ & _ & ? & _).
Qed.

(** C2.  Every run whose stream is opened writes any number of [status]
    events and then exactly one terminal event, an [error] or a [result]:
    the terminal event is the last one and the only one of its kind.  When
    the resolver finds no marker, or enumeration returns no video, the
    terminal event is an [error] and the stream holds no [result]; the
    [error] is the one of that stage, unless the conversion of [maxVideos]
    threw before any stage: the stream is then that [error] event alone. *)
Theorem one_terminal_event (up : Upstream) (req : Request) (events : list event) :
  channelRoute up req = EventStream events ->
  exists statuses terminal,
    events = statuses ++ [terminal]
    /\ forallb isStatus statuses = true
    /\ (isError terminal = true /\ isResult terminal = false
        \/ isError terminal = false /\ isResult terminal = true)
    /\ length (List.filter (fun e => isError e || isResult e) events) = 1
    /\ (forall url, channelUrl req = Some url ->
          resolveChannelId up url = Returned None ->
          (terminal = Error "Could not resolve channel ID from URL"
           \/ exists message,
                effectiveMax (maxVideos req) = Thrown message
                /\ terminal = Error message)
          /\ existsb isResult events = false)
    /\ (forall url channelId max, channelUrl req = Some url ->
          effectiveMax (maxVideos req) = Returned max ->
          resolveChannelId up url = Returned (Some channelId) ->
          fetchChannelVideoIds up channelId (Z.to_nat max) = Returned [] ->
          terminal = Error "No videos found for this channel"
          /\ existsb isResult events = false)
    /\ (forall message, effectiveMax (maxVideos req) = Thrown message ->
          statuses = [] /\ terminal = Error message).
Proof.
  intros (url & Hurl & _ & [(message & Hthrown & ->)|(limit & Hlimit & -> & _)])
         %channelRoute_stream.
  { exists [], (Error message). rewrite Hthrown.
    split_and!; [done | done | by left | done | | done |].
    - intros _ _ _. split; [|done]. right. by exists message.
    - by intros ? [= <-]. }
  rewrite Hlimit.
  set (max := Z.to_nat limit).
  assert (Hsame : forall url', channelUrl req = Some url' -> url' = url).
  { intros url' Hu. rewrite Hurl in Hu. by injection Hu. }
  assert (Hmax : forall limit', Returned limit = Returned limit' -> Z.to_nat limit' = max).
  { by intros ? [= <-]. }
  destruct (pipeline_shape up url max)
    as [m H1|id H1 H2|c m H1 H2|c H1 H2|c ids H1 H2 H3].
  - exists [Status "Resolving channel..." 0], (Error m).
    split_and!; [done | done | by left | done | | | done].
    + intros ? ->%Hsame. by rewrite H1.
    + intros ? ? ? ->%Hsame _. by rewrite H1.
  - exists [Status "Resolving channel..." 0],
           (Error "Could not resolve channel ID from URL").
    split_and!; [done | done | by left | done | | | done].
    + intros _ _ _. split; [by left|done].
    + intros ? ? ? ->%Hsame _ Hres. rewrite H1 in Hres. injection Hres as ->.
      destruct H2 as [?|[= ->]]; [done|]. by apply resolved_not_empty in H1.
  - exists [Status "Resolving channel..." 0; Status "Fetching video list..." 5], (Error m).
    split_and!; [done | done | by left | done | | | done].
    + intros ? ->%Hsame. by rewrite H1.
    + intros ? ? ? ->%Hsame <-%Hmax. rewrite H1. intros [= <-]. by rewrite H2.
  - exists [Status "Resolving channel..." 0; Status "Fetching video list..." 5],
           (Error "No videos found for this channel").
    split_and!; [done | done | by left | done | | done | done].
    intros ? ->%Hsame. by rewrite H1.
  - exists ([Status "Resolving channel..." 0; Status "Fetching video list..." 5;
             Status ("Found " +:+ decimal (length ids)
                     +:+ " videos. Downloading metadata...") 10]
            ++ map (downloading (length ids)) (seq 0 (length ids))
            ++ [Status "Done!" 100]),
           (Result (map (entryFor up) ids)).
    assert (Hstatus : forall l, forallb isStatus (map (downloading (length ids)) l) = true).
    { intros l. apply forallb_forall. by intros e (k & <- & _)%in_map_iff. }
    assert (Hnone : forall l,
              List.filter (fun e => isError e || isResult e)
                          (map (downloading (length ids)) l) = []).
    { induction l as [|k l IH]; [done|]. simpl. exact IH. }
    split_and!.
    + by rewrite <- !app_assoc.
    + rewrite !forallb_app, Hstatus. done.
    + by right.
    + rewrite !List.filter_app, Hnone. done.
    + intros ? ->%Hsame. by rewrite H1.
    + intros ? ? ? ->%Hsame <-%Hmax. rewrite H1. intros [= <-]. rewrite H2.
      intros [= Hnil]. done.
    + done.
Qed.

Lemma fetchChannelVideoIds_length up channelId maxVideos ids :
  fetchChannelVideoIds up channelId maxVideos = Returned ids -> length ids <= maxVideos.
Proof.
  unfold fetchChannelVideoIds.
  destruct (enumeration up channelId maxVideos) as [[st [m|]]|m]; try done.
  intros [= <-]. rewrite length_take. lia.
Qed.

Lemma first_page_agree maxVideos d :
  agree maxVideos (extractVideoIds maxVideos d []) (discovered [d]).
Proof.
  replace (discovered [d]) with (pushAll (idsOf d) []).
  - apply extractVideoIds_agree, agree_refl.
  - unfold discovered. simpl. by rewrite app_nil_r.
Qed.

Lemma pipeline_listing_threw up url max channelId message :
  resolveChannelId up url = Returned (Some channelId) ->
  fetchChannelVideoIds up channelId max = Thrown message ->
  pipeline up url max =
    [Status "Resolving channel..." 0; Status "Fetching video list..." 5; Error message].
Proof.
  intros Hres Hfetch.
  pose proof (resolved_not_empty _ _ _ Hres) as Hne.
  destruct (pipeline_shape up url max)
    as [m H1|id H1 H2|c m H1 H2|c H1 H2|c ids' H1 H2 H3];
    rewrite Hres in H1; try done.
  - injection H1 as <-. by destruct H2 as [?|[= ->]].
  - injection H1 as <-. rewrite Hfetch in H2. by injection H2 as ->.
  - injection H1 as <-. by rewrite Hfetch in H2.
  - injection H1 as <-. by rewrite Hfetch in H2.
Qed.

(** C3, as the code has it.  The pagination loop has no handler of its
    own: when a continuation request that enumeration sent throws, the
    exception leaves [fetchChannelVideoIds], the identifiers collected so far
    are dropped, and the run ends with an [error] event carrying the message
    of the exception, right after the two first [status] events. *)
Theorem continuation_failure_is_fatal (up : Upstream) (url : string) (max : nat)
    (channelId : string) (st : Pagination) (err : option string)
    (k : nat) (token : json) (message : string) :
  resolveChannelId up url = Returned (Some channelId) ->
  enumeration up channelId max = Returned (st, err) ->
  (k, token) ∈ requestsSent st ->
  browseContinuation up k token = Thrown message ->
  err = Some message
  /\ fetchChannelVideoIds up channelId max = Thrown message
  /\ pipeline up url max =
       [Status "Resolving channel..." 0; Status "Fetching video list..." 5;
        Error message].
Proof.
  intros Hres Henum Hsent Hthrown.
  assert (Herr : err = Some message).
  { apply enumeration_Returned in Henum as (d & _ & Hrun).
    apply paginate_spec in Hrun; simpl; [|apply first_page_agree|done|done].
    destruct Hrun as (_ & _ & _ & Hnone & Hsome).
    destruct err as [m|].
    - destruct (Hsome m eq_refl) as (earlier & k' & token' & Heq & Hearlier & Hlast).
      rewrite Heq in Hsent. apply elem_of_app in Hsent as [Hin|Hin].
      + rewrite Forall_forall in Hearlier. destruct (Hearlier _ Hin) as [page Hpage].
        simpl in Hpage. congruence.
      + apply list_elem_of_singleton in Hin. injection Hin as -> ->. congruence.
    - destruct (Hnone eq_refl) as (_ & Hall & _).
      rewrite Forall_forall in Hall. destruct (Hall _ Hsent) as [page Hpage].
      simpl in Hpage. congruence. }
  subst err.
  assert (Hfetch : fetchChannelVideoIds up channelId max = Thrown message).
  { unfold fetchChannelVideoIds. by rewrite Henum. }
  split_and!; [done | done |]. by eapply pipeline_listing_threw.
Qed.

(** The progress values of a run of the pipeline: what they are at each
    stage where the run can end. *)
Lemma pipeline_first_status up url max :
  exists later, pipeline up url max = Status "Resolving channel..." 0 :: later.
Proof.
  destruct (pipeline_shape up url max)
    as [m H1|id H1 H2|c m H1 H2|c H1 H2|c ids H1 H2 H3]; by eexists.
Qed.

Lemma pipeline_unresolved up url max :
  (forall channelId, resolveChannelId up url <> Returned (Some channelId)) ->
  progressValues (pipeline up url max) = [0%Z]
  /\ exists message, pipeline up url max = [Status "Resolving channel..." 0; Error message].
Proof.
  intros Hnone.
  destruct (pipeline_shape up url max)
    as [m H1|id H1 H2|c m H1 H2|c H1 H2|c ids H1 H2 H3];
    try (by destruct (Hnone c)); by (split; [|eexists]).
Qed.

Lemma pipeline_unlisted up url max channelId :
  resolveChannelId up url = Returned (Some channelId) ->
  (forall ids, fetchChannelVideoIds up channelId max = Returned ids -> ids = []) ->
  progressValues (pipeline up url max) = [0%Z; 5%Z]
  /\ exists message,
       pipeline up url max
       = [Status "Resolving channel..." 0; Status "Fetching video list..." 5;
          Error message].
Proof.
  intros Hres Hnone. pose proof (resolved_not_empty _ _ _ Hres) as Hne.
  destruct (pipeline_shape up url max)
    as [m H1|id H1 H2|c m H1 H2|c H1 H2|c ids H1 H2 H3];
    rewrite Hres in H1; try done.
  - injection H1 as <-. by destruct H2 as [?|[= ->]].
  - by (split; [|eexists]).
  - by (split; [|eexists]).
  - injection H1 as <-. by destruct H3; apply Hnone.
Qed.

Lemma pipeline_progress up url max :
  max <= 100 ->
  StronglySorted Z.le (progressValues (pipeline up url max))
  /\ Forall (fun p => (0 <= p <= 100)%Z) (progressValues (pipeline up url max)).
Proof.
  intros Hmax.
  destruct (pipeline_shape up url max)
    as [m H1|id H1 H2|c m H1 H2|c H1 H2|c ids H1 H2 H3].
  1-4: split;
    [ repeat (constructor; [|repeat constructor; lia]); constructor
    | repeat constructor; lia ].
  pose proof (fetchChannelVideoIds_length _ _ _ _ H2) as Hlen.
  assert (Hcount : length ids <= 100) by lia.
  assert (Hvalues :
    progressValues
      ([Status "Resolving channel..." 0; Status "Fetching video list..." 5;
        Status ("Found " +:+ decimal (length ids)
                +:+ " videos. Downloading metadata...") 10]
       ++ map (downloading (length ids)) (seq 0 (length ids))
       ++ [Status "Done!" 100; Result (map (entryFor up) ids)])
    = [0; 5; 10]%Z
      ++ map (fun i => progressOf i (length ids)) (seq 0 (length ids)) ++ [100%Z]).
  { rewrite !progressValues_app, progressValues_downloading. done. }
  pose proof (progress_bounds (length ids) (length ids) Hcount (le_n _)) as Hbounds.
  split.
  - rewrite Hvalues.
    apply StronglySorted_app. split_and!.
    + intros p q Hp Hq.
      assert (p <= 10)%Z.
      { repeat (apply elem_of_cons in Hp as [->|Hp]; [lia|]). by apply elem_of_nil in Hp. }
      apply elem_of_app in Hq as [Hq| ->%list_elem_of_singleton]; [|lia].
      rewrite Forall_forall in Hbounds. specialize (Hbounds _ Hq). lia.
    + repeat (constructor; [|repeat constructor; lia]); constructor.
    + apply StronglySorted_app. split_and!.
      * intros p q Hp ->%list_elem_of_singleton.
        rewrite Forall_forall in Hbounds. specialize (Hbounds _ Hp). lia.
      * apply progress_sorted; lia.
      * repeat constructor.
  - rewrite Hvalues. repeat (apply Forall_cons; split; [lia|]).
    apply Forall_app. split; [|repeat constructor; lia].
    eapply Forall_impl; [exact Hbounds|]. simpl. lia.
Qed.

Lemma pipeline_result up url max entries :
  Result entries ∈ pipeline up url max ->
  exists channelId ids,
    resolveChannelId up url = Returned (Some channelId)
    /\ fetchChannelVideoIds up channelId max = Returned ids
    /\ ids <> []
    /\ entries = map (entryFor up) ids.
Proof.
  intros Hin.
  destruct (pipeline_shape up url max)
    as [m H1|id H1 H2|c m H1 H2|c H1 H2|c ids H1 H2 H3].
  1-4: repeat (apply elem_of_cons in Hin as [?|Hin]; [done|]);
    by apply elem_of_nil in Hin.
  exists c, ids. split_and!; [done | done | done |].
  repeat (apply elem_of_cons in Hin as [?|Hin]; [done|]).
  apply elem_of_app in Hin as [Hin|Hin].
  - apply list_elem_of_In, in_map_iff in Hin as (i & ? & _). done.
  - apply elem_of_cons in Hin as [?|Hin]; [done|].
    apply list_elem_of_singleton in Hin. by injection Hin.
Qed.

(** C4.  In every run the progress values of the [status] events never
    decrease and lie between 0 and 100.  They are fixed by how far the run
    gets.  Once the limit is computed the first event is the status of
    progress 0; a run that cannot resolve the channel has this value alone.
    A run that resolves the channel has 0 then 5, and these two alone when
    the enumeration throws or finds no video.  A run that enumerates a
    non-empty list of identifiers has 0, 5, 10, then one value per video,
    each between 10 and 95 and within one half of the exact interpolation,
    then 100: its last two events are the status of progress 100 and the
    [result] event, which holds one entry per identifier; and only such a
    run has a [result] event.  Only a request whose [maxVideos] cannot be
    converted has no [status] event at all: its stream is one [error]
    event. *)
Theorem progress_non_decreasing (up : Upstream) (req : Request) (events : list event) :
  channelRoute up req = EventStream events ->
  StronglySorted Z.le (progressValues events)
  /\ Forall (fun p => (0 <= p <= 100)%Z) (progressValues events)
  /\ exists url,
       channelUrl req = Some url
       /\ (forall message, effectiveMax (maxVideos req) = Thrown message ->
             events = [Error message])
       /\ (forall max, effectiveMax (maxVideos req) = Returned max ->
             (exists later, events = Status "Resolving channel..." 0 :: later)
             /\ ((forall channelId, resolveChannelId up url <> Returned (Some channelId)) ->
                   progressValues events = [0%Z])
             /\ (forall channelId,
                   resolveChannelId up url = Returned (Some channelId) ->
                   (exists later,
                      events = [Status "Resolving channel..." 0;
                                Status "Fetching video list..." 5] ++ later)
                   /\ ((forall ids,
                          fetchChannelVideoIds up channelId (Z.to_nat max) = Returned ids ->
                          ids = []) ->
                       progressValues events = [0%Z; 5%Z])
                   /\ (forall ids,
                         fetchChannelVideoIds up channelId (Z.to_nat max) = Returned ids ->
                         ids <> [] ->
                         exists statuses entries,
                           events = statuses ++ [Status "Done!" 100; Result entries]
                           /\ length entries = length ids
                           /\ progressValues statuses
                              = [0; 5; 10]%Z
                                ++ map (fun i => progressOf i (length ids))
                                       (seq 0 (length ids))
                           /\ progressValues events = progressValues statuses ++ [100%Z]
                           /\ forall i, i < length ids ->
                                (10 <= progressOf i (length ids) <= 95)%Z
                                /\ (Z.abs (2 * Z.of_nat (length ids)
                                             * (progressOf i (length ids) - 10)
                                           - 170 * Z.of_nat i)
                                    <= Z.of_nat (length ids))%Z))
             /\ (forall entries, Result entries ∈ events ->
                   exists channelId ids,
                     resolveChannelId up url = Returned (Some channelId)
                     /\ fetchChannelVideoIds up channelId (Z.to_nat max) = Returned ids
                     /\ ids <> []
                     /\ length entries = length ids)).
Proof.
  intros (url & Hurl & _ & [(message & Hthrown & ->)|(limit & Hlimit & -> & Hmax)])
         %channelRoute_stream.
  { split; [constructor|]. split; [constructor|]. exists url. rewrite Hthrown.
    split; [done|]. split; [by intros ? [= <-]|done]. }
  destruct (pipeline_progress up url (Z.to_nat limit) Hmax) as [Hsorted Hrange].
  split; [done|]. split; [done|]. exists url. rewrite Hlimit.
  split; [done|]. split; [done|]. intros ? [= <-].
  set (max := Z.to_nat limit) in *.
  split; [apply pipeline_first_status|].
  split; [intros Hnone; by apply pipeline_unresolved|].
  split.
  - intros channelId Hres. split; [|split].
    + pose proof (resolved_not_empty _ _ _ Hres) as Hne.
      destruct (pipeline_shape up url max)
        as [m H1|id H1 H2|c m H1 H2|c H1 H2|c ids H1 H2 H3];
        rewrite Hres in H1; try done; [|by eexists..].
      injection H1 as <-. by destruct H2 as [?|[= ->]].
    + intros Hnone. by apply (pipeline_unlisted up url max channelId).
    + intros ids Hfetch Hids.
      pose proof (fetchChannelVideoIds_length _ _ _ _ Hfetch) as Hlen.
      exists ([Status "Resolving channel..." 0; Status "Fetching video list..." 5;
               Status ("Found " +:+ decimal (length ids)
                       +:+ " videos. Downloading metadata...") 10]
              ++ map (downloading (length ids)) (seq 0 (length ids))),
             (map (entryFor up) ids).
      rewrite (pipeline_completed _ _ _ _ _ Hres Hfetch Hids).
      split_and!.
      * by rewrite <- app_assoc.
      * apply length_map.
      * by rewrite progressValues_app, progressValues_downloading.
      * by rewrite app_assoc, progressValues_app.
      * intros i Hi.
        assert (Hcount : length ids <= 100) by lia.
        pose proof (progressRow_at (length ids) i Hcount Hi). tauto.
  - intros entries (channelId & ids & Hres & Hfetch & Hids & ->)%pipeline_result.
    exists channelId, ids. split_and!; [done | done | done | apply length_map].
Qed.

(** ** The properties at work on the example worlds *)

(** A [token] that is falsy ([null], [false], 0 or the empty string) does
    not count as a token: the search goes on to the next node. *)
Example locator_skips_empty_token :
  findContinuationToken
    (JObj [("continuationCommand", JObj [("token", JStr EmptyString)]);
           ("next", JObj [("continuationCommand", JObj [("token", JStr "t")])])])
  = Some (JStr "t").
Proof. reflexivity. Qed.

Lemma findContinuationToken_first_match_witness :
  findContinuationToken firstPage = Some (JStr "page-2")
  /\ exists before node after,
       preorder firstPage = before ++ node :: after
       /\ (forall earlier, earlier ∈ before -> ownToken earlier = None)
       /\ ownToken node = Some (JStr "page-2").
Proof.
  split; [reflexivity|].
  apply (proj1 (proj2 (proj2 (findContinuationToken_first_match firstPage))
                 (JStr "page-2"))).
  reflexivity.
Defined.

Lemma per_video_failure_isolated_witness :
  resolveChannelId demo demoUrl = Returned (Some demoChannel)
  /\ fetchChannelVideoIds demo demoChannel 10 = Returned demoIds
  /\ demoIds <> []
  /\ exists statuses entries,
       pipeline demo demoUrl 10 = statuses ++ [Status "Done!" 100; Result entries]
       /\ forallb isStatus statuses = true
       /\ length entries = length demoIds
       /\ forall i id, demoIds !! i = Some id ->
            (forall objects message,
               getVideoDetails demo id objects = Thrown message ->
               entries !! i = Some (ErrorOnly id message))
            /\ (forall objects a objects',
                  getVideoDetails demo id objects = Returned (a, objects') ->
                  exists r, objects' !! a = Some r
                    /\ entries !! i = Some (Populated (engagement demo r))
                    /\ videoId (engagement demo r) = id).
Proof.
  split; [reflexivity|]. split; [reflexivity|]. split; [discriminate|].
  apply (per_video_failure_isolated demo demoUrl 10 demoChannel demoIds);
    [reflexivity | reflexivity | discriminate].
Defined.

Lemma one_terminal_event_witness :
  channelRoute demo (demoRequest None) = EventStream (pipeline demo demoUrl 10)
  /\ exists statuses terminal,
       pipeline demo demoUrl 10 = statuses ++ [terminal]
       /\ forallb isStatus statuses = true
       /\ (isError terminal = true /\ isResult terminal = false
           \/ isError terminal = false /\ isResult terminal = true)
       /\ length (List.filter (fun e => isError e || isResult e)
                              (pipeline demo demoUrl 10)) = 1
       /\ (forall url, channelUrl (demoRequest None) = Some url ->
             resolveChannelId demo url = Returned None ->
             (terminal = Error "Could not resolve channel ID from URL"
              \/ exists message,
                   effectiveMax (maxVideos (demoRequest None)) = Thrown message
                   /\ terminal = Error message)
             /\ existsb isResult (pipeline demo demoUrl 10) = false)
       /\ (forall url channelId max, channelUrl (demoRequest None) = Some url ->
             effectiveMax (maxVideos (demoRequest None)) = Returned max ->
             resolveChannelId demo url = Returned (Some channelId) ->
             fetchChannelVideoIds demo channelId (Z.to_nat max) = Returned [] ->
             terminal = Error "No videos found for this channel"
             /\ existsb isResult (pipeline demo demoUrl 10) = false)
       /\ (forall message,
             effectiveMax (maxVideos (demoRequest None)) = Thrown message ->
             statuses = [] /\ terminal = Error message).
Proof.
  split; [reflexivity|].
  apply (one_terminal_event demo (demoRequest None) (pipeline demo demoUrl 10)).
  reflexivity.
Defined.

(** C3 as stated fails: on the example channel the continuation request
    throws once two identifiers have been collected, and the run does not
    go on with these two: enumeration throws and the stream ends with an
    [error] event. *)
Lemma continuation_failure_aborts_run :
  (exists st,
     enumeration stalled demoChannel 10 = Returned (st, Some "socket hang up")
     /\ videoIds st = ["aaaaaaaaaaa"; "bbbbbbbbbbb"]
     /\ requestsSent st = [(1, JStr "page-2")])
  /\ browseContinuation stalled 1 (JStr "page-2") = Thrown "socket hang up"
  /\ fetchChannelVideoIds stalled demoChannel 10 = Thrown "socket hang up"
  /\ fetchChannelVideoIds stalled demoChannel 10
     <> Returned ["aaaaaaaaaaa"; "bbbbbbbbbbb"]
  /\ channelRoute stalled (demoRequest None)
     = EventStream [Status "Resolving channel..." 0; Status "Fetching video list..." 5;
                    Error "socket hang up"].
Proof.
  split; [|split; [reflexivity|split; [reflexivity|split; [discriminate|reflexivity]]]].
  eexists. split; [reflexivity|]. split; reflexivity.
Qed.

Lemma continuation_failure_is_fatal_witness :
  resolveChannelId stalled demoUrl = Returned (Some demoChannel)
  /\ (exists st, enumeration stalled demoChannel 10 = Returned (st, Some "socket hang up")
        /\ (1, JStr "page-2") ∈ requestsSent st)
  /\ browseContinuation stalled 1 (JStr "page-2") = Thrown "socket hang up"
  /\ Some "socket hang up" = Some "socket hang up"
  /\ fetchChannelVideoIds stalled demoChannel 10 = Thrown "socket hang up"
  /\ pipeline stalled demoUrl 10 =
       [Status "Resolving channel..." 0; Status "Fetching video list..." 5;
        Error "socket hang up"].
Proof.
  split; [reflexivity|]. split.
  { eexists. split; [reflexivity|]. apply list_elem_of_singleton. reflexivity. }
  split; [reflexivity|].
  eapply (continuation_failure_is_fatal stalled demoUrl 10 demoChannel _ _
            1 (JStr "page-2") "socket hang up");
    [reflexivity | reflexivity | apply list_elem_of_singleton; reflexivity | reflexivity].
Defined.

Lemma progress_non_decreasing_witness :
  channelRoute demo (demoRequest None) = EventStream (pipeline demo demoUrl 10)
  /\ effectiveMax (maxVideos (demoRequest None)) = Returned 10%Z
  /\ resolveChannelId demo demoUrl = Returned (Some demoChannel)
  /\ fetchChannelVideoIds demo demoChannel (Z.to_nat 10) = Returned demoIds
  /\ demoIds <> []
  /\ StronglySorted Z.le (progressValues (pipeline demo demoUrl 10))
  /\ (exists statuses entries,
        pipeline demo demoUrl 10 = statuses ++ [Status "Done!" 100; Result entries]
        /\ length entries = length demoIds
        /\ progressValues statuses
           = [0; 5; 10]%Z
             ++ map (fun i => progressOf i (length demoIds)) (seq 0 (length demoIds))
        /\ progressValues (pipeline demo demoUrl 10) = progressValues statuses ++ [100%Z]
        /\ forall i, i < length demoIds ->
             (10 <= progressOf i (length demoIds) <= 95)%Z
             /\ (Z.abs (2 * Z.of_nat (length demoIds)
                          * (progressOf i (length demoIds) - 10)
                        - 170 * Z.of_nat i)
                 <= Z.of_nat (length demoIds))%Z)
  /\ progressValues (pipeline demo demoUrl 10) = [0; 5; 10; 10; 38; 67; 100]%Z.
Proof.
  split; [reflexivity|]. split; [reflexivity|]. split; [reflexivity|].
  split; [reflexivity|]. split; [discriminate|].
  destruct (progress_non_decreasing demo (demoRequest None) (pipeline demo demoUrl 10)
              eq_refl) as (Hsorted & _ & url & Hurl & _ & Hrun).
  injection Hurl as <-.
  destruct (Hrun 10%Z eq_refl) as (_ & _ & Hresolved & _).
  destruct (Hresolved demoChannel eq_refl) as (_ & _ & Hlisted).
  split; [exact Hsorted|]. split; [|reflexivity].
  apply (Hlisted demoIds); [reflexivity | discriminate].
Defined.

Lemma fetchChannelVideoIds_spec_witness :
  fetchChannelVideoIds demo demoChannel 10 = Returned demoIds
  /\ exists st,
       enumeration demo demoChannel 10 = Returned (st, None)
       /\ demoIds = take 10 (videoIds st)
       /\ demoIds = take 10 (discovered (pagesSeen st))
       /\ length demoIds <= 10
       /\ NoDup demoIds
       /\ Forall (fun id => String.length id = 11) demoIds
       /\ length (requestsSent st) <= 10
       /\ length (pagesSeen st) = S (length (requestsSent st))
       /\ (10 <= length (videoIds st)
           \/ findContinuationToken (data st) = None
           \/ attempts st = 10).
Proof.
  split; [reflexivity|].
  apply (proj1 (fetchChannelVideoIds_spec demo demoChannel 10) demoIds).
  reflexivity.
Defined.



(** C8 as stated fails when upstream lists the largest thumbnail first:
    the record gets the [url] of the last entry, the small one, while the
    entry of highest resolution is the first. *)
Lemma thumbnail_is_last_not_largest :
  let large := thumbnailEntry "https://i.ytimg.com/large.jpg" "1280" "720" in
  let small := thumbnailEntry "https://i.ytimg.com/small.jpg" "120" "90" in
  playerResponse largestFirst "aaaaaaaaaaa" = Returned (playerBody [large; small])
  /\ highestResolution [large; small] = Some large
  /\ getProp large "url" = Some (JStr "https://i.ytimg.com/large.jpg")
  /\ exists a objects' r,
       getVideoDetails largestFirst "aaaaaaaaaaa" ∅ = Returned (a, objects')
       /\ objects' !! a = Some r
       /\ thumbnailUrl r = JStr "https://i.ytimg.com/small.jpg"
       /\ thumbnailUrl r <> JStr "https://i.ytimg.com/large.jpg".
Proof.
  cbv zeta. split; [reflexivity|]. split; [reflexivity|]. split; [reflexivity|].
  eexists _, _, _. split; [reflexivity|]. split; [apply lookup_insert_eq|].
  split; [reflexivity | discriminate].
Qed.

Lemma getVideoDetails_thumbnail_witness :
  getVideoDetails demo "aaaaaaaaaaa" ∅ = Returned (0, {[0 := demoRecord]})
  /\ exists r response,
       ({[0 := demoRecord]} : gmap nat VideoRecord) !! 0 = Some r
       /\ playerResponse demo "aaaaaaaaaaa" = Returned response
       /\ thumbnailUrl r =
            match getPropOpt
                    (getProp (orElse (getProp response "videoDetails") (JObj []))
                             "thumbnail")
                    "thumbnails" with
            | Some (JArr thumbnails) =>
                orElse (getPropOpt (last thumbnails) "url")
                       (JStr (defaultThumbnail "aaaaaaaaaaa"))
            | _ => JStr (defaultThumbnail "aaaaaaaaaaa")
            end.
Proof.
  split; [reflexivity|].
  apply (getVideoDetails_thumbnail demo "aaaaaaaaaaa" ∅ 0 {[0 := demoRecord]}).
  reflexivity.
Defined.

(** C9 as stated fails: the resolver returns whatever follows UC up to the
    closing quote of the marker, here an identifier of 5 characters. *)
Lemma resolved_id_of_five_characters :
  channelPage shortId demoUrl = Returned (channelHtml "UCabc")
  /\ resolveChannelId shortId demoUrl = Returned (Some "UCabc")
  /\ String.length "UCabc" = 5
  /\ wellFormedChannelId "UCabc" = false.
Proof. repeat split; reflexivity. Qed.

Lemma resolveChannelId_shape_witness :
  resolveChannelId shortId demoUrl = Returned (Some "UCabc")
  /\ exists run,
       "UCabc" = "UC" +:+ run
       /\ run <> EmptyString
       /\ allChars notQuote run = true
       /\ 3 <= String.length "UCabc".
Proof.
  split; [reflexivity|].
  apply (resolveChannelId_shape shortId demoUrl "UCabc"). reflexivity.
Defined.

Lemma enrichWithEngagementData_frame_witness :
  ({[0 := demoRecord]} : gmap nat VideoRecord) !! 0 = Some demoRecord
  /\ exists r',
       enrichWithEngagementData demo 0 {[0 := demoRecord]}
       = (0, <[0 := r']> {[0 := demoRecord]})
       /\ (forall other, other <> 0 ->
             (enrichWithEngagementData demo 0 {[0 := demoRecord]}).2 !! other
             = ({[0 := demoRecord]} : gmap nat VideoRecord) !! other)
       /\ videoId r' = videoId demoRecord
       /\ title r' = title demoRecord
       /\ description r' = description demoRecord
       /\ duration r' = duration demoRecord
       /\ viewCount r' = viewCount demoRecord
       /\ releaseDate r' = releaseDate demoRecord
       /\ videoUrl r' = videoUrl demoRecord
       /\ thumbnailUrl r' = thumbnailUrl demoRecord
       /\ transcript r' = transcript demoRecord
       /\ likeCount r'
          = countAfter demo (videoId demoRecord) likesPattern (likeCount demoRecord)
       /\ commentCount r'
          = countAfter demo (videoId demoRecord) commentsPattern
              (commentCount demoRecord).
Proof.
  split; [reflexivity|].
  apply (enrichWithEngagementData_frame demo 0 {[0 := demoRecord]} demoRecord).
  reflexivity.
Defined.

(** On the example, the enricher fills both counts from the watch page. *)
Example enrich_demo :
  enrichWithEngagementData demo 0 {[0 := demoRecord]}
  = (0, {[0 := setCommentCount (Num 56) (setLikeCount (Num 1234) demoRecord)]}).
Proof. reflexivity. Qed.

(** * Further properties of the pipeline *)

(** ** The video ID extractor: what it adds to the accumulator *)

Lemma collects_id source : collects source (fun ids => ids).
Proof. intros ids. split_and!; [done | done | by left]. Qed.

Lemma collects_weaken source source' step :
  (forall id, id ∈ source -> id ∈ source') -> collects source step -> collects source' step.
Proof.
  intros Hsub Hstep ids. destruct (Hstep ids) as (H1 & H2 & H3).
  split_and!; [done | done |]. intros id [?|?]%H3; [by left | right; by apply Hsub].
Qed.

Lemma collects_compose s1 s2 f g :
  collects s1 f -> collects s2 g -> collects (s1 ++ s2) (fun ids => g (f ids)).
Proof.
  intros Hf Hg ids.
  destruct (Hf ids) as (F1 & F2 & F3), (Hg (f ids)) as (G1 & G2 & G3).
  split_and!.
  - by etrans.
  - auto.
  - intros id [[?|?]%F3|?]%G3; rewrite elem_of_app; tauto.
Qed.

Lemma collects_pushOwn v : collects (option_list (ownVideoId v)) (pushOwn v).
Proof.
  intros ids. rewrite pushOwn_pushAll. split_and!.
  - apply pushAll_prefix.
  - apply pushAll_NoDup.
  - intros id. rewrite pushAll_elem. tauto.
Qed.

Lemma collects_forValues {A} maxVideos (body : A -> list string -> list string)
    (g : A -> list string) l :
  Forall (fun x => collects (g x) (body x)) l ->
  collects (flat_map g l) (forValues maxVideos body l).
Proof.
  induction 1 as [|x l Hx _ IH]; [apply collects_id|].
  intros ids. simpl. destruct (maxVideos <=? length ids).
  - split_and!; [done | done | by left].
  - apply (collects_compose _ _ (body x) (forValues maxVideos body l)); done.
Qed.

Lemma collects_forEach {A} (body : A -> list string -> list string)
    (g : A -> list string) l :
  Forall (fun x => collects (g x) (body x)) l ->
  collects (flat_map g l) (forEach body l).
Proof.
  induction 1 as [|x l Hx _ IH]; [apply collects_id|].
  apply (collects_compose _ _ (body x) (forEach body l)); done.
Qed.

Lemma extract_collects_both maxVideos v :
  collects (idsOf v) (extractVideoIds maxVideos v)
  /\ collects (idsOf v) (visitIds maxVideos v).
Proof.
  induction v as [| | | |items IH|fields IH] using json_induction.
  1-4: split; apply collects_id.
  - rewrite idsOf_arr. split.
    + intros ids. rewrite extractVideoIds_arr. revert ids.
      apply collects_forValues. eapply Forall_impl; [exact IH|]. by intros x [_ ?].
    + apply collects_forEach. eapply Forall_impl; [exact IH|]. by intros x [? _].
  - assert (collects (idsOf (JObj fields)) (extractVideoIds maxVideos (JObj fields))).
    { rewrite idsOf_obj. intros ids. rewrite extractVideoIds_obj. revert ids.
      apply (collects_compose _ _ (pushOwn (JObj fields))
               (forValues maxVideos (fun kv => visitIds maxVideos kv.2) fields));
        [apply collects_pushOwn|].
      apply collects_forValues. eapply Forall_impl; [exact IH|]. by intros x [_ ?]. }
    by split.
Qed.

(** X1.  Extraction only appends to the accumulator: what was collected
    before stays in place, a list without duplicates stays without
    duplicates, and every identifier added is the 11-character [videoId] of
    some node of the document.  In particular a [videoId] of another length
    is never collected. *)
Theorem extractVideoIds_only_appends (maxVideos : nat) (doc : json) (ids : list string) :
  ids `prefix_of` extractVideoIds maxVideos doc ids
  /\ (NoDup ids -> NoDup (extractVideoIds maxVideos doc ids))
  /\ (forall id, id ∈ extractVideoIds maxVideos doc ids ->
        id ∈ ids
        \/ String.length id = 11
           /\ exists node, node ∈ preorder doc /\ getProp node "videoId" = Some (JStr id)).
Proof.
  destruct (proj1 (extract_collects_both maxVideos doc) ids) as (H1 & H2 & H3).
  split_and!; [done | done |].
  intros id [?|Hin]%H3; [by left|]. right.
  split; [by eapply idsOf_length|].
  unfold idsOf in Hin. apply list_elem_of_omap in Hin as (node & Hnode & Hown).
  exists node. split; [done|]. unfold ownVideoId in Hown.
  destruct (getProp node "videoId") as [[]|]; try done.
  destruct (String.length s =? 11); [|done]. by injection Hown as ->.
Qed.

(** X2.  As long as the limit is not reached nothing is skipped: when the
    extractor returns fewer than [maxVideos] identifiers, these are the
    accumulator followed by every identifier of the document not yet
    collected, in depth-first order; so each identifier of the document is
    in the result. *)
Theorem extractVideoIds_complete_below_limit (maxVideos : nat) (doc : json)
    (ids : list string) :
  length (extractVideoIds maxVideos doc ids) < maxVideos ->
  extractVideoIds maxVideos doc ids = pushAll (idsOf doc) ids
  /\ forall node id,
       node ∈ preorder doc -> ownVideoId node = Some id ->
       id ∈ extractVideoIds maxVideos doc ids.
Proof.
  intros Hlen.
  assert (Heq : extractVideoIds maxVideos doc ids = pushAll (idsOf doc) ids).
  { eapply agree_short; [|exact Hlen]. apply extract_agree_both. }
  split; [done|]. intros node id Hnode Hown.
  rewrite Heq, pushAll_elem. right. unfold idsOf.
  apply list_elem_of_omap. eauto.
Qed.

(** ** The video enumerator: how the requests follow one another *)

Lemma ownToken_truthy v token : ownToken v = Some token -> truthy token = true.
Proof. intros [[_ ?]|(_ & _ & ? & _)]%ownToken_Some; done. Qed.

Lemma findContinuationToken_truthy doc token :
  findContinuationToken doc = Some token -> truthy token = true.
Proof.
  rewrite (proj1 (locator_first_match_both doc)).
  intros (_ & node & _ & _ & _ & Hown)%head_omap_Some. by eapply ownToken_truthy.
Qed.

Lemma paginate_pages_prefix up maxVideos rounds st st' err :
  paginate up maxVideos rounds st = (st', err) ->
  pagesSeen st `prefix_of` pagesSeen st'.
Proof.
  revert st. induction rounds as [|rounds IH]; intros st Hrun; simpl in Hrun.
  { by injection Hrun as <- <-. }
  destruct (length (videoIds st) <? maxVideos); [|by injection Hrun as <- <-].
  destruct (findContinuationToken (data st)) as [token|];
    [|by injection Hrun as <- <-].
  destruct (browseContinuation up (S (attempts st)) token) as [page|message].
  - apply IH in Hrun. simpl in Hrun. etrans; [|exact Hrun]. by apply prefix_app_r.
  - by injection Hrun as <- <-.
Qed.

Lemma paginate_chained up maxVideos rounds st st' err :
  paginate up maxVideos rounds st = (st', err) ->
  attempts st = length (requestsSent st) ->
  last (pagesSeen st) = Some (data st) ->
  length (pagesSeen st) = S (length (requestsSent st)) ->
  agree maxVideos (videoIds st) (discovered (pagesSeen st)) ->
  chained up maxVideos (requestsSent st) (pagesSeen st) ->
  chained up maxVideos (requestsSent st') (pagesSeen st').
Proof.
  revert st. induction rounds as [|rounds IH];
    intros st Hrun Hatt Hlast Hlen Hag Hchain; simpl in Hrun.
  { by injection Hrun as <- <-. }
  destruct (length (videoIds st) <? maxVideos) eqn:Hlt; [|by injection Hrun as <- <-].
  apply Nat.ltb_lt in Hlt.
  destruct (findContinuationToken (data st)) as [token|] eqn:Htoken;
    [|by injection Hrun as <- <-].
  assert (Hnew : forall pages',
            (forall d, pages' !! S (length (requestsSent st)) = Some d ->
                       browseContinuation up (S (attempts st)) token = Returned d) ->
            (exists more, pages' = pagesSeen st ++ more) ->
            chained up maxVideos (requestsSent st ++ [(S (attempts st), token)]) pages').
  { intros pages' Hanswer [more ->] j k tok Hj.
    destruct (decide (j < length (requestsSent st))) as [Hold|Hnew].
    - rewrite lookup_app_l in Hj by done.
      destruct (Hchain j k tok Hj) as (-> & page & Hpage & Hfound & Hfew & Hnext).
      split; [done|]. exists page.
      rewrite lookup_app_l by lia. split; [done|]. split; [done|].
      rewrite take_app_le by lia. split; [done|].
      intros d Hd. apply Hnext. rewrite lookup_app_l in Hd by lia. done.
    - assert (j = length (requestsSent st)) as ->.
      { apply lookup_lt_Some in Hj. rewrite length_app in Hj. simpl in Hj. lia. }
      rewrite lookup_app_r, Nat.sub_diag in Hj by done.
      injection Hj as <- <-. split; [by rewrite Hatt|].
      exists (data st). split_and!.
      + rewrite lookup_app_l by lia. rewrite <- Hlast, last_lookup, Hlen. done.
      + done.
      + rewrite <- Hlen, take_app_length.
        rewrite <- (agree_short _ _ _ Hag Hlt). done.
      + done. }
  destruct (browseContinuation up (S (attempts st)) token) as [page|message] eqn:Hreq.
  - apply IH in Hrun; simpl; [done | | | | |].
    + rewrite length_app. simpl. lia.
    + by rewrite last_snoc.
    + rewrite !length_app. simpl. lia.
    + rewrite discovered_snoc. by apply extractVideoIds_agree.
    + apply Hnew; [|by eexists].
      intros d. rewrite lookup_app_r by lia.
      rewrite Hlen, Nat.sub_diag. by intros [= <-].
  - injection Hrun as <- <-. simpl. apply Hnew; [|exists []; by rewrite app_nil_r].
    intros d Hd. apply lookup_lt_Some in Hd. lia.
Qed.

(** X3.  The continuation requests of an enumeration form a chain: the
    request number [j] (from 0) is the attempt [j + 1], it carries the truthy
    token that the locator found in the page received just before, it was
    sent only because the pages received so far held fewer than [maxVideos]
    distinct identifiers, and the next page, if there is one, is the answer
    to that request. *)
Theorem continuation_requests_chained (up : Upstream) (channelId : string)
    (maxVideos : nat) (st : Pagination) (err : option string) :
  enumeration up channelId maxVideos = Returned (st, err) ->
  (exists first, browseChannel up channelId = Returned first
                 /\ pagesSeen st !! 0 = Some first)
  /\ forall j k token,
       requestsSent st !! j = Some (k, token) ->
       k = S j
       /\ truthy token = true
       /\ exists page,
            pagesSeen st !! j = Some page
            /\ findContinuationToken page = Some token
            /\ length (discovered (take (S j) (pagesSeen st))) < maxVideos
            /\ forall d, pagesSeen st !! S j = Some d ->
                 browseContinuation up k token = Returned d.
Proof.
  intros (first & Hfirst & Hrun)%enumeration_Returned.
  assert (Hchain : chained up maxVideos (requestsSent st) (pagesSeen st)).
  { eapply paginate_chained; [exact Hrun | done | done | done | apply first_page_agree |].
    intros j k token Hj. done. }
  split.
  - exists first. split; [done|].
    destruct (paginate_pages_prefix _ _ _ _ _ _ Hrun) as [more ->]. done.
  - intros j k token Hj. destruct (Hchain j k token Hj) as (-> & page & ? & Hfound & ?).
    split; [done|]. split; [by eapply findContinuationToken_truthy|]. eauto.
Qed.

Lemma paginate_full up maxVideos rounds st :
  maxVideos <= length (videoIds st) -> paginate up maxVideos rounds st = (st, None).
Proof.
  intros Hfull. destruct rounds as [|rounds]; simpl; [done|].
  by destruct (Nat.ltb_spec (length (videoIds st)) maxVideos); [lia|].
Qed.

(** X4.  A first page that already holds [maxVideos] distinct identifiers
    settles the enumeration: its first [maxVideos] identifiers are returned
    and no continuation is requested, whatever upstream would have answered
    to one. *)
Theorem first_page_suffices (up : Upstream) (channelId : string) (maxVideos : nat)
    (first : json) :
  browseChannel up channelId = Returned first ->
  maxVideos <= length (discovered [first]) ->
  fetchChannelVideoIds up channelId maxVideos
  = Returned (take maxVideos (discovered [first]))
  /\ exists st, enumeration up channelId maxVideos = Returned (st, None)
                /\ requestsSent st = [] /\ pagesSeen st = [first].
Proof.
  intros Hfirst Hfull.
  pose proof (first_page_agree maxVideos first) as Hag.
  assert (Hlen : maxVideos <= length (extractVideoIds maxVideos first [])).
  { destruct Hag as [->|(? & _)]; done. }
  unfold fetchChannelVideoIds, enumeration. rewrite Hfirst.
  rewrite paginate_full by done. simpl.
  split; [by rewrite (agree_take _ _ _ Hag) | eauto].
Qed.

(** ** The identifier resolver: finding the marker *)

Lemma append_cons (x : ascii) (a b : string) : String x a +:+ b = String x (a +:+ b).
Proof. reflexivity. Qed.

Lemma append_empty (b : string) : EmptyString +:+ b = b.
Proof. reflexivity. Qed.

Lemma append_assoc (a b c : string) : (a +:+ b) +:+ c = a +:+ (b +:+ c).
Proof.
  induction a as [|x a IH]; [done|]. rewrite !append_cons. by f_equal.
Qed.

Lemma stripPrefix_append p s : stripPrefix p (p +:+ s) = Some s.
Proof.
  induction p as [|c p IH]; [by destruct s|].
  rewrite append_cons. simpl. by rewrite Ascii.eqb_refl.
Qed.

Lemma spanClass_run cls run c rest :
  allChars cls run = true -> cls c = false ->
  spanClass cls (run +:+ String c rest) = (run, String c rest).
Proof.
  intros Hrun Hc. induction run as [|x run IH].
  - rewrite append_empty. simpl. by rewrite Hc.
  - rewrite append_cons. simpl in *.
    apply andb_true_iff in Hrun as [-> Hrun]. by rewrite IH.
Qed.

Lemma channelIdPattern_marker key run post :
  run <> EmptyString -> allChars notQuote run = true ->
  channelIdPattern key (markerText key ("UC" +:+ run) +:+ post) = Some ("UC" +:+ run).
Proof.
  intros Hne Hrun. unfold channelIdPattern, markerText.
  replace ((quoted key +:+ ":" +:+ quoted ("UC" +:+ run)) +:+ post)
    with ((quoted key +:+ ":" +:+ String dquote "UC") +:+ (run +:+ String dquote post)).
  - rewrite stripPrefix_append. unfold captureRun.
    rewrite spanClass_run by done. by destruct run.
  - unfold quoted. by repeat (rewrite ?append_assoc, ?append_cons, ?append_empty).
Qed.

Lemma searchFrom_found {B} (pattern : string -> option B) pre s m :
  pattern s = Some m -> exists m', searchFrom pattern (pre +:+ s) = Some m'.
Proof.
  intros Hm. induction pre as [|c pre IH].
  - rewrite append_empty. destruct s; simpl; rewrite Hm; eauto.
  - rewrite append_cons. simpl. destruct (pattern (String c (pre +:+ s))); eauto.
Qed.

Lemma searchFrom_first {B} (pattern : string -> option B) pre s :
  (forall a b, pre = a +:+ b -> b <> EmptyString -> pattern (b +:+ s) = None) ->
  searchFrom pattern (pre +:+ s) = searchFrom pattern s.
Proof.
  induction pre as [|c pre IH]; intros Hnone; [done|].
  rewrite append_cons. simpl. rewrite <- append_cons.
  rewrite (Hnone EmptyString (String c pre)) by done.
  apply IH. intros a b -> Hb. by apply (Hnone (String c a) b).
Qed.

Lemma searchFrom_here {B} (pattern : string -> option B) s m :
  pattern s = Some m -> searchFrom pattern s = Some m.
Proof. intros Hm. destruct s; simpl; by rewrite Hm. Qed.

(** X5.  A channel page that holds a well-formed [externalId] marker is
    always resolved, and to an identifier captured by that pattern, wherever
    a [channelId] marker may stand; when the marker is the first place where
    the [externalId] pattern matches, the identifier returned is the one it
    holds.  Without any [externalId] match the first [channelId] marker is
    used in the same way. *)
Theorem resolveChannelId_finds_marker (up : Upstream) (channelUrl : string)
    (pre run post : string) (key : string) :
  channelPage up channelUrl
  = Returned (pre +:+ markerText key ("UC" +:+ run) +:+ post) ->
  run <> EmptyString ->
  allChars notQuote run = true ->
  key = "externalId"
  \/ key = "channelId"
     /\ searchFrom (channelIdPattern "externalId")
          (pre +:+ markerText key ("UC" +:+ run) +:+ post) = None ->
  (exists id,
     resolveChannelId up channelUrl = Returned (Some id)
     /\ searchFrom (channelIdPattern key)
          (pre +:+ markerText key ("UC" +:+ run) +:+ post) = Some id)
  /\ ((forall a b, pre = a +:+ b -> b <> EmptyString ->
         channelIdPattern key (b +:+ markerText key ("UC" +:+ run) +:+ post) = None) ->
      resolveChannelId up channelUrl = Returned (Some ("UC" +:+ run))).
Proof.
  intros Hpage Hne Hrun Hkey.
  pose proof (channelIdPattern_marker key run post Hne Hrun) as Hhere.
  destruct (searchFrom_found (channelIdPattern key) pre _ _ Hhere) as [id Hid].
  assert (Hres : resolveChannelId up channelUrl
                 = Returned (searchFrom (channelIdPattern key)
                               (pre +:+ markerText key ("UC" +:+ run) +:+ post))).
  { unfold resolveChannelId. rewrite Hpage.
    destruct Hkey as [->|[-> Hext]]; [by rewrite Hid | by rewrite Hext]. }
  split.
  - exists id. by rewrite Hres, Hid.
  - intros Hfirst. rewrite Hres, searchFrom_first by done.
    by rewrite (searchFrom_here _ _ _ Hhere).
Qed.

(** ** The metadata fetcher and the enricher: failures and repetition *)

Lemma thumbnailOf_Thrown vd id message :
  thumbnailOf vd id = Thrown message <->
  exists thumbnails,
    getPropOpt (getProp vd "thumbnail") "thumbnails" = Some thumbnails
    /\ withoutSlice thumbnails = true /\ message = sliceMessage.
Proof.
  unfold thumbnailOf.
  destruct (getPropOpt (getProp vd "thumbnail") "thumbnails") as [[]|]; simpl;
    split; try done;
    try (intros [= <-]; eexists; by split_and!);
    try (by intros (t & [= <-] & ? & ?));
    try (by intros (t & [= <-] & _ & ->));
    by intros (t & ? & _).
Qed.

Lemma parseIntOf_Thrown v message :
  parseIntOf v = Thrown message <-> exists x, v = Some x /\ toStr x = Thrown message.
Proof.
  unfold parseIntOf, parseIntJson. split.
  - destruct v as [x|]; [|done]. destruct (toStr x) eqn:Hx; [done|].
    intros [= <-]. by exists x.
  - by intros (x & -> & ->).
Qed.

Lemma parseIntOf_Returned v :
  (forall x message, v = Some x -> toStr x <> Thrown message) ->
  exists n, parseIntOf v = Returned n.
Proof.
  intros Hv. destruct (parseIntOf v) as [n|message] eqn:Hn; [by exists n|].
  apply parseIntOf_Thrown in Hn as (x & -> & Hx). by destruct (Hv x message).
Qed.

Lemma detailsOf_Thrown up id response message :
  detailsOf up id response = Thrown message <->
  (exists v,
     (getProp (orElse (getProp response "videoDetails") (JObj [])) "lengthSeconds" = Some v
      \/ getProp (orElse (getProp response "videoDetails") (JObj [])) "viewCount" = Some v)
     /\ toStr v = Thrown message)
  \/ ((exists seconds views,
         parseIntOf (getProp (orElse (getProp response "videoDetails") (JObj []))
                             "lengthSeconds") = Returned seconds
         /\ parseIntOf (getProp (orElse (getProp response "videoDetails") (JObj []))
                                "viewCount") = Returned views)
      /\ thumbnailOf (orElse (getProp response "videoDetails") (JObj [])) id
         = Thrown message).
Proof.
  unfold detailsOf. cbv zeta.
  set (vd := orElse (getProp response "videoDetails") (JObj [])).
  destruct (parseIntOf (getProp vd "lengthSeconds")) as [seconds|m1] eqn:H1.
  - destruct (parseIntOf (getProp vd "viewCount")) as [views|m2] eqn:H2.
    + destruct (thumbnailOf vd id) as [thumbnail|m3] eqn:H3.
      * split; [done|]. intros [(v & [Hv|Hv] & Hthrown)|[_ ?]]; [| |done].
        -- assert (parseIntOf (getProp vd "lengthSeconds") = Thrown message)
             by (apply parseIntOf_Thrown; by exists v).
           congruence.
        -- assert (parseIntOf (getProp vd "viewCount") = Thrown message)
             by (apply parseIntOf_Thrown; by exists v).
           congruence.
      * split.
        -- intros [= ->]. right. split; [by exists seconds, views|done].
        -- intros [(v & [Hv|Hv] & Hthrown)|[_ [= ->]]]; [| |done].
           ++ assert (parseIntOf (getProp vd "lengthSeconds") = Thrown message)
                by (apply parseIntOf_Thrown; by exists v).
              congruence.
           ++ assert (parseIntOf (getProp vd "viewCount") = Thrown message)
                by (apply parseIntOf_Thrown; by exists v).
              congruence.
    + pose proof H2 as (v & Hv & Hthrown)%parseIntOf_Thrown.
      destruct (toStr_Thrown _ _ Hthrown) as [-> _].
      split.
      * intros [= <-]. left. exists v. split; [by right|done].
      * intros [(w & _ & [-> _]%toStr_Thrown)|[(? & ? & _ & ?) _]]; [done|congruence].
  - pose proof H1 as (v & Hv & Hthrown)%parseIntOf_Thrown.
    destruct (toStr_Thrown _ _ Hthrown) as [-> _].
    split.
    + intros [= <-]. left. exists v. split; [by left|done].
    + intros [(w & _ & [-> _]%toStr_Thrown)|[(? & ? & ? & _) _]]; [done|congruence].
Qed.

(** X6.  [getVideoDetails] throws in four cases only: the player request
    or the parsing of its body throws; the body is [null]; the value of
    [lengthSeconds] or of [viewCount] cannot be converted to a text, being
    an object that owns a key [toString] or an array that holds one; or,
    both conversions returning, the value found under
    [videoDetails.thumbnail.thumbnails] is a boolean, a number or an object,
    which has no [slice] method.  A missing field never makes it throw. *)
Theorem getVideoDetails_throws (up : Upstream) (id : string)
    (objects : gmap nat VideoRecord) (message : string) :
  getVideoDetails up id objects = Thrown message <->
  playerResponse up id = Thrown message
  \/ (playerResponse up id = Returned JNull /\ message = nullBodyMessage)
  \/ (exists response v,
        playerResponse up id = Returned response
        /\ (getProp (orElse (getProp response "videoDetails") (JObj [])) "lengthSeconds"
            = Some v
            \/ getProp (orElse (getProp response "videoDetails") (JObj [])) "viewCount"
               = Some v)
        /\ toStr v = Thrown message
        /\ message = primitiveMessage)
  \/ (exists response thumbnails,
        playerResponse up id = Returned response
        /\ (forall field v fault,
              field = "lengthSeconds" \/ field = "viewCount" ->
              getProp (orElse (getProp response "videoDetails") (JObj [])) field = Some v ->
              toStr v <> Thrown fault)
        /\ getPropOpt
             (getProp (orElse (getProp response "videoDetails") (JObj [])) "thumbnail")
             "thumbnails" = Some thumbnails
        /\ withoutSlice thumbnails = true
        /\ message = sliceMessage).
Proof.
  assert (Hsame : getVideoDetails up id objects = Thrown message
                  <-> videoDetails up id = Thrown message).
  { unfold getVideoDetails. destruct (videoDetails up id); [by split | ].
    split; by intros [= ->]. }
  rewrite Hsame. unfold videoDetails.
  destruct (playerResponse up id) as [response|m].
  - assert (Hbody :
      detailsOf up id response = Thrown message <->
      (exists v,
         (getProp (orElse (getProp response "videoDetails") (JObj [])) "lengthSeconds"
          = Some v
          \/ getProp (orElse (getProp response "videoDetails") (JObj [])) "viewCount"
             = Some v)
         /\ toStr v = Thrown message /\ message = primitiveMessage)
      \/ (exists thumbnails,
            (forall field v fault,
               field = "lengthSeconds" \/ field = "viewCount" ->
               getProp (orElse (getProp response "videoDetails") (JObj [])) field = Some v ->
               toStr v <> Thrown fault)
            /\ getPropOpt
                 (getProp (orElse (getProp response "videoDetails") (JObj []))
                          "thumbnail") "thumbnails" = Some thumbnails
            /\ withoutSlice thumbnails = true /\ message = sliceMessage)).
    { rewrite detailsOf_Thrown, thumbnailOf_Thrown. split.
      - intros [(v & Hv & Hthrown)|[(seconds & views & Hs & Hv) (t & Ht & Hslice & ->)]].
        + left. exists v. split_and!; [done | done |].
          by destruct (toStr_Thrown _ _ Hthrown).
        + right. exists t. split_and!; [|done..].
          intros field v fault [-> | ->] Hfield Hfault.
          * assert (parseIntOf (getProp (orElse (getProp response "videoDetails")
                                                 (JObj [])) "lengthSeconds")
                    = Thrown fault) by (apply parseIntOf_Thrown; by exists v).
            congruence.
          * assert (parseIntOf (getProp (orElse (getProp response "videoDetails")
                                                 (JObj [])) "viewCount")
                    = Thrown fault) by (apply parseIntOf_Thrown; by exists v).
            congruence.
      - intros [(v & Hv & Hthrown & _)|(t & Hfine & Ht & Hslice & ->)].
        + left. by exists v.
        + right. split; [|by exists t].
          destruct (parseIntOf_Returned
                      (getProp (orElse (getProp response "videoDetails") (JObj []))
                               "lengthSeconds")) as [seconds Hs].
          { intros x fault Hx. by apply (Hfine "lengthSeconds" x fault); [left|]. }
          destruct (parseIntOf_Returned
                      (getProp (orElse (getProp response "videoDetails") (JObj []))
                               "viewCount")) as [views Hv].
          { intros x fault Hx. by apply (Hfine "viewCount" x fault); [right|]. }
          by exists seconds, views. }
    assert (Hnull : response = JNull \/ response <> JNull).
    { destruct response; (by left) || by right. }
    destruct Hnull as [->|Hne].
    + split.
      * intros [= <-]. right. by left.
      * intros [?|[[_ ->]|[(r & v & [= <-] & [Hv|Hv] & _)|(r & t & [= <-] & _ & Ht & _)]]];
          done.
    + assert (Hgo : match response with
                    | JNull => Thrown nullBodyMessage
                    | _ => detailsOf up id response
                    end = detailsOf up id response) by by destruct response.
      rewrite Hgo, Hbody. split.
      * intros [(v & ? & ? & ?)|(t & ? & ? & ? & ?)].
        -- right. right. left. by exists response, v.
        -- right. right. right. by exists response, t.
      * intros [?|[[[= ->] _]|[(r & v & [= <-] & ? & ? & ?)|(r & t & [= <-] & ? & ? & ? & ?)]]];
          [done | done | left; by exists v | right; by exists t].
  - split.
    + intros [= ->]. by left.
    + intros [[= ->]|[[? _]|[(r & v & ? & _)|(r & t & ? & _)]]]; done.
Qed.

Lemma engagement_videoId up r : videoId (engagement up r) = videoId r.
Proof.
  unfold engagement. destruct (watchPage up (videoId r)) as [html|]; [|done].
  by destruct (searchFrom likesPattern html), (searchFrom commentsPattern html).
Qed.

Lemma engagement_idempotent up r : engagement up (engagement up r) = engagement up r.
Proof.
  unfold engagement at 1. rewrite engagement_videoId. unfold engagement.
  destruct (watchPage up (videoId r)) as [html|]; [|done].
  by destruct (searchFrom likesPattern html), (searchFrom commentsPattern html).
Qed.

(** X7.  Enriching a record a second time changes nothing, as long as
    upstream serves the same page: the second call leaves the store as the
    first one left it. *)
Theorem enrichWithEngagementData_idempotent (up : Upstream) (videoInfo : nat)
    (objects : gmap nat VideoRecord) :
  enrichWithEngagementData up
    (enrichWithEngagementData up videoInfo objects).1
    (enrichWithEngagementData up videoInfo objects).2
  = enrichWithEngagementData up videoInfo objects.
Proof.
  destruct (objects !! videoInfo) as [r|] eqn:Hr.
  - rewrite (enrichWithEngagementData_insert _ _ _ _ Hr). simpl.
    rewrite (enrichWithEngagementData_insert _ _ _ (engagement up r))
      by apply lookup_insert_eq.
    by rewrite engagement_idempotent, insert_insert_eq.
  - rewrite (enrichWithEngagementData_absent _ _ _ Hr). simpl.
    by apply enrichWithEngagementData_absent.
Qed.

(** ** The result of a run: how many entries, and about which videos *)

Lemma detailsOf_videoId up id response r :
  detailsOf up id response = Returned r -> videoId r = id.
Proof. by intros (_ & _ & _ & _ & _ & ? & _)%detailsOf_Returned. Qed.

Lemma entryId_entryFor up id : entryId (entryFor up id) = id.
Proof.
  unfold entryFor. destruct (videoDetails up id) as [r|] eqn:Hr; [|done].
  simpl. rewrite engagement_videoId. unfold videoDetails in Hr.
  destruct (playerResponse up id) as [response|]; [|done].
  destruct response; try done; by eapply detailsOf_videoId.
Qed.

Lemma fetchChannelVideoIds_distinct up channelId maxVideos ids :
  fetchChannelVideoIds up channelId maxVideos = Returned ids ->
  NoDup ids /\ Forall (fun id => String.length id = 11) ids.
Proof.
  unfold fetchChannelVideoIds.
  destruct (enumeration up channelId maxVideos) as [[st [m|]]|m] eqn:Henum; try done.
  intros [= <-].
  apply enumeration_Returned in Henum as (d & _ & Hrun).
  apply paginate_spec in Hrun; simpl; [|apply first_page_agree|done|done].
  destruct Hrun as (Hag & _). rewrite (agree_take _ _ _ Hag). split.
  - eapply sublist_NoDup; [apply discovered_NoDup | apply sublist_take].
  - apply Forall_forall. intros id Hid.
    eapply discovered_length, elem_of_sublist; [exact Hid | apply sublist_take].
Qed.

(** X8.  The [result] event of a run holds between 1 and 100 entries, never
    more than the effective limit of the request, one per enumerated video:
    the entries are about pairwise distinct videoIds of 11 characters each,
    whether their fetch succeeded or failed. *)
Theorem result_entries_distinct (up : Upstream) (req : Request)
    (events : list event) (entries : list videoJson) :
  channelRoute up req = EventStream events ->
  Result entries ∈ events ->
  exists max,
    effectiveMax (maxVideos req) = Returned max
    /\ 1 <= length entries <= Z.to_nat max
    /\ Z.to_nat max <= 100
    /\ NoDup (map entryId entries)
    /\ Forall (fun entry => String.length (entryId entry) = 11) entries.
Proof.
  intros (url & Hurl & _ & [(message & Hthrown & ->)|(limit & Hlimit & -> & Hmax)])
         %channelRoute_stream Hin.
  { by apply list_elem_of_singleton in Hin. }
  exists limit. split; [done|].
  apply pipeline_result in Hin as (c & ids & H1 & H2 & H3 & ->).
  pose proof (fetchChannelVideoIds_length _ _ _ _ H2).
  destruct (fetchChannelVideoIds_distinct _ _ _ _ H2) as [Hnodup Hlen].
  assert (Hids : map entryId (map (entryFor up) ids) = ids).
  { rewrite map_map. rewrite <- (map_id ids) at 2. apply map_ext.
    intros id. apply entryId_entryFor. }
  rewrite length_map. split_and!.
  - destruct ids; [done | simpl; lia].
  - done.
  - done.
  - by rewrite Hids.
  - apply Forall_forall. intros entry Hentry.
    apply list_elem_of_In, in_map_iff in Hentry as (id & <- & Hid).
    rewrite entryId_entryFor. rewrite Forall_forall in Hlen.
    by apply Hlen, list_elem_of_In.
Qed.

(** * The client of the event stream *)

(** ** Splitting a text into lines *)

Lemma splitLines_cons s : exists piece pieces, splitLines s = piece :: pieces.
Proof.
  induction s as [|c s (piece & pieces & IH)]; simpl; [by eauto|].
  destruct (Ascii.eqb c "010"); [by eauto|]. rewrite IH. eauto.
Qed.

Lemma removelast_cons_cons {A} (x y : A) l :
  removelast (x :: y :: l) = x :: removelast (y :: l).
Proof. reflexivity. Qed.

Lemma last_cons_cons {A} (x y d : A) l : List.last (x :: y :: l) d = List.last (y :: l) d.
Proof. reflexivity. Qed.

Lemma splitLines_append a b :
  splitLines (a +:+ b)
  = removelast (splitLines a) ++ splitLines (List.last (splitLines a) EmptyString +:+ b).
Proof.
  induction a as [|c a IH]; [done|].
  rewrite append_cons. simpl.
  destruct (splitLines_cons a) as (p & ps & Ha). rewrite Ha in *.
  destruct (Ascii.eqb c "010") eqn:Hc.
  - rewrite IH, removelast_cons_cons, last_cons_cons. done.
  - rewrite IH. destruct ps as [|q ps].
    + simpl. by rewrite Hc.
    + rewrite !removelast_cons_cons, !last_cons_cons. done.
Qed.

Lemma splitLines_line s :
  allChars noLineFeed s = true -> splitLines s = [s].
Proof.
  induction s as [|c s IH]; simpl; [done|].
  intros [Hc Hs]%andb_true_iff. unfold noLineFeed in Hc.
  apply negb_true_iff in Hc. by rewrite Hc, IH.
Qed.

Lemma splitLines_feed s rest :
  allChars noLineFeed s = true ->
  splitLines (s +:+ String "010" rest) = s :: splitLines rest.
Proof.
  induction s as [|c s IH]; [done|].
  simpl. intros [Hc Hs]%andb_true_iff. unfold noLineFeed in Hc.
  apply negb_true_iff in Hc. rewrite ?append_cons. simpl. by rewrite Hc, IH.
Qed.

Lemma splitLines_last_line s : allChars noLineFeed (List.last (splitLines s) EmptyString) = true.
Proof.
  induction s as [|c s IH]; simpl; [done|].
  destruct (splitLines_cons s) as (p & ps & Hs). rewrite Hs in *.
  destruct (Ascii.eqb c "010") eqn:Hc.
  - by rewrite last_cons_cons.
  - destruct ps as [|q ps]; [|by rewrite last_cons_cons in *].
    simpl in *. unfold noLineFeed at 1. by rewrite Hc, IH.
Qed.

(** ** Reading the stream *)

Lemma handleLines_app browser l1 l2 st :
  handleLines browser (l1 ++ l2) st =
  match handleLines browser l1 st with
  | (st', None) => handleLines browser l2 st'
  | (st', Some message) => (st', Some message)
  end.
Proof.
  revert st. induction l1 as [|line l1 IH]; intros st; simpl; [done|].
  destruct (handleLine browser line st) as [st' [m|]]; [done | apply IH].
Qed.

Lemma removelast_app_cons {A} (l1 : list A) x l2 :
  removelast (l1 ++ x :: l2) = l1 ++ removelast (x :: l2).
Proof. by apply removelast_app. Qed.

Lemma last_app_cons {A} (l1 : list A) x l2 d :
  List.last (l1 ++ x :: l2) d = List.last (x :: l2) d.
Proof.
  induction l1 as [|y l1 IH]; [done|].
  simpl app. destruct (l1 ++ x :: l2) eqn:Heq; [by destruct l1|].
  rewrite last_cons_cons. done.
Qed.

Lemma streamText_app l1 l2 : streamText (l1 ++ l2) = streamText l1 +:+ streamText l2.
Proof.
  induction l1 as [|c l1 IH]; [done|]. simpl. by rewrite IH, append_assoc.
Qed.

(** The loop handles the complete lines of the text made of its buffer and
    of the chunks still to come, and nothing else. *)
Lemma readLoop_text browser ending chunks buffer st :
  allChars noLineFeed buffer = true ->
  readLoop browser ending chunks buffer st =
  match handleLines browser
          (removelast (splitLines (buffer +:+ streamText chunks))) st with
  | (st', None) => (st', ending)
  | (st', Some message) => (st', Some message)
  end.
Proof.
  revert buffer st. induction chunks as [|value rest IH]; intros buffer st Hbuffer.
  - simpl. assert (buffer +:+ EmptyString = buffer) as ->.
    { clear. induction buffer as [|c b IH]; [done|]. by rewrite append_cons, IH. }
    by rewrite splitLines_line.
  - simpl. rewrite <- append_assoc.
    rewrite (splitLines_append (buffer +:+ value) (streamText rest)).
    destruct (splitLines_cons (List.last (splitLines (buffer +:+ value)) EmptyString
                               +:+ streamText rest)) as (p & ps & Hp).
    rewrite Hp, removelast_app_cons, handleLines_app.
    destruct (handleLines browser (removelast (splitLines (buffer +:+ value))) st)
      as [st' [m|]]; [done|].
    rewrite IH by apply splitLines_last_line. by rewrite Hp.
Qed.

(** X9.  The client does not depend on how the network cuts the stream
    into chunks: two deliveries of the same text lead to the same calls of
    [onProgress], in the same order, and to the same returned value or
    exception. *)
Theorem downloadChannelData_chunking (browser : Browser) (status : bool)
    (ending : option string) (chunks1 chunks2 : list string) :
  streamText chunks1 = streamText chunks2 ->
  downloadChannelData browser
    (Returned {| ok := status; chunks := chunks1; failure := ending |})
  = downloadChannelData browser
      (Returned {| ok := status; chunks := chunks2; failure := ending |}).
Proof.
  intros Htext. unfold downloadChannelData. simpl.
  destruct status; [|done].
  rewrite !readLoop_text by done. by rewrite Htext.
Qed.

(** ** Reading what the server wrote *)

Lemma frame_append p rest :
  frame p +:+ rest
  = ("data: " +:+ p) +:+ String "010" (EmptyString +:+ String "010" rest).
Proof.
  unfold frame. by repeat (rewrite ?append_assoc, ?append_cons, ?append_empty).
Qed.

Lemma data_line p :
  allChars noLineFeed p = true -> allChars noLineFeed ("data: " +:+ p) = true.
Proof. intros Hp. by rewrite !append_cons, append_empty. Qed.

Lemma frame_lines payloads :
  Forall (fun p => allChars noLineFeed p = true) payloads ->
  splitLines (streamText (map frame payloads))
  = flat_map (fun p => ["data: " +:+ p; EmptyString]) payloads ++ [EmptyString].
Proof.
  induction 1 as [|p payloads Hp _ IH]; [done|].
  change (streamText (map frame (p :: payloads)))
    with (frame p +:+ streamText (map frame payloads)).
  rewrite frame_append, (splitLines_feed _ _ (data_line p Hp)).
  rewrite (splitLines_feed EmptyString) by done. by rewrite IH.
Qed.

Lemma handleLines_blank browser payloads st :
  handleLines browser (flat_map (fun p => ["data: " +:+ p; EmptyString]) payloads) st
  = handleLines browser (map (fun p => "data: " +:+ p) payloads) st.
Proof.
  revert st. induction payloads as [|p payloads IH]; intros st; [done|].
  simpl. destruct (handleLine browser ("data: " +:+ p) st) as [st' [m|]]; [done|].
  change (handleLine browser EmptyString st') with (st', @None string). apply IH.
Qed.

Lemma readLoop_data_lines (browser : Browser) (ending : option string)
    (chunks : list string) (payloads : list string) (st : Client) :
  streamText chunks = streamText (map frame payloads) ->
  Forall (fun p => allChars noLineFeed p = true) payloads ->
  readLoop browser ending chunks EmptyString st =
  match handleLines browser (map (fun p => "data: " +:+ p) payloads) st with
  | (st', None) => (st', ending)
  | (st', Some message) => (st', Some message)
  end.
Proof.
  intros Htext Hpayloads. rewrite readLoop_text by done.
  rewrite append_empty, Htext, frame_lines by done.
  rewrite removelast_app_cons. simpl removelast. rewrite app_nil_r.
  by rewrite handleLines_blank.
Qed.

(** X10.  Framing round trip: when the server has written one frame per
    payload and no payload holds a line feed, the client parses exactly these
    payloads, each once and in the order written, however the text was cut
    into chunks; the blank lines between frames are skipped.  A failure of
    the connection after the last chunk is thrown to the caller, unless a
    frame made the client throw before. *)
Theorem downloadChannelData_frames (browser : Browser) (ending : option string)
    (chunks : list string) (payloads : list string) :
  streamText chunks = streamText (map frame payloads) ->
  Forall (fun p => allChars noLineFeed p = true) payloads ->
  downloadChannelData browser
    (Returned {| ok := true; chunks := chunks; failure := ending |})
  = match handleLines browser (map (fun p => "data: " +:+ p) payloads)
            {| progressCalls := []; result := Some JNull |} with
    | (st, None) =>
        (progressCalls st,
         match ending with
         | None => Returned (result st)
         | Some message => Thrown message
         end)
    | (st, Some message) => (progressCalls st, Thrown message)
    end.
Proof.
  intros Htext Hlines. unfold downloadChannelData. simpl.
  rewrite (readLoop_data_lines _ _ _ _ _ Htext Hlines).
  destruct (handleLines browser _ _) as [st [message|]]; [done|].
  by destruct ending.
Qed.

Lemma typeIs_object data name : typeIs data name = true -> data <> JNull.
Proof. by destruct data. Qed.

Lemma typeIs_other data name name' :
  typeIs data name = true -> name <> name' -> typeIs data name' = false.
Proof.
  unfold typeIs. destruct (getProp data "type") as [[]|]; try done.
  intros ->%String.eqb_eq Hne. by apply String.eqb_neq.
Qed.

Lemma dispatch_status data st :
  typeIs data "status" = true ->
  dispatch data st
  = Returned {| progressCalls := progressCalls st ++ [data]; result := result st |}.
Proof. intros Htype. unfold dispatch. rewrite Htype. by destruct data. Qed.

Lemma handleLines_statuses browser payloads statuses st :
  Forall2 (fun p d => jsonParse browser p = Returned d /\ typeIs d "status" = true)
          payloads statuses ->
  handleLines browser (map (fun p => "data: " +:+ p) payloads) st
  = ({| progressCalls := progressCalls st ++ statuses; result := result st |}, None).
Proof.
  intros Hall. revert st. induction Hall as [|p d payloads statuses [Hp Hd] _ IH];
    intros st.
  - simpl. rewrite app_nil_r. by destruct st.
  - simpl. unfold handleLine.
    replace (stripPrefix "data: " ("data: " +:+ p)) with (Some p)
      by (symmetry; apply stripPrefix_append).
    rewrite Hp, (dispatch_status _ _ Hd), IH. simpl. by rewrite <- app_assoc.
Qed.

Lemma download_last_event (browser : Browser) (chunks : list string)
    (payloads : list string) (statuses : list json) (final : string) (data : json) :
  streamText chunks = streamText (map frame (payloads ++ [final])) ->
  Forall (fun p => allChars noLineFeed p = true) (payloads ++ [final]) ->
  Forall2 (fun p d => jsonParse browser p = Returned d /\ typeIs d "status" = true)
          payloads statuses ->
  jsonParse browser final = Returned data ->
  downloadChannelData browser
    (Returned {| ok := true; chunks := chunks; failure := None |})
  = match dispatch data {| progressCalls := statuses; result := Some JNull |} with
    | Returned st => (progressCalls st, Returned (result st))
    | Thrown message =>
        (statuses, if rethrown message then Thrown message else Returned (Some JNull))
    end.
Proof.
  intros Htext Hlines Hstatuses Hfinal.
  unfold downloadChannelData. simpl.
  rewrite (readLoop_data_lines _ _ _ _ _ Htext Hlines).
  rewrite map_app, handleLines_app, (handleLines_statuses _ _ _ _ Hstatuses).
  simpl. unfold handleLine.
  replace (stripPrefix "data: " ("data: " +:+ final)) with (Some final)
    by (symmetry; apply stripPrefix_append).
  rewrite Hfinal.
  destruct (dispatch data _) as [st|message]; [done|].
  by destruct (rethrown message).
Qed.

(** X11.  The end of a well-formed stream.  When the frames of a stream
    parse to status events followed by one last event, [onProgress] is called
    with each status event in order, and then: a last event of type [result]
    makes the client return its [videos]; a last event of type [error] makes
    it throw the message of the event, unless that message is empty or holds
    the text JSON, in which case the error is dropped and the client returns
    [null]. *)
Theorem downloadChannelData_terminal (browser : Browser) (chunks : list string)
    (payloads : list string) (statuses : list json) (final : string) (data : json) :
  streamText chunks = streamText (map frame (payloads ++ [final])) ->
  Forall (fun p => allChars noLineFeed p = true) (payloads ++ [final]) ->
  Forall2 (fun p d => jsonParse browser p = Returned d /\ typeIs d "status" = true)
          payloads statuses ->
  jsonParse browser final = Returned data ->
  (typeIs data "result" = true ->
     downloadChannelData browser
       (Returned {| ok := true; chunks := chunks; failure := None |})
     = (statuses, Returned (getProp data "videos")))
  /\ (typeIs data "error" = true ->
        downloadChannelData browser
          (Returned {| ok := true; chunks := chunks; failure := None |})
        = (statuses,
           if rethrown (errorMessage data) then Thrown (errorMessage data)
           else Returned (Some JNull))).
Proof.
  intros Htext Hlines Hstatuses Hfinal.
  rewrite (download_last_event _ _ _ _ _ _ Htext Hlines Hstatuses Hfinal).
  split; intros Htype; unfold dispatch.
  - rewrite (typeIs_other _ _ "status" Htype), (typeIs_other _ _ "error" Htype), Htype
      by done.
    by destruct data.
  - rewrite (typeIs_other _ _ "status" Htype), Htype by done.
    pose proof (typeIs_object _ _ Htype). by destruct data.
Qed.

(** ** From the route to the caller *)

Lemma pipeline_split up url max :
  exists statuses terminal,
    pipeline up url max = statuses ++ [terminal]
    /\ forallb isStatus statuses = true
    /\ (isError terminal || isResult terminal = true)
    /\ (isResult terminal = true ->
        exists earlier, statuses = earlier ++ [Status "Done!" 100]).
Proof.
  destruct (pipeline_shape up url max)
    as [m H1|id H1 H2|c m H1 H2|c H1 H2|c ids H1 H2 H3].
  - by exists [Status "Resolving channel..." 0], (Error m).
  - by exists [Status "Resolving channel..." 0],
              (Error "Could not resolve channel ID from URL").
  - by exists [Status "Resolving channel..." 0; Status "Fetching video list..." 5],
              (Error m).
  - by exists [Status "Resolving channel..." 0; Status "Fetching video list..." 5],
              (Error "No videos found for this channel").
  - exists ([Status "Resolving channel..." 0; Status "Fetching video list..." 5;
             Status ("Found " +:+ decimal (length ids)
                     +:+ " videos. Downloading metadata...") 10]
            ++ map (downloading (length ids)) (seq 0 (length ids))
            ++ [Status "Done!" 100]),
           (Result (map (entryFor up) ids)).
    split_and!; [by rewrite <- !app_assoc | | done |].
    + rewrite !forallb_app. simpl. rewrite andb_true_r.
      apply forallb_forall. by intros e (k & <- & _)%in_map_iff.
    + intros _. eexists. by rewrite app_assoc.
Qed.

Lemma route_split up req events :
  channelRoute up req = EventStream events ->
  exists statuses terminal,
    events = statuses ++ [terminal]
    /\ forallb isStatus statuses = true
    /\ (isError terminal || isResult terminal = true)
    /\ (isResult terminal = true ->
        exists earlier, statuses = earlier ++ [Status "Done!" 100]).
Proof.
  intros (url & _ & _ & [(message & _ & ->)|(limit & _ & -> & _)])%channelRoute_stream.
  - by exists [], (Error message).
  - apply pipeline_split.
Qed.

(** What the client makes of a stream of status events and one last event
    that is not a status event. *)
Lemma download_events (browser : Browser) (stringify : event -> string)
    (statuses : list event) (terminal : event) (chunks : list string) :
  Forall (fun e => allChars noLineFeed (stringify e) = true
                   /\ jsonParse browser (stringify e) = Returned (eventJson e))
         (statuses ++ [terminal]) ->
  forallb isStatus statuses = true ->
  isError terminal || isResult terminal = true ->
  streamText chunks
  = streamText (map (fun e => frame (stringify e)) (statuses ++ [terminal])) ->
  downloadChannelData browser
    (Returned {| ok := true; chunks := chunks; failure := None |})
  = (map eventJson statuses, delivered terminal).
Proof.
  intros Hcodec Hstatus Hterminal Htext.
  apply Forall_app in Hcodec as [Hcodec Hlast].
  apply Forall_singleton in Hlast as [Hfeed Hparse].
  assert (Hprefix : Forall2
            (fun p d => jsonParse browser p = Returned d /\ typeIs d "status" = true)
            (map stringify statuses) (map eventJson statuses)).
  { clear Htext. induction statuses as [|e statuses IH]; [constructor|].
    apply Forall_cons in Hcodec as [[_ He] Hcodec].
    simpl in Hstatus. apply andb_true_iff in Hstatus as [Hs Hstatus].
    simpl. constructor; [|by apply IH]. split; [done|]. by destruct e. }
  rewrite (download_last_event browser chunks (map stringify statuses)
             (map eventJson statuses) (stringify terminal) (eventJson terminal));
    [by destruct terminal | | | done | done].
  - rewrite Htext. f_equal. by rewrite !map_app, !map_map.
  - apply Forall_app. split; [|by apply Forall_singleton].
    apply Forall_forall. intros p Hp%list_elem_of_In.
    apply in_map_iff in Hp as (e & <- & He%list_elem_of_In).
    rewrite Forall_forall in Hcodec. by apply Hcodec.
Qed.

(** X12.  From the route to the caller.  Let the route write its events
    with a serialiser whose texts hold no line feed and are read back by the
    browser as the event written.  Then, however the stream is cut into
    chunks, the client calls [onProgress] once per [status] event, in order,
    and ends as the terminal event says: it returns the [videos] of a
    [result] event, and throws the message of an [error] event, except that
    an error whose message is empty or holds the text JSON is dropped and
    [null] returned. *)
Theorem channel_download_end_to_end (up : Upstream) (req : Request)
    (browser : Browser) (stringify : event -> string)
    (events : list event) (chunks : list string) :
  channelRoute up req = EventStream events ->
  Forall (fun e => allChars noLineFeed (stringify e) = true
                   /\ jsonParse browser (stringify e) = Returned (eventJson e)) events ->
  streamText chunks = streamText (map (fun e => frame (stringify e)) events) ->
  exists statuses terminal,
    events = statuses ++ [terminal]
    /\ forallb isStatus statuses = true
    /\ isError terminal || isResult terminal = true
    /\ downloadChannelData browser
         (Returned {| ok := true; chunks := chunks; failure := None |})
       = (map eventJson statuses, delivered terminal).
Proof.
  intros (statuses & terminal & -> & Hstatus & Hterminal & _)%route_split Hcodec Htext.
  exists statuses, terminal. split; [done|]. split; [done|]. split; [done|].
  by apply (download_events browser stringify).
Qed.

(** * From the route to the form *)

Lemma onProgress_kept (calls : list json) (form : YouTubeDownload.Form) :
  YouTubeDownload.result (fold_left YouTubeDownload.onProgress calls form)
  = YouTubeDownload.result form
  /\ YouTubeDownload.error (fold_left YouTubeDownload.onProgress calls form)
     = YouTubeDownload.error form.
Proof.
  revert form. induction calls as [|data calls IH]; intros form; [done|].
  simpl. by destruct (IH (YouTubeDownload.onProgress form data)) as [-> ->].
Qed.

Lemma terminal_unique (statuses : list event) (terminal e : event) :
  forallb isStatus statuses = true ->
  e ∈ statuses ++ [terminal] -> isStatus e = false -> e = terminal.
Proof.
  intros Hstatus [Hin|Hin%list_elem_of_singleton]%elem_of_app Hnot; [|done].
  rewrite forallb_forall in Hstatus.
  apply list_elem_of_In, Hstatus in Hin. congruence.
Qed.

Lemma rethrown_shown (message : string) :
  rethrown message = true -> YouTubeDownload.shownError message = message.
Proof.
  unfold rethrown, YouTubeDownload.shownError.
  by destruct (String.eqb message EmptyString).
Qed.

(** X13.  What the user sees.  Under the conditions of the previous
    property the form ends in one of two ways.  After a [result] event it
    holds the videos, the message [Downloaded n videos!] with [n] the number
    of entries, a progress of 100 and no error.  After an [error] event it
    shows the message of the event, unless that message is empty or holds
    the text JSON, as a message about malformed JSON does: then the client
    returns [null] and the form shows the [TypeError] of reading the
    [length] of [null] instead. *)
Theorem route_outcome_shown (up : Upstream) (req : Request)
    (browser : Browser) (stringify : event -> string)
    (events : list event) (chunks : list string) :
  channelRoute up req = EventStream events ->
  Forall (fun e => allChars noLineFeed (stringify e) = true
                   /\ jsonParse browser (stringify e) = Returned (eventJson e)) events ->
  streamText chunks = streamText (map (fun e => frame (stringify e)) events) ->
  (forall entries,
     Result entries ∈ events ->
     YouTubeDownload.handleDownload
       (downloadChannelData browser
          (Returned {| ok := true; chunks := chunks; failure := None |}))
     = {| YouTubeDownload.progress := Some (JNum "100");
          YouTubeDownload.statusMsg :=
            Some (JStr ("Downloaded " +:+ decimal (length entries) +:+ " videos!"));
          YouTubeDownload.result := Some (JArr (map entryJson entries));
          YouTubeDownload.error := EmptyString |})
  /\ (forall message,
        Error message ∈ events ->
        let form :=
          YouTubeDownload.handleDownload
            (downloadChannelData browser
               (Returned {| ok := true; chunks := chunks; failure := None |})) in
        YouTubeDownload.result form = Some JNull
        /\ YouTubeDownload.error form
           = if rethrown message then message else YouTubeDownload.nullLengthMessage).
Proof.
  intros (statuses & terminal & -> & Hstatus & Hterminal & Hdone)%route_split
         Hcodec Htext.
  rewrite (download_events browser stringify statuses terminal chunks) by done.
  unfold YouTubeDownload.handleDownload. cbn [fst snd].
  destruct (onProgress_kept (map eventJson statuses) YouTubeDownload.started)
    as [Hresult Herror].
  split.
  - intros entries Hin. apply (terminal_unique _ _ _ Hstatus) in Hin as <-; [|done].
    destruct (Hdone eq_refl) as [earlier ->].
    cbn [delivered YouTubeDownload.lengthText]. rewrite length_map, Herror.
    f_equal. by rewrite map_app, fold_left_app.
  - intros message Hin. apply (terminal_unique _ _ _ Hstatus) in Hin as <-; [|done].
    cbn [delivered]. destruct (rethrown message) eqn:Hmessage; cbn.
    + by rewrite Hresult, (rethrown_shown _ Hmessage).
    + done.
Qed.

(** * The limit, from the form to the route *)

Lemma formLimit_range (value : string) : (1 <= formLimit value <= 100)%Z.
Proof. unfold formLimit. lia. Qed.

Lemma effectiveMax_printed (limit : Z) :
  (1 <= limit <= 100)%Z -> effectiveMax (Some (JNum (printInt limit))) = Returned limit.
Proof.
  intros Hrange. unfold effectiveMax, parseIntJson. cbn [toStr].
  rewrite parseInt_printInt. f_equal. unfold limitOf.
  destruct (limit =? 0)%Z eqn:Hzero; lia.
Qed.

(** X14.  The route never alters a limit that comes from the form: whatever
    text is typed, the form keeps a limit between 1 and 100, and a download
    started with it runs the pipeline with exactly that limit.  The two
    sides differ only on what the form never sends: a text without a number
    counts as 1 in the form, while the route takes 10 for a limit it cannot
    read. *)
Theorem form_limit_reaches_route (up : Upstream) (value url : string) :
  url <> EmptyString ->
  (1 <= formLimit value <= 100)%Z
  /\ effectiveMax (maxVideos (downloadRequest url (formLimit value)))
     = Returned (formLimit value)
  /\ channelRoute up (downloadRequest url (formLimit value))
     = EventStream (pipeline up url (Z.to_nat (formLimit value)))
  /\ (parseInt value = NaN ->
        formLimit value = 1%Z /\ effectiveMax (Some (JStr value)) = Returned 10%Z).
Proof.
  intros Hurl. pose proof (formLimit_range value) as Hrange.
  split; [done|]. split; [by apply effectiveMax_printed|]. split.
  - unfold channelRoute. simpl channelUrl. simpl maxVideos.
    rewrite effectiveMax_printed by done. by destruct url.
  - intros Hnan. unfold formLimit, effectiveMax, parseIntJson. cbn [toStr].
    by rewrite Hnan.
Qed.

(** * Messages: what is posted and what is read back *)

Lemma messageOf_Some (now : string) (body : MessageBody) (msg : json) :
  messageOf now body = Some msg ->
  exists r c,
    role body = Some r /\ truthy r = true /\ content body = Some c
    /\ truthyOpt (session_id body) = true
    /\ msg = JObj ([("role", r); ("content", c); ("timestamp", JStr now)]
                   ++ (if truthyOpt (imageData body)
                       then [("imageData", JArr (postedImages body))] else [])
                   ++ (if hasLength (charts body) then field "charts" (charts body) else [])
                   ++ (if hasLength (toolCalls body)
                       then field "toolCalls" (toolCalls body) else [])).
Proof.
  unfold messageOf, postedImages.
  destruct (session_id body) as [s|]; [|done]. simpl truthyOpt at 1.
  destruct (truthy s) eqn:Hs; [|done].
  destruct (role body) as [r|]; [|done]. simpl truthyOpt at 1.
  destruct (truthy r) eqn:Hr; [|done].
  destruct (content body) as [c|]; [|done].
  simpl. intros [= <-]. exists r, c. repeat (split; [done|]).
  do 5 f_equal. destruct (imageData body) as [x|]; [|done]. simpl.
  by destruct (truthy x).
Qed.

Lemma hasLength_field (key : string) (v : option json) (rest : list (string * json)) :
  (if hasLength v then field key v else []) ++ rest
  = field key (if hasLength v then v else None) ++ rest.
Proof. by destruct (hasLength v). Qed.

Lemma hasLength_Some (v : option json) : hasLength v = true -> is_Some v.
Proof. by destruct v. Qed.

(** The fields of a posted message, as the reader of line 191 finds them. *)
Lemma posted_fields (now : string) (body : MessageBody) (msg : json) :
  messageOf now body = Some msg ->
  msg <> JNull
  /\ getProp msg "role" = role body
  /\ getProp msg "content" = content body
  /\ getProp msg "timestamp" = Some (JStr now)
  /\ storedImages msg = postedImages body
  /\ getProp msg "charts" = (if hasLength (charts body) then charts body else None)
  /\ getProp msg "toolCalls" = (if hasLength (toolCalls body) then toolCalls body else None).
Proof.
  intros (r & c & Hr & _ & Hc & _ & ->)%messageOf_Some.
  rewrite Hr, Hc. split; [done|]. do 3 (split; [done|]).
  unfold storedImages, postedImages.
  destruct (imageData body) as [x|]; simpl truthyOpt; [destruct (truthy x) eqn:Hx|];
    (destruct (hasLength (charts body)) eqn:Hcharts;
       [destruct (hasLength_Some _ Hcharts) as [ch ->]|]);
    (destruct (hasLength (toolCalls body)) eqn:Htools;
       [destruct (hasLength_Some _ Htools) as [tc ->]|]);
    done.
Qed.

Lemma pickImages_spec (images : list json) :
  mapOutcome pickImage images
  = if existsb isNull images then Thrown nullImageMessage
    else Returned (map imageFields images).
Proof.
  induction images as [|img images IH]; [done|].
  simpl. rewrite IH. by destruct img, (existsb isNull images).
Qed.

(** The view of one posted message. *)
Lemma posted_view (now : string) (body : MessageBody) (msg : json) (id : string) (i : nat) :
  messageOf now body = Some msg ->
  messageView id i msg
  = if existsb isNull (postedImages body) then Thrown nullImageMessage
    else Returned (postedView id i now body).
Proof.
  intros (Hnull & Hrole & Hcontent & Htime & Himages & Hcharts & Htools)%posted_fields.
  unfold messageView, postedView. rewrite Hrole, Hcontent, Htime, Himages, Hcharts, Htools.
  destruct msg; try done;
    (rewrite pickImages_spec; destruct (existsb isNull (postedImages body)); [done|]);
    destruct (postedImages body);
    destruct (hasLength (charts body)) eqn:Hc;
    destruct (hasLength (toolCalls body)) eqn:Ht;
    simpl; rewrite ?Hc, ?Ht; done.
Qed.

Lemma viewFrom_posted (id : string) (posts : list (string * MessageBody))
    (stored : list json) (k : nat) :
  Forall2 (fun post msg => messageOf post.1 post.2 = Some msg) posts stored ->
  Forall (fun post => existsb isNull (postedImages post.2) = false) posts ->
  viewFrom id k stored
  = Returned (imap (fun i post => postedView id (k + i) post.1 post.2) posts).
Proof.
  intros Hstored. revert k.
  induction Hstored as [|[now body] msg posts stored Hmsg _ IH]; intros k Hclean; [done|].
  apply Forall_cons in Hclean as [Hbody Hclean]. simpl in *.
  rewrite (posted_view _ _ _ _ _ Hmsg), Hbody, (IH (S k) Hclean).
  rewrite Nat.add_0_r. do 2 f_equal. apply imap_ext. intros i post _. simpl.
  by rewrite Nat.add_succ_r.
Qed.

Lemma postedView_fields (id : string) (i : nat) (now : string) (body : MessageBody) :
  getProp (postedView id i now body) "id" = Some (JStr (id +:+ "-" +:+ decimal i))
  /\ getProp (postedView id i now body) "role" = role body
  /\ getProp (postedView id i now body) "content" = content body
  /\ getProp (postedView id i now body) "timestamp" = Some (JStr now)
  /\ getProp (postedView id i now body) "images"
     = match postedImages body with
       | [] => None
       | images => Some (JArr (map imageFields images))
       end
  /\ getProp (postedView id i now body) "charts"
     = (if hasLength (charts body) then charts body else None)
  /\ getProp (postedView id i now body) "toolCalls"
     = (if hasLength (toolCalls body) then toolCalls body else None).
Proof.
  unfold postedView.
  destruct (role body), (content body), (postedImages body);
    (destruct (hasLength (charts body)); [destruct (charts body)|]);
    (destruct (hasLength (toolCalls body)); [destruct (toolCalls body)|]);
    done.
Qed.

Lemma viewFrom_Thrown (id : string) (stored : list json) (msg : json) (k : nat) :
  msg ∈ stored ->
  (forall i, exists message, messageView id i msg = Thrown message) ->
  exists message, viewFrom id k stored = Thrown message.
Proof.
  intros Hin Hmsg. revert k.
  induction stored as [|m stored IH]; intros k; [by apply elem_of_nil in Hin|].
  simpl. apply elem_of_cons in Hin as [<-|Hin].
  - destruct (Hmsg k) as [message ->]. by exists message.
  - destruct (messageView id k m); [|by eexists].
    destruct (IH Hin (S k)) as [message ->]. by exists message.
Qed.

(** X15.  Messages read back as posted.  When the [messages] of a session
    are the documents that the route stored for a sequence of accepted
    requests, none of which carried a [null] image, the reader returns one
    entry per request, in the order posted; the entry number [i] has the
    [id] of the session followed by [-i], the [role], [content] and time of
    its request, its images reduced to [data] and [mimeType] (a single image
    counting as a list of one, and no [images] at all without any), and the
    [charts] and [toolCalls] of the request exactly when these are not
    empty. *)
Theorem posted_messages_read_back (id : string) (posts : list (string * MessageBody))
    (stored : list json) :
  Forall2 (fun post msg => messageOf post.1 post.2 = Some msg) posts stored ->
  Forall (fun post => existsb isNull (postedImages post.2) = false) posts ->
  exists views,
    messagesOf (Some {| docId := id; messages := Some (JArr stored) |}) = Returned views
    /\ length views = length posts
    /\ forall i now body,
         posts !! i = Some (now, body) ->
         exists view,
           views !! i = Some view
           /\ getProp view "id" = Some (JStr (id +:+ "-" +:+ decimal i))
           /\ getProp view "role" = role body
           /\ getProp view "content" = content body
           /\ getProp view "timestamp" = Some (JStr now)
           /\ getProp view "images"
              = match postedImages body with
                | [] => None
                | images => Some (JArr (map imageFields images))
                end
           /\ getProp view "charts"
              = (if hasLength (charts body) then charts body else None)
           /\ getProp view "toolCalls"
              = (if hasLength (toolCalls body) then toolCalls body else None).
Proof.
  intros Hstored Hclean.
  exists (imap (fun i post => postedView id i post.1 post.2) posts).
  split; [|split].
  - simpl. by rewrite (viewFrom_posted id posts stored 0 Hstored Hclean).
  - by rewrite length_imap.
  - intros i now body Hi. exists (postedView id i now body).
    split; [|apply postedView_fields].
    by rewrite list_lookup_imap, Hi.
Qed.

(** X16.  One [null] image blocks a session.  The route accepts and stores
    a message whose [imageData] is an array that holds [null]; from then on
    reading the messages of that session fails, whatever else the session
    holds: the reader throws on the [data] of [null], which the route
    answers with status 500. *)
Theorem null_image_blocks_session (id now : string) (body : MessageBody)
    (msg : json) (stored : list json) :
  messageOf now body = Some msg ->
  existsb isNull (postedImages body) = true ->
  msg ∈ stored ->
  (forall i, messageView id i msg = Thrown nullImageMessage)
  /\ exists message,
       messagesOf (Some {| docId := id; messages := Some (JArr stored) |})
       = Thrown message.
Proof.
  intros Hmsg Hnull Hin.
  assert (Hview : forall i, messageView id i msg = Thrown nullImageMessage).
  { intros i. by rewrite (posted_view _ _ _ _ _ Hmsg), Hnull. }
  split; [done|]. simpl.
  apply (viewFrom_Thrown id stored msg 0 Hin). intros i. by eexists.
Qed.

(** * Field names of the loaded data *)

Lemma existsb_eqb_elem (name : string) (keys : list string) :
  existsb (String.eqb name) keys = true <-> name ∈ keys.
Proof.
  rewrite existsb_exists. split.
  - intros (k & Hk%list_elem_of_In & ->%String.eqb_eq). done.
  - intros Hin. exists name. split; [by apply list_elem_of_In | apply String.eqb_refl].
Qed.

(** X17.  Resolving a field name settles it: the name returned is the name
    given, or else a key of the first video with the same normal form, and
    then the name given is not a key itself; a name that is a key is
    returned unchanged even if an earlier key has the same normal form; and
    resolving the name returned gives it back. *)
Theorem resolveField_settles (norm : string -> string)
    (videos : list (list (string * json))) (name : string) :
  (resolveField norm videos name = name
   \/ exists first rest,
        videos = first :: rest
        /\ resolveField norm videos name ∈ map fst first
        /\ norm (resolveField norm videos name) = norm name
        /\ name ∉ map fst first)
  /\ (forall first rest, videos = first :: rest -> name ∈ map fst first ->
        resolveField norm videos name = name)
  /\ resolveField norm videos (resolveField norm videos name)
     = resolveField norm videos name.
Proof.
  destruct videos as [|first rest]; [by repeat split; try left|].
  unfold resolveField.
  destruct (String.eqb name EmptyString) eqn:Hname.
  { rewrite Hname. split; [by left|]. by split. }
  destruct (existsb (String.eqb name) (map fst first)) eqn:Hkey.
  { rewrite Hname, Hkey. split; [by left|]. by split. }
  assert (Hnot : name ∉ map fst first).
  { intros Hin%existsb_eqb_elem. congruence. }
  destruct (List.find _ (map fst first)) as [k|] eqn:Hfind.
  - destruct (find_some _ _ Hfind) as [Hin%list_elem_of_In Hnorm%String.eqb_eq].
    destruct (String.eqb k EmptyString) eqn:Hk.
    + rewrite Hname, Hkey, Hfind, Hk.
      split; [by left|]. by split; [intros ? ? [= <- <-] ?|].
    + split; [right; by exists first, rest|].
      split; [by intros ? ? [= <- <-] ?|].
      rewrite Hk. by rewrite (proj2 (existsb_eqb_elem k _) Hin).
  - rewrite Hname, Hkey, Hfind. split; [by left|]. by split; [intros ? ? [= <- <-] ?|].
Qed.

(** * The duration shown for a video *)

Lemma roundQuotient_sixty (d P : Z) :
  (0 <= d)%Z -> (32 <= P)%Z -> (roundQuotient (d * P) 60 / P = d / 60)%Z.
Proof.
  intros Hd HP.
  pose proof (Z.div_mod d 60 ltac:(lia)) as Hsplit.
  pose proof (Z.mod_pos_bound d 60 ltac:(lia)) as Hrange.
  set (D := (d / 60)%Z) in *. set (R := (d mod 60)%Z) in *.
  pose proof (Z.div_mod (R * P) 60 ltac:(lia)) as Hsplit'.
  pose proof (Z.mod_pos_bound (R * P) 60 ltac:(lia)) as Hrange'.
  set (q := (R * P / 60)%Z) in *. set (r := ((R * P) mod 60)%Z) in *.
  assert (Hn : (d * P = (D * P + q) * 60 + r)%Z) by lia.
  assert (Hq : ((d * P) / 60 = D * P + q)%Z).
  { symmetry. apply (Z.div_unique _ _ _ r); lia. }
  assert (Hr : ((d * P) mod 60 = r)%Z).
  { symmetry. apply (Z.mod_unique _ _ (D * P + q)); lia. }
  assert (Hq0 : (0 <= q)%Z) by (apply Z.div_pos; nia).
  assert (HD : (0 <= D)%Z) by (apply Z.div_pos; lia).
  unfold roundQuotient. rewrite Hq, Hr.
  assert (Hdown : (q < P)%Z) by nia.
  assert (Hup : (30 <= r -> q + 1 < P)%Z) by nia.
  destruct (2 * r <? 60)%Z eqn:H1; [|destruct (60 <? 2 * r)%Z eqn:H2;
    [|destruct (Z.even (D * P + q))]];
    symmetry;
    first [ apply (Z.div_unique _ _ _ q); lia | apply (Z.div_unique _ _ _ (q + 1)); lia ].
Qed.

Lemma floor_sixty (d : Z) :
  (0 <= d < 2 ^ 53)%Z -> floorOf false (divide d 60) = (d / 60)%Z.
Proof.
  intros [Hd Hbound]. unfold floorOf, divide, nearestDouble.
  destruct (d =? 0)%Z eqn:Hzero; [by apply Z.eqb_eq in Hzero as ->|].
  apply Z.eqb_neq in Hzero.
  assert (Hlog : (0 <= Z.log2 d < 53)%Z).
  { split; [apply Z.log2_nonneg | apply Z.log2_lt_pow2; lia]. }
  change (Z.log2 60) with 5%Z.
  set (k := (Z.log2 d - 5)%Z).
  set (magnitude := if (60 * 2 ^ Z.max 0 k <=? d * 2 ^ Z.max 0 (- k))%Z
                    then k else (k - 1)%Z).
  assert (Hmag : (magnitude <= 47)%Z).
  { unfold magnitude, k. destruct (_ <=? _)%Z; lia. }
  cbn [mantissa exponent].
  replace (Z.max 0 (magnitude - 52)) with 0%Z by lia.
  replace (Z.max 0 (- (magnitude - 52))) with (52 - magnitude)%Z by lia.
  rewrite Z.mul_1_r. change (2 ^ 0)%Z with 1%Z. rewrite Z.mul_1_r.
  apply roundQuotient_sixty; [done|].
  change 32%Z with (2 ^ 5)%Z. apply Z.pow_le_mono_r; lia.
Qed.

Lemma two_digits (s : Z) :
  (0 <= s < 60)%Z ->
  String.length (padStart2 (printInt s)) = 2 /\ parseInt (padStart2 (printInt s)) = Num s.
Proof.
  intros Hs.
  assert (Htable : forallb (fun n =>
            Nat.eqb (String.length (padStart2 (printInt (Z.of_nat n)))) 2
            && match parseInt (padStart2 (printInt (Z.of_nat n))) with
               | Num z => (z =? Z.of_nat n)%Z
               | NaN => false
               end) (seq 0 60) = true) by (vm_compute; reflexivity).
  rewrite forallb_forall in Htable.
  assert (Hin : In (Z.to_nat s) (seq 0 60)) by (apply in_seq; lia).
  apply Htable in Hin. rewrite Z2Nat.id in Hin by lia.
  apply andb_true_iff in Hin as [Hlen Hparse].
  split; [by apply Nat.eqb_eq|].
  destruct (parseInt _); [done|]. by apply Z.eqb_eq in Hparse as ->.
Qed.

(** X18.  Minutes and seconds add up.  For a duration between 1 second and
    2^53 seconds the card shows the whole minutes, a colon and the remaining
    seconds on exactly two digits, and the list shows the same two numbers:
    read back, sixty times the minutes plus the seconds is the duration.
    The division by 60 is a division of doubles, whose rounding never
    reaches the next minute in this range.  A duration of 0 gives an empty
    label. *)
Theorem durationLabel_adds_up (duration : Z) :
  (0 < duration < 2 ^ 53)%Z ->
  exists seconds,
    durationLabel duration = printInt (duration / 60) +:+ ":" +:+ seconds
    /\ String.length seconds = 2
    /\ parseInt (printInt (duration / 60)) = Num (minutesOf duration)
    /\ parseInt seconds = Num (secondsOf duration)
    /\ (0 <= secondsOf duration < 60)%Z
    /\ (60 * minutesOf duration + secondsOf duration = duration)%Z
    /\ listedDuration (Some duration)
       = printInt (minutesOf duration) +:+ "m " +:+ printInt (secondsOf duration) +:+ "s"
    /\ durationLabel 0 = EmptyString.
Proof.
  intros Hrange.
  assert (Hminutes : minutesOf duration = (duration / 60)%Z).
  { unfold minutesOf. replace (duration <? 0)%Z with false by lia.
    rewrite Z.abs_eq by lia. apply floor_sixty. lia. }
  assert (Hseconds : secondsOf duration = (duration mod 60)%Z).
  { unfold secondsOf. apply Z.rem_mod_nonneg; lia. }
  pose proof (Z.mod_pos_bound duration 60 ltac:(lia)) as Hbound.
  pose proof (Z.div_mod duration 60 ltac:(lia)) as Hsplit.
  destruct (two_digits (duration mod 60) Hbound) as [Hlen Hparse].
  exists (padStart2 (printInt (secondsOf duration))).
  rewrite Hminutes, Hseconds.
  split.
  { unfold durationLabel. replace (duration =? 0)%Z with false by lia.
    by rewrite Hminutes, Hseconds. }
  split; [done|]. split; [apply parseInt_printInt|]. split; [done|].
  split; [done|]. split; [lia|]. split; [|done].
  unfold listedDuration. simpl default. by rewrite Hminutes, Hseconds.
Qed.

(** * The further properties on the examples *)

Lemma extractVideoIds_only_appends_witness :
  NoDup ["zzzzzzzzzzz"]
  /\ NoDup (extractVideoIds 10 firstPage ["zzzzzzzzzzz"]).
Proof.
  split; [apply NoDup_singleton|].
  apply (proj1 (proj2 (extractVideoIds_only_appends 10 firstPage ["zzzzzzzzzzz"]))).
  apply NoDup_singleton.
Defined.

Lemma extractVideoIds_complete_below_limit_witness :
  length (extractVideoIds 10 firstPage []) < 10
  /\ extractVideoIds 10 firstPage [] = pushAll (idsOf firstPage) []
  /\ forall node id,
       node ∈ preorder firstPage -> ownVideoId node = Some id ->
       id ∈ extractVideoIds 10 firstPage [].
Proof.
  split; [simpl; lia|].
  apply (extractVideoIds_complete_below_limit 10 firstPage []). simpl. lia.
Defined.

Lemma continuation_requests_chained_witness :
  exists st,
    enumeration demo demoChannel 10 = Returned (st, None)
    /\ (exists first, browseChannel demo demoChannel = Returned first
                      /\ pagesSeen st !! 0 = Some first)
    /\ forall j k token,
         requestsSent st !! j = Some (k, token) ->
         k = S j
         /\ truthy token = true
         /\ exists page,
              pagesSeen st !! j = Some page
              /\ findContinuationToken page = Some token
              /\ length (discovered (take (S j) (pagesSeen st))) < 10
              /\ forall d, pagesSeen st !! S j = Some d ->
                   browseContinuation demo k token = Returned d.
Proof.
  eexists. split; [reflexivity|].
  eapply (continuation_requests_chained demo demoChannel 10 _ None). reflexivity.
Defined.

Lemma first_page_suffices_witness :
  browseChannel stalled demoChannel = Returned firstPage
  /\ 2 <= length (discovered [firstPage])
  /\ fetchChannelVideoIds stalled demoChannel 2
     = Returned (take 2 (discovered [firstPage]))
  /\ exists st, enumeration stalled demoChannel 2 = Returned (st, None)
                /\ requestsSent st = [] /\ pagesSeen st = [firstPage].
Proof.
  split; [reflexivity|]. split; [simpl; lia|].
  apply (first_page_suffices stalled demoChannel 2 firstPage); [reflexivity | simpl; lia].
Defined.

Lemma resolveChannelId_finds_marker_witness :
  channelPage demo demoUrl
  = Returned ("<script>{" +:+ markerText "externalId" ("UC" +:+ "abcdefghijklmnopqrstuv")
              +:+ "}</script>")
  /\ (exists id,
        resolveChannelId demo demoUrl = Returned (Some id)
        /\ searchFrom (channelIdPattern "externalId")
             ("<script>{" +:+ markerText "externalId" ("UC" +:+ "abcdefghijklmnopqrstuv")
              +:+ "}</script>") = Some id)
  /\ ((forall a b, "<script>{" = a +:+ b -> b <> EmptyString ->
         channelIdPattern "externalId"
           (b +:+ markerText "externalId" ("UC" +:+ "abcdefghijklmnopqrstuv")
            +:+ "}</script>") = None) ->
      resolveChannelId demo demoUrl = Returned (Some ("UC" +:+ "abcdefghijklmnopqrstuv"))).
Proof.
  split; [reflexivity|].
  apply (resolveChannelId_finds_marker demo demoUrl "<script>{" "abcdefghijklmnopqrstuv"
           "}</script>" "externalId");
    [reflexivity | discriminate | reflexivity | left; reflexivity].
Defined.

Lemma getVideoDetails_throws_witness :
  (playerResponse demo "bbbbbbbbbbb" = Thrown "player unavailable"
   /\ getVideoDetails demo "bbbbbbbbbbb" ∅ = Thrown "player unavailable")
  /\ getVideoDetails (withPlayer (Returned JNull)) "aaaaaaaaaaa" ∅
     = Thrown nullBodyMessage
  /\ (toStr unreadable = Thrown primitiveMessage
      /\ getVideoDetails (withPlayer (Returned unreadableLength)) "aaaaaaaaaaa" ∅
         = Thrown primitiveMessage)
  /\ getVideoDetails (withPlayer (Returned numberForThumbnails)) "aaaaaaaaaaa" ∅
     = Thrown sliceMessage
  /\ (getVideoDetails (withPlayer (Returned numberForThumbnails)) "aaaaaaaaaaa" ∅
      = Thrown sliceMessage ->
      exists thumbnails,
        getPropOpt
          (getProp (orElse (getProp numberForThumbnails "videoDetails") (JObj []))
                   "thumbnail") "thumbnails" = Some thumbnails
        /\ withoutSlice thumbnails = true).
Proof.
  split.
  { split; [reflexivity|].
    apply (proj2 (getVideoDetails_throws demo "bbbbbbbbbbb" ∅ "player unavailable")).
    left. reflexivity. }
  split.
  { apply (proj2 (getVideoDetails_throws (withPlayer (Returned JNull)) "aaaaaaaaaaa" ∅
                    nullBodyMessage)).
    right. left. split; reflexivity. }
  split.
  { split; [reflexivity|].
    apply (proj2 (getVideoDetails_throws (withPlayer (Returned unreadableLength))
                    "aaaaaaaaaaa" ∅ primitiveMessage)).
    right. right. left. exists unreadableLength, unreadable.
    split; [reflexivity|]. split; [left; reflexivity|]. split; reflexivity. }
  split.
  { apply (proj2 (getVideoDetails_throws (withPlayer (Returned numberForThumbnails))
                    "aaaaaaaaaaa" ∅ sliceMessage)).
    right. right. right. exists numberForThumbnails, (JNum "5").
    split; [reflexivity|]. split; [|split; [reflexivity|split; reflexivity]].
    intros field v fault [-> | ->]; discriminate. }
  intros Hthrown.
  destruct (proj1 (getVideoDetails_throws (withPlayer (Returned numberForThumbnails))
                     "aaaaaaaaaaa" ∅ sliceMessage) Hthrown)
    as [Hplayer|[[Hplayer _]|[(response & v & _ & _ & _ & Hmessage)
                              |(response & thumbnails & Hplayer & _ & Hfound & Hslice & _)]]].
  - discriminate Hplayer.
  - discriminate Hplayer.
  - discriminate Hmessage.
  - injection Hplayer as <-. exists thumbnails. split; assumption.
Defined.

Lemma result_entries_distinct_witness :
  channelRoute demo (demoRequest None) = EventStream (pipeline demo demoUrl 10)
  /\ Result (map (entryFor demo) demoIds) ∈ pipeline demo demoUrl 10
  /\ exists max,
       effectiveMax (maxVideos (demoRequest None)) = Returned max
       /\ 1 <= length (map (entryFor demo) demoIds) <= Z.to_nat max
       /\ Z.to_nat max <= 100
       /\ NoDup (map entryId (map (entryFor demo) demoIds))
       /\ Forall (fun entry => String.length (entryId entry) = 11)
                 (map (entryFor demo) demoIds).
Proof.
  assert (Hin : Result (map (entryFor demo) demoIds) ∈ pipeline demo demoUrl 10).
  { apply list_elem_of_In. vm_compute.
    repeat (first [left; reflexivity | right]). }
  split; [reflexivity|]. split; [exact Hin|].
  apply (result_entries_distinct demo (demoRequest None) (pipeline demo demoUrl 10)
           (map (entryFor demo) demoIds)); [reflexivity | exact Hin].
Defined.

Lemma downloadChannelData_chunking_witness :
  streamText [stalledText] = streamText stalledChunks
  /\ downloadChannelData stalledBrowser
       (Returned {| ok := true; chunks := [stalledText]; failure := None |})
     = downloadChannelData stalledBrowser
         (Returned {| ok := true; chunks := stalledChunks; failure := None |}).
Proof.
  split; [reflexivity|].
  apply (downloadChannelData_chunking stalledBrowser true None [stalledText] stalledChunks).
  reflexivity.
Defined.

Lemma downloadChannelData_frames_witness :
  streamText stalledChunks = streamText (map frame (map demoStringify stalledEvents))
  /\ Forall (fun p => allChars noLineFeed p = true) (map demoStringify stalledEvents)
  /\ downloadChannelData stalledBrowser
       (Returned {| ok := true; chunks := stalledChunks; failure := None |})
     = match handleLines stalledBrowser
               (map (fun p => "data: " +:+ p) (map demoStringify stalledEvents))
               {| progressCalls := []; result := Some JNull |} with
       | (st, None) => (progressCalls st, Returned (result st))
       | (st, Some message) => (progressCalls st, Thrown message)
       end.
Proof.
  assert (Hlines : Forall (fun p => allChars noLineFeed p = true)
                          (map demoStringify stalledEvents)).
  { repeat constructor. }
  split; [reflexivity|]. split; [exact Hlines|].
  apply (downloadChannelData_frames stalledBrowser None stalledChunks
           (map demoStringify stalledEvents)); [reflexivity | exact Hlines].
Defined.

Lemma downloadChannelData_terminal_witness :
  typeIs (eventJson (Error "socket hang up")) "error" = true
  /\ downloadChannelData stalledBrowser
       (Returned {| ok := true; chunks := stalledChunks; failure := None |})
     = ([eventJson (Status "Resolving channel..." 0);
         eventJson (Status "Fetching video list..." 5)],
        if rethrown (errorMessage (eventJson (Error "socket hang up")))
        then Thrown (errorMessage (eventJson (Error "socket hang up")))
        else Returned (Some JNull)).
Proof.
  split; [reflexivity|].
  apply (proj2 (downloadChannelData_terminal stalledBrowser stalledChunks
                  [demoStringify (Status "Resolving channel..." 0);
                   demoStringify (Status "Fetching video list..." 5)]
                  [eventJson (Status "Resolving channel..." 0);
                   eventJson (Status "Fetching video list..." 5)]
                  (demoStringify (Error "socket hang up"))
                  (eventJson (Error "socket hang up"))
                  ltac:(reflexivity) ltac:(repeat constructor)
                  ltac:(repeat constructor) ltac:(reflexivity))).
  reflexivity.
Defined.

Lemma channel_download_end_to_end_witness :
  channelRoute stalled (demoRequest None) = EventStream stalledEvents
  /\ Forall (fun e => allChars noLineFeed (demoStringify e) = true
                      /\ jsonParse stalledBrowser (demoStringify e)
                         = Returned (eventJson e)) stalledEvents
  /\ streamText stalledChunks
     = streamText (map (fun e => frame (demoStringify e)) stalledEvents)
  /\ exists statuses terminal,
       stalledEvents = statuses ++ [terminal]
       /\ forallb isStatus statuses = true
       /\ isError terminal || isResult terminal = true
       /\ downloadChannelData stalledBrowser
            (Returned {| ok := true; chunks := stalledChunks; failure := None |})
          = (map eventJson statuses, delivered terminal).
Proof.
  assert (Hcodec : Forall (fun e => allChars noLineFeed (demoStringify e) = true
                             /\ jsonParse stalledBrowser (demoStringify e)
                                = Returned (eventJson e)) stalledEvents).
  { repeat constructor. }
  split; [reflexivity|]. split; [exact Hcodec|]. split; [reflexivity|].
  apply (channel_download_end_to_end stalled (demoRequest None) stalledBrowser
           demoStringify stalledEvents stalledChunks);
    [reflexivity | exact Hcodec | reflexivity].
Defined.

Lemma route_outcome_shown_witness :
  channelRoute stalled (demoRequest None) = EventStream stalledEvents
  /\ Error "socket hang up" ∈ stalledEvents
  /\ YouTubeDownload.result
       (YouTubeDownload.handleDownload
          (downloadChannelData stalledBrowser
             (Returned {| ok := true; chunks := stalledChunks; failure := None |})))
     = Some JNull
  /\ YouTubeDownload.error
       (YouTubeDownload.handleDownload
          (downloadChannelData stalledBrowser
             (Returned {| ok := true; chunks := stalledChunks; failure := None |})))
     = if rethrown "socket hang up" then "socket hang up"
       else YouTubeDownload.nullLengthMessage.
Proof.
  assert (Hin : Error "socket hang up" ∈ stalledEvents) by repeat constructor.
  split; [reflexivity|]. split; [exact Hin|].
  apply (proj2 (route_outcome_shown stalled (demoRequest None) stalledBrowser
                  demoStringify stalledEvents stalledChunks
                  ltac:(reflexivity) ltac:(repeat constructor) ltac:(reflexivity))
           "socket hang up" Hin).
Defined.

Lemma form_limit_reaches_route_witness :
  demoUrl <> EmptyString
  /\ (1 <= formLimit "250" <= 100)%Z
  /\ effectiveMax (maxVideos (downloadRequest demoUrl (formLimit "250")))
     = Returned (formLimit "250")
  /\ channelRoute demo (downloadRequest demoUrl (formLimit "250"))
     = EventStream (pipeline demo demoUrl (Z.to_nat (formLimit "250")))
  /\ (parseInt "250" = NaN ->
        formLimit "250" = 1%Z /\ effectiveMax (Some (JStr "250")) = Returned 10%Z).
Proof.
  split; [discriminate|].
  apply (form_limit_reaches_route demo "250" demoUrl). discriminate.
Defined.

Lemma posted_messages_read_back_witness :
  Forall2 (fun post msg => messageOf post.1 post.2 = Some msg)
          [(demoNow, demoBody)]
          [JObj [("role", JStr "user"); ("content", JStr "What is on this picture?");
                 ("timestamp", JStr demoNow);
                 ("imageData",
                  JArr [JObj [("data", JStr "iVBORw0KGgo="); ("mimeType", JStr "image/png");
                              ("name", JStr "picture.png")]])]]
  /\ Forall (fun post => existsb isNull (postedImages post.2) = false)
            [(demoNow, demoBody)]
  /\ exists views,
       messagesOf (Some {| docId := "65f0c0ffee0123456789abcd";
                           messages := Some (JArr
                             [JObj [("role", JStr "user");
                                    ("content", JStr "What is on this picture?");
                                    ("timestamp", JStr demoNow);
                                    ("imageData",
                                     JArr [JObj [("data", JStr "iVBORw0KGgo=");
                                                 ("mimeType", JStr "image/png");
                                                 ("name", JStr "picture.png")]])]]) |})
       = Returned views
       /\ length views = length [(demoNow, demoBody)]
       /\ forall i now body,
            [(demoNow, demoBody)] !! i = Some (now, body) ->
            exists view,
              views !! i = Some view
              /\ getProp view "id"
                 = Some (JStr ("65f0c0ffee0123456789abcd" +:+ "-" +:+ decimal i))
              /\ getProp view "role" = role body
              /\ getProp view "content" = content body
              /\ getProp view "timestamp" = Some (JStr now)
              /\ getProp view "images"
                 = match postedImages body with
                   | [] => None
                   | images => Some (JArr (map imageFields images))
                   end
              /\ getProp view "charts"
                 = (if hasLength (charts body) then charts body else None)
              /\ getProp view "toolCalls"
                 = (if hasLength (toolCalls body) then toolCalls body else None).
Proof.
  split; [repeat constructor|]. split; [repeat constructor|].
  apply (posted_messages_read_back "65f0c0ffee0123456789abcd" [(demoNow, demoBody)]);
    repeat constructor.
Defined.

Lemma null_image_blocks_session_witness :
  messageOf demoNow nullImageBody
  = Some (JObj [("role", JStr "user"); ("content", JStr "What is on this picture?");
                ("timestamp", JStr demoNow); ("imageData", JArr [JNull])])
  /\ existsb isNull (postedImages nullImageBody) = true
  /\ (forall i,
        messageView "65f0c0ffee0123456789abcd" i
          (JObj [("role", JStr "user"); ("content", JStr "What is on this picture?");
                 ("timestamp", JStr demoNow); ("imageData", JArr [JNull])])
        = Thrown nullImageMessage)
  /\ exists message,
       messagesOf (Some {| docId := "65f0c0ffee0123456789abcd";
                           messages := Some (JArr
                             [JObj [("role", JStr "user");
                                    ("content", JStr "What is on this picture?");
                                    ("timestamp", JStr demoNow);
                                    ("imageData", JArr [JNull])]]) |})
       = Thrown message.
Proof.
  split; [reflexivity|]. split; [reflexivity|].
  apply (null_image_blocks_session "65f0c0ffee0123456789abcd" demoNow nullImageBody);
    [reflexivity | reflexivity | apply list_elem_of_here].
Defined.

Lemma resolveField_settles_witness :
  "viewCount" ∈ map fst demoVideo
  /\ resolveField asciiNorm [demoVideo] "viewCount" = "viewCount".
Proof.
  split; [repeat constructor|].
  apply (proj1 (proj2 (resolveField_settles asciiNorm [demoVideo] "viewCount"))
           demoVideo []); [reflexivity | repeat constructor].
Defined.

Lemma durationLabel_adds_up_witness :
  (0 < 213 < 2 ^ 53)%Z
  /\ exists seconds,
       durationLabel 213 = printInt (213 / 60) +:+ ":" +:+ seconds
       /\ String.length seconds = 2
       /\ parseInt (printInt (213 / 60)) = Num (minutesOf 213)
       /\ parseInt seconds = Num (secondsOf 213)
       /\ (0 <= secondsOf 213 < 60)%Z
       /\ (60 * minutesOf 213 + secondsOf 213 = 213)%Z
       /\ listedDuration (Some 213%Z)
          = printInt (minutesOf 213) +:+ "m " +:+ printInt (secondsOf 213) +:+ "s"
       /\ durationLabel 0 = EmptyString.
Proof.
  split; [lia|]. apply (durationLabel_adds_up 213). lia.
Defined.

(** On the examples: the card of a video of 213 seconds, the limit typed as
    250, and a field name written with an underscore. *)
Example card_and_form :
  durationLabel 213 = "3:33"
  /\ listedDuration (Some 213%Z) = "3m 33s"
  /\ formLimit "250" = 100%Z
  /\ formLimit "abc" = 1%Z
  /\ resolveField asciiNorm [demoVideo] "view_count" = "viewCount".
Proof. repeat split; reflexivity. Qed.
